(** * DreamWeaver: the turn pipeline, presence and quest continuity

    A shallow embedding of [dreamweaver/agents/orchestrator.py] together with
    the parts of [world/models.py], [config.py], [services/storage.py] and
    [flask_app.py] it relies on, and of [world/serializers.py], which carries
    the snapshots to and from their stored form.

    Modelling conventions.
    - A world snapshot carries the field types that [models.py] declares.
      Whatever a collaborator (a generative agent) returns is untyped JSON,
      exactly as [json.loads] delivers it, and every probe the source makes
      on it ([.get], [[..]], [float(..)], [int(..)], truth tests, iteration)
      is written out with the exception CPython raises.
    - A Python [float] is an IEEE binary64 value ([spec_float] with
      precision 53 and maximal exponent 1024); a Python [int] is a [Z].
    - A [str] is a [string] of ASCII characters.
    - A function that may raise returns a [result]; [try/except Exception]
      is [try_except].  Nothing is persisted when a turn raises, so a raised
      run carries no state.  A run in which a collaborator value would be
      stored in a field of another declared type ends in [Untyped].
    - Collaborator calls are answered by a [Collaborators] record: one reply
      per agent and turn, and the k-th reply for the dialogue agent, which is
      the only one that is called a variable number of times.
    - [float(..)] on a string, [str(..)], the renderer and the assembly of the
      story text are parameters of the orchestrator: no statement depends on
      what they compute.
    - [time.time()] is an argument: [now], or [clock k] for the k-th reading
      within one turn. *)

From Stdlib Require Import ZArith String Ascii List Lia.
From Stdlib Require Import Floats.SpecFloat.
From stdpp Require Import base option list strings gmap pretty.

Local Open Scope string_scope.
Local Open Scope list_scope.
Local Open Scope nat_scope.
Set Warnings "-register-all".

(** ** Floats *)

Definition float : Type := spec_float.
Definition prec : Z := 53.
Definition emax : Z := 1024.

Definition fadd : float -> float -> float := SFadd prec emax.
Definition fsub : float -> float -> float := SFsub prec emax.
Definition flt : float -> float -> bool := SFltb.
Definition fle : float -> float -> bool := SFleb.

Definition f0 : float := S754_zero false.
Definition f1 : float := S754_finite false 4503599627370496 (-52).
Definition f0_5 : float := S754_finite false 4503599627370496 (-53).
Definition f0_7 : float := S754_finite false 6305039478318694 (-53).
Definition f0_3 : float := S754_finite false 5404319552844595 (-54).
Definition f0_4 : float := S754_finite false 7205759403792794 (-54).
Definition f0_2 : float := S754_finite false 7205759403792794 (-55).

(** [min(a, b)] and [max(a, b)] of CPython keep the first argument unless the
    second compares strictly smaller (resp. greater). *)
Definition py_min (a b : float) : float := if flt b a then b else a.
Definition py_max (a b : float) : float := if flt a b then b else a.

(** [max(0.0, min(1.0, x))] *)
Definition clamp01 (x : float) : float := py_max f0 (py_min f1 x).

Definition in_unit (x : float) : bool := fle f0 x && fle x f1.

(** ** Exceptions and results *)

Inductive exn : Set :=
  | KeyError | TypeError | ValueError | AttributeError | OverflowError
  | RuntimeError.

(** [Untyped] ends a run of the model at the point where CPython would store a
    collaborator value in a field of another declared type (an integer used as
    a region id, say): CPython goes on, the typed model does not follow it. *)
Inductive result (A : Type) : Type :=
  | Ok (a : A)
  | Raise (e : exn)
  | Untyped.
Arguments Ok {A} a.
Arguments Raise {A} e.
Arguments Untyped {A}.

#[global] Instance result_ret : MRet result := fun A a => Ok a.
#[global] Instance result_bind : MBind result := fun A B f m =>
  match m with
  | Ok a => f a
  | Raise e => Raise e
  | Untyped => Untyped
  end.

(** [try: body / except Exception: handler] *)
Definition try_except {A} (body : result A) (handler : result A) : result A :=
  match body with
  | Raise _ => handler
  | r => r
  end.

Definition returns {A} (r : result A) : bool :=
  match r with Ok _ => true | _ => false end.

(** ** JSON values, as [json.loads] builds them *)

Inductive json : Type :=
  | JNull
  | JBool (b : bool)
  | JInt (z : Z)
  | JFloat (f : float)
  | JStr (s : string)
  | JList (items : list json)
  | JObj (fields : list (string * json)).

(** The items of a [dict] in insertion order; keys are distinct. *)
Fixpoint assoc {V} (k : string) (l : list (string * V)) : option V :=
  match l with
  | [] => None
  | (k', v) :: l' => if String.eqb k k' then Some v else assoc k l'
  end.

(** [bool(j)] *)
Definition truthy (j : json) : bool :=
  match j with
  | JNull => false
  | JBool b => b
  | JInt z => negb (z =? 0)%Z
  | JFloat (S754_zero _) => false
  | JFloat _ => true
  | JStr s => negb (String.eqb s "")
  | JList l => match l with [] => false | _ => true end
  | JObj l => match l with [] => false | _ => true end
  end.

(** [a or b] *)
Definition py_or (a b : json) : json := if truthy a then a else b.

(** [j.get(k, dflt)]: only a dict has [get]. *)
Definition py_get (j : json) (k : string) (dflt : json) : result json :=
  match j with
  | JObj l => Ok (default dflt (assoc k l))
  | _ => Raise AttributeError
  end.

(** [j[k]] for a string [k] *)
Definition py_getitem (j : json) (k : string) : result json :=
  match j with
  | JObj l => match assoc k l with Some v => Ok v | None => Raise KeyError end
  | _ => Raise TypeError
  end.

(** [j == s] for a string [s] *)
Definition eq_str (j : json) (s : string) : bool :=
  match j with JStr t => String.eqb t s | _ => false end.

(** [hash(j)] succeeds *)
Definition hashable (j : json) : bool :=
  match j with JList _ | JObj _ => false | _ => true end.

(** [for x in j]: the sequence a [for] loop walks through *)
Definition py_iter (j : json) : result (list json) :=
  match j with
  | JList l => Ok l
  | JObj l => Ok (map (fun kv => JStr (fst kv)) l)
  | JStr s => Ok (map (fun c => JStr (String c EmptyString)) (list_ascii_of_string s))
  | _ => Raise TypeError
  end.

Fixpoint is_prefix (p s : list ascii) : bool :=
  match p, s with
  | [], _ => true
  | _ :: _, [] => false
  | a :: p', b :: s' => Ascii.eqb a b && is_prefix p' s'
  end.

Fixpoint is_infix (p s : list ascii) : bool :=
  is_prefix p s || match s with [] => false | _ :: s' => is_infix p s' end.

(** [k in j] for a string [k]: key of a dict, item of a list, part of a str *)
Definition py_contains (k : string) (j : json) : result bool :=
  match j with
  | JObj l => Ok (bool_decide (is_Some (assoc k l)))
  | JList l => Ok (existsb (fun x => eq_str x k) l)
  | JStr s => Ok (is_infix (list_ascii_of_string k) (list_ascii_of_string s))
  | _ => Raise TypeError
  end.

(** *** [str.strip()] *)

Definition is_space (c : ascii) : bool :=
  let n := nat_of_ascii c in
  ((9 <=? n)%nat && (n <=? 13)%nat) || ((28 <=? n)%nat && (n <=? 32)%nat).

Fixpoint lstrip (s : list ascii) : list ascii :=
  match s with
  | c :: s' => if is_space c then lstrip s' else s
  | [] => []
  end.

Definition strip (s : string) : string :=
  string_of_list_ascii (rev (lstrip (rev (lstrip (list_ascii_of_string s))))).

(** *** [int(..)] *)

Definition digit_of (c : ascii) : option Z :=
  let n := nat_of_ascii c in
  if (48 <=? n)%nat && (n <=? 57)%nat then Some (Z.of_nat n - 48)%Z else None.

(** Decimal digits, single underscores allowed between two digits. *)
Fixpoint digits_value (acc : Z) (after_digit : bool) (s : list ascii) : option Z :=
  match s with
  | [] => if after_digit then Some acc else None
  | c :: s' =>
      match digit_of c with
      | Some d => digits_value (10 * acc + d)%Z true s'
      | None =>
          if Ascii.eqb c "_" && after_digit then digits_value acc false s' else None
      end
  end.

(** [sys.int_info.default_max_str_digits]: [int] refuses a longer literal. *)
Definition INT_MAX_STR_DIGITS : nat := 4300.

Definition digits_within_limit (s : list ascii) : option Z :=
  if (INT_MAX_STR_DIGITS
      <? length (List.filter (fun c => bool_decide (is_Some (digit_of c))) s))%nat
  then None
  else digits_value 0 false s.

Definition int_of_str (s : string) : option Z :=
  match list_ascii_of_string (strip s) with
  | "-"%char :: ds => Z.opp <$> digits_within_limit ds
  | "+"%char :: ds => digits_within_limit ds
  | ds => digits_within_limit ds
  end.

(** [int(x)] of a float truncates towards zero. *)
Definition int_of_float (f : float) : result Z :=
  match f with
  | S754_zero _ => Ok 0%Z
  | S754_infinity _ => Raise OverflowError
  | S754_nan => Raise ValueError
  | S754_finite s m e => Ok (cond_Zopp s (Z.shiftl (Zpos m) e))
  end.

Definition py_int (j : json) : result Z :=
  match j with
  | JInt z => Ok z
  | JBool b => Ok (if b then 1 else 0)%Z
  | JFloat f => int_of_float f
  | JStr s => match int_of_str s with Some z => Ok z | None => Raise ValueError end
  | _ => Raise TypeError
  end.

(** [float(z)] of an int rounds to nearest-even and refuses what overflows. *)
Definition float_of_int (z : Z) : result float :=
  match binary_normalize prec emax z 0 false with
  | S754_infinity _ => Raise OverflowError
  | f => Ok f
  end.

(** ** The data model ([world/models.py]) *)

Module Region.
Record t : Type := mk {
  id : string;
  name : json;
  description : json;
  biome : json;
  type : json;
  neighbors : json;
  known_to_player : bool;
  exits : list (string * json);
  local_quest_ids : json;
  exit_flavor : json }.
End Region.

Module Character.
Record t : Type := mk {
  id : string;
  name : json;
  role : json;
  location_region_id : json;
  mood : json;
  loyalty : float;
  traits : json;
  memories : json }.

Definition set_mood (v : json) (c : t) : t :=
  mk (id c) (name c) (role c) (location_region_id c) v (loyalty c)
     (traits c) (memories c).
Definition set_loyalty (v : float) (c : t) : t :=
  mk (id c) (name c) (role c) (location_region_id c) (mood c) v
     (traits c) (memories c).
End Character.

Module PlayerState.
Record t : Type := mk {
  user_id : string;
  character_id : string;
  name : string;
  char_class : string;
  location_region_id : string;
  stats : gmap string float;
  reputation : gmap string float;
  goals : list string;
  inventory : list string }.

(** The [default_factory] of [stats] *)
Definition default_stats : gmap string float :=
  <["courage" := f0_5]> (<["empathy" := f0_5]> (<["cunning" := f0_5]> ∅)).

(** [PlayerState(user_id=.., character_id=.., name=.., char_class=..,
    location_region_id=..)] *)
Definition new (uid cid nm cls loc : string) : t :=
  mk uid cid nm cls loc default_stats ∅ [] [].

Definition set_location (v : string) (p : t) : t :=
  mk (user_id p) (character_id p) (name p) (char_class p) v (stats p)
     (reputation p) (goals p) (inventory p).
Definition set_stats (v : gmap string float) (p : t) : t :=
  mk (user_id p) (character_id p) (name p) (char_class p)
     (location_region_id p) v (reputation p) (goals p) (inventory p).
End PlayerState.

Module WorldMetrics.
Record t : Type := mk {
  world_health : float;
  chaos_level : float;
  magic_level : float;
  alliance_tension : float }.

(** [WorldMetrics()] *)
Definition new : t := mk f0_7 f0_3 f0_4 f0_2.

Definition in_range (m : t) : Prop :=
  in_unit (world_health m) = true /\ in_unit (chaos_level m) = true /\
  in_unit (magic_level m) = true /\ in_unit (alliance_tension m) = true.
End WorldMetrics.

Module Quest.
Record t : Type := mk {
  id : string;
  title : json;
  status : json;
  summary : json;
  related_regions : json;
  related_characters : json;
  answer_type : string;
  correct_answers : list string;
  keywords : list string }.

(** [Quest(id=.., title=.., status=.., summary=.., related_regions=..,
    related_characters=..)], the other fields at their defaults *)
Definition new (qid : string) (ti st su rr rc : json) : t :=
  mk qid ti st su rr rc "none" [] [].
End Quest.

Module Event.
Record t : Type := mk {
  id : json;
  type : json;
  description : json;
  tick : Z;
  affected_regions : json;
  impact : json }.
End Event.

Module Action.
(** Built by [_parse_actions] from the interpreter's reply without any
    check, so every field is whatever JSON the reply carried. *)
Record t : Type := mk {
  type : json;
  target_region_id : json;
  target_character_id : json;
  params : json }.

(** [Action(type="WAIT")] *)
Definition wait : t := mk (JStr "WAIT") JNull JNull (JObj []).
End Action.

Module StoryEntry.
(** One entry of [story_log]: [{tick, user_id, message, text, timestamp}] *)
Record t : Type := mk {
  tick : Z;
  user_id : string;
  message : string;
  text : json;
  timestamp : float }.
End StoryEntry.

Module WorldState.
Record t : Type := mk {
  world_id : string;
  seed_prompt : string;
  tick : Z;
  regions : list (string * Region.t);
  characters : gmap string Character.t;
  players : list (string * PlayerState.t);
  quests : gmap string Quest.t;
  metrics : WorldMetrics.t;
  history_summaries : list json;
  last_events : list Event.t;
  active_players : gmap string json;
  last_scene_text : option json;
  world_size : json;
  chat_log : list string;
  story_log : list StoryEntry.t;
  is_open : bool }.

Definition set_tick (v : Z) (w : t) : t :=
  mk (world_id w) (seed_prompt w) v (regions w) (characters w) (players w)
     (quests w) (metrics w) (history_summaries w) (last_events w)
     (active_players w) (last_scene_text w) (world_size w) (chat_log w)
     (story_log w) (is_open w).
Definition set_characters (v : gmap string Character.t) (w : t) : t :=
  mk (world_id w) (seed_prompt w) (tick w) (regions w) v (players w)
     (quests w) (metrics w) (history_summaries w) (last_events w)
     (active_players w) (last_scene_text w) (world_size w) (chat_log w)
     (story_log w) (is_open w).
Definition set_players (v : list (string * PlayerState.t)) (w : t) : t :=
  mk (world_id w) (seed_prompt w) (tick w) (regions w) (characters w) v
     (quests w) (metrics w) (history_summaries w) (last_events w)
     (active_players w) (last_scene_text w) (world_size w) (chat_log w)
     (story_log w) (is_open w).
Definition set_quests (v : gmap string Quest.t) (w : t) : t :=
  mk (world_id w) (seed_prompt w) (tick w) (regions w) (characters w)
     (players w) v (metrics w) (history_summaries w) (last_events w)
     (active_players w) (last_scene_text w) (world_size w) (chat_log w)
     (story_log w) (is_open w).
Definition set_metrics (v : WorldMetrics.t) (w : t) : t :=
  mk (world_id w) (seed_prompt w) (tick w) (regions w) (characters w)
     (players w) (quests w) v (history_summaries w) (last_events w)
     (active_players w) (last_scene_text w) (world_size w) (chat_log w)
     (story_log w) (is_open w).
Definition set_history_summaries (v : list json) (w : t) : t :=
  mk (world_id w) (seed_prompt w) (tick w) (regions w) (characters w)
     (players w) (quests w) (metrics w) v (last_events w)
     (active_players w) (last_scene_text w) (world_size w) (chat_log w)
     (story_log w) (is_open w).
Definition set_last_events (v : list Event.t) (w : t) : t :=
  mk (world_id w) (seed_prompt w) (tick w) (regions w) (characters w)
     (players w) (quests w) (metrics w) (history_summaries w) v
     (active_players w) (last_scene_text w) (world_size w) (chat_log w)
     (story_log w) (is_open w).
Definition set_active_players (v : gmap string json) (w : t) : t :=
  mk (world_id w) (seed_prompt w) (tick w) (regions w) (characters w)
     (players w) (quests w) (metrics w) (history_summaries w) (last_events w)
     v (last_scene_text w) (world_size w) (chat_log w)
     (story_log w) (is_open w).
Definition set_last_scene_text (v : option json) (w : t) : t :=
  mk (world_id w) (seed_prompt w) (tick w) (regions w) (characters w)
     (players w) (quests w) (metrics w) (history_summaries w) (last_events w)
     (active_players w) v (world_size w) (chat_log w)
     (story_log w) (is_open w).
Definition set_chat_log (v : list string) (w : t) : t :=
  mk (world_id w) (seed_prompt w) (tick w) (regions w) (characters w)
     (players w) (quests w) (metrics w) (history_summaries w) (last_events w)
     (active_players w) (last_scene_text w) (world_size w) v
     (story_log w) (is_open w).
Definition set_story_log (v : list StoryEntry.t) (w : t) : t :=
  mk (world_id w) (seed_prompt w) (tick w) (regions w) (characters w)
     (players w) (quests w) (metrics w) (history_summaries w) (last_events w)
     (active_players w) (last_scene_text w) (world_size w) (chat_log w)
     v (is_open w).
Definition set_is_open (v : bool) (w : t) : t :=
  mk (world_id w) (seed_prompt w) (tick w) (regions w) (characters w)
     (players w) (quests w) (metrics w) (history_summaries w) (last_events w)
     (active_players w) (last_scene_text w) (world_size w) (chat_log w)
     (story_log w) v.
End WorldState.

(** [config.SESSION_TIMEOUT_SECONDS = 600], as the float it is compared with *)
Definition SESSION_TIMEOUT_SECONDS : float :=
  S754_finite false 5277655813324800 (-43).

(** The caps of the three logs *)
Definition HISTORY_CAP : nat := 50.
Definition CHAT_CAP : nat := 200.
Definition STORY_CAP : nat := 100.

(** [l.append(x); if len(l) > cap: l = l[-cap:]] *)
Definition last_n {A} (n : nat) (l : list A) : list A := drop (length l - n) l.

Definition append_capped {A} (cap : nat) (l : list A) (x : A) : list A :=
  let l' := l ++ [x] in
  if (cap <? length l')%nat then last_n cap l' else l'.

(** The world store ([services/storage.py]): one snapshot per world id.
    [load_world] is the lookup, [None] when there is no file for the id;
    [save_world] writes under the snapshot's own [world_id]. *)
Abbreviation store := (gmap string WorldState.t).

Definition load_world (world_id : string) (st : store) : option WorldState.t :=
  st !! world_id.

Definition save_world (ws : WorldState.t) (st : store) : store :=
  <[WorldState.world_id ws := ws]> st.

(** The replies of the generative agents during one turn. *)
Record Collaborators : Type := {
  architect_reply : json;
  interpreter_reply : json;
  dialogue_reply : nat -> json;
  event_reply : json;
  quest_reply : json;
  story_reply : json }.

(** The state of the loop over the actions in [_update_world] *)
Record resolver : Type := {
  r_world : WorldState.t;
  r_num_ticks : Z;
  r_snippets : list string;
  (** how many times the dialogue agent was called so far *)
  r_calls : nat }.

Definition with_world (ws : WorldState.t) (st : resolver) : resolver :=
  {| r_world := ws; r_num_ticks := r_num_ticks st;
     r_snippets := r_snippets st; r_calls := r_calls st |}.

(** ** Small helpers for loops and text *)

Fixpoint foldM {A B} (f : A -> B -> result A) (a : A) (l : list B) : result A :=
  match l with
  | [] => Ok a
  | b :: l' => a' ← f a b; foldM f a' l'
  end.

Fixpoint mapM {A B} (f : A -> result B) (l : list A) : result (list B) :=
  match l with
  | [] => Ok []
  | a :: l' => b ← f a; bs ← mapM f l'; Ok (b :: bs)
  end.

Definition nl : string := String (ascii_of_nat 10) EmptyString.

(** [sep.join(l)] *)
Fixpoint join (sep : string) (l : list string) : string :=
  match l with
  | [] => ""
  | [s] => s
  | s :: l' => s +:+ sep +:+ join sep l'
  end.

(** [sep.join(l)] raises when an item is not a [str]; only that matters for
    text that is handed to a collaborator. *)
Definition is_str (j : json) : bool :=
  match j with JStr _ => true | _ => false end.

Definition join_check (l : list json) : result unit :=
  if forallb is_str l then Ok tt else Raise TypeError.

(** [a or b] on optional strings *)
Definition str_or (a : option string) (b : string) : string :=
  match a with
  | Some s => if String.eqb s "" then b else s
  | None => b
  end.

(** A value used as the key of a [Dict[str, _]]: a [str] is the key, an
    unhashable value raises, any other scalar is outside the declared type. *)
Definition as_key (j : json) : result string :=
  match j with
  | JStr s => Ok s
  | JList _ | JObj _ => Raise TypeError
  | _ => Untyped
  end.

(** [k in d] for a [Dict[str, _]] whose membership test is [mem] *)
Definition key_in (k : json) (mem : string -> bool) : result bool :=
  match k with
  | JStr s => Ok (mem s)
  | JList _ | JObj _ => Raise TypeError
  | _ => Ok false
  end.

(** [d[k] = v] on an insertion-ordered dict *)
Fixpoint alist_set {V} (k : string) (v : V) (l : list (string * V)) : list (string * V) :=
  match l with
  | [] => [(k, v)]
  | (k', v') :: l' =>
      if String.eqb k k' then (k, v) :: l' else (k', v') :: alist_set k v l'
  end.

Definition has_key {V} (l : list (string * V)) (k : string) : bool :=
  bool_decide (is_Some (assoc k l)).

(** ** Snapshots as JSON ([world/serializers.py])

    [json.dump] and [json.load] move these values to and from text; that
    layer is not modelled. *)

(** *** [world_state_to_dict]: [dataclasses.asdict] *)

Definition strs_to_json (l : list string) : json := JList (map JStr l).

Definition floats_to_json (m : gmap string float) : json :=
  JObj (map (fun kv => (kv.1, JFloat kv.2)) (map_to_list m)).

Definition region_to_dict (r : Region.t) : json :=
  JObj [("id", JStr (Region.id r));
        ("name", Region.name r);
        ("description", Region.description r);
        ("biome", Region.biome r);
        ("type", Region.type r);
        ("neighbors", Region.neighbors r);
        ("known_to_player", JBool (Region.known_to_player r));
        ("exits", JObj (Region.exits r));
        ("local_quest_ids", Region.local_quest_ids r);
        ("exit_flavor", Region.exit_flavor r)].

Definition character_to_dict (c : Character.t) : json :=
  JObj [("id", JStr (Character.id c));
        ("name", Character.name c);
        ("role", Character.role c);
        ("location_region_id", Character.location_region_id c);
        ("mood", Character.mood c);
        ("loyalty", JFloat (Character.loyalty c));
        ("traits", Character.traits c);
        ("memories", Character.memories c)].

Definition player_to_dict (p : PlayerState.t) : json :=
  JObj [("user_id", JStr (PlayerState.user_id p));
        ("character_id", JStr (PlayerState.character_id p));
        ("name", JStr (PlayerState.name p));
        ("char_class", JStr (PlayerState.char_class p));
        ("location_region_id", JStr (PlayerState.location_region_id p));
        ("stats", floats_to_json (PlayerState.stats p));
        ("reputation", floats_to_json (PlayerState.reputation p));
        ("goals", strs_to_json (PlayerState.goals p));
        ("inventory", strs_to_json (PlayerState.inventory p))].

Definition quest_to_dict (q : Quest.t) : json :=
  JObj [("id", JStr (Quest.id q));
        ("title", Quest.title q);
        ("status", Quest.status q);
        ("summary", Quest.summary q);
        ("related_regions", Quest.related_regions q);
        ("related_characters", Quest.related_characters q);
        ("answer_type", JStr (Quest.answer_type q));
        ("correct_answers", strs_to_json (Quest.correct_answers q));
        ("keywords", strs_to_json (Quest.keywords q))].

Definition metrics_to_dict (m : WorldMetrics.t) : json :=
  JObj [("world_health", JFloat (WorldMetrics.world_health m));
        ("chaos_level", JFloat (WorldMetrics.chaos_level m));
        ("magic_level", JFloat (WorldMetrics.magic_level m));
        ("alliance_tension", JFloat (WorldMetrics.alliance_tension m))].

Definition event_to_dict (e : Event.t) : json :=
  JObj [("id", Event.id e);
        ("type", Event.type e);
        ("description", Event.description e);
        ("tick", JInt (Event.tick e));
        ("affected_regions", Event.affected_regions e);
        ("impact", Event.impact e)].

Definition story_entry_to_dict (e : StoryEntry.t) : json :=
  JObj [("tick", JInt (StoryEntry.tick e));
        ("user_id", JStr (StoryEntry.user_id e));
        ("message", JStr (StoryEntry.message e));
        ("text", StoryEntry.text e);
        ("timestamp", JFloat (StoryEntry.timestamp e))].

Definition items_to_json {V} (f : V -> json) (l : list (string * V)) : json :=
  JObj (map (fun kv => (kv.1, f kv.2)) l).

Definition world_state_to_dict (ws : WorldState.t) : json :=
  JObj [("world_id", JStr (WorldState.world_id ws));
        ("seed_prompt", JStr (WorldState.seed_prompt ws));
        ("tick", JInt (WorldState.tick ws));
        ("regions", items_to_json region_to_dict (WorldState.regions ws));
        ("characters",
         items_to_json character_to_dict (map_to_list (WorldState.characters ws)));
        ("players", items_to_json player_to_dict (WorldState.players ws));
        ("quests", items_to_json quest_to_dict (map_to_list (WorldState.quests ws)));
        ("metrics", metrics_to_dict (WorldState.metrics ws));
        ("history_summaries", JList (WorldState.history_summaries ws));
        ("last_events", JList (map event_to_dict (WorldState.last_events ws)));
        ("active_players", JObj (map_to_list (WorldState.active_players ws)));
        ("last_scene_text", default JNull (WorldState.last_scene_text ws));
        ("world_size", WorldState.world_size ws);
        ("chat_log", strs_to_json (WorldState.chat_log ws));
        ("story_log", JList (map story_entry_to_dict (WorldState.story_log ws)));
        ("is_open", JBool (WorldState.is_open ws))].

(** *** [world_state_from_dict] *)

(** [Cls( ** j)] binds the items of the mapping [j] to the fields of a
    dataclass: [j] must be a mapping, every key a field, and every field
    without a default among the keys. *)
Definition kwargs (fields required : list string) (j : json)
  : result (list (string * json)) :=
  match j with
  | JObj l =>
      if forallb (fun kv => existsb (String.eqb kv.1) fields) l
         && forallb (has_key l) required
      then Ok l
      else Raise TypeError
  | _ => Raise TypeError
  end.

(** The value bound to a field, or the field's default *)
Definition field (l : list (string * json)) (k : string) (dflt : json) : json :=
  default dflt (assoc k l).

(** A value read into a field of a declared type: a value of another type is
    outside the typed model. *)
Definition as_str (j : json) : result string :=
  match j with JStr s => Ok s | _ => Untyped end.
Definition as_bool (j : json) : result bool :=
  match j with JBool b => Ok b | _ => Untyped end.
Definition as_int (j : json) : result Z :=
  match j with JInt z => Ok z | _ => Untyped end.
Definition as_float (j : json) : result float :=
  match j with JFloat f => Ok f | _ => Untyped end.
Definition as_list (j : json) : result (list json) :=
  match j with JList l => Ok l | _ => Untyped end.
Definition as_obj (j : json) : result (list (string * json)) :=
  match j with JObj l => Ok l | _ => Untyped end.
Definition as_strs (j : json) : result (list string) :=
  l ← as_list j; mapM as_str l.
Definition as_floats (j : json) : result (gmap string float) :=
  l ← as_obj j;
  foldM (fun acc kv => f ← as_float kv.2; Ok (<[kv.1 := f]> acc)) ∅ l.

Definition region_from_dict (j : json) : result Region.t :=
  l ← kwargs ["id"; "name"; "description"; "biome"; "type"; "neighbors";
              "known_to_player"; "exits"; "local_quest_ids"; "exit_flavor"]
             ["id"; "name"; "description"] j;
  id ← as_str (field l "id" JNull);
  known_to_player ← as_bool (field l "known_to_player" (JBool true));
  exits ← as_obj (field l "exits" (JObj []));
  Ok (Region.mk id (field l "name" JNull) (field l "description" JNull)
        (field l "biome" (JStr "plains")) (field l "type" (JStr "unknown"))
        (field l "neighbors" (JList [])) known_to_player exits
        (field l "local_quest_ids" (JList [])) (field l "exit_flavor" (JObj []))).

Definition character_from_dict (j : json) : result Character.t :=
  l ← kwargs ["id"; "name"; "role"; "location_region_id"; "mood"; "loyalty";
              "traits"; "memories"]
             ["id"; "name"; "role"; "location_region_id"] j;
  id ← as_str (field l "id" JNull);
  loyalty ← as_float (field l "loyalty" (JFloat f0_5));
  Ok (Character.mk id (field l "name" JNull) (field l "role" JNull)
        (field l "location_region_id" JNull) (field l "mood" (JStr "neutral"))
        loyalty (field l "traits" (JList [])) (field l "memories" (JList []))).

Definition player_from_dict (j : json) : result PlayerState.t :=
  l ← kwargs ["user_id"; "character_id"; "name"; "char_class";
              "location_region_id"; "stats"; "reputation"; "goals"; "inventory"]
             ["user_id"; "character_id"; "name"; "char_class";
              "location_region_id"] j;
  user_id ← as_str (field l "user_id" JNull);
  character_id ← as_str (field l "character_id" JNull);
  name ← as_str (field l "name" JNull);
  char_class ← as_str (field l "char_class" JNull);
  location_region_id ← as_str (field l "location_region_id" JNull);
  stats ← match assoc "stats" l with
          | Some j => as_floats j
          | None => Ok PlayerState.default_stats
          end;
  reputation ← as_floats (field l "reputation" (JObj []));
  goals ← as_strs (field l "goals" (JList []));
  inventory ← as_strs (field l "inventory" (JList []));
  Ok (PlayerState.mk user_id character_id name char_class location_region_id
        stats reputation goals inventory).

Definition quest_from_dict (j : json) : result Quest.t :=
  l ← kwargs ["id"; "title"; "status"; "summary"; "related_regions";
              "related_characters"; "answer_type"; "correct_answers"; "keywords"]
             ["id"; "title"; "status"; "summary"] j;
  id ← as_str (field l "id" JNull);
  answer_type ← as_str (field l "answer_type" (JStr "none"));
  correct_answers ← as_strs (field l "correct_answers" (JList []));
  keywords ← as_strs (field l "keywords" (JList []));
  Ok (Quest.mk id (field l "title" JNull) (field l "status" JNull)
        (field l "summary" JNull) (field l "related_regions" (JList []))
        (field l "related_characters" (JList [])) answer_type correct_answers
        keywords).

Definition metrics_from_dict (j : json) : result WorldMetrics.t :=
  l ← kwargs ["world_health"; "chaos_level"; "magic_level"; "alliance_tension"]
             [] j;
  world_health ← as_float (field l "world_health" (JFloat f0_7));
  chaos_level ← as_float (field l "chaos_level" (JFloat f0_3));
  magic_level ← as_float (field l "magic_level" (JFloat f0_4));
  alliance_tension ← as_float (field l "alliance_tension" (JFloat f0_2));
  Ok (WorldMetrics.mk world_health chaos_level magic_level alliance_tension).

Definition event_from_dict (j : json) : result Event.t :=
  l ← kwargs ["id"; "type"; "description"; "tick"; "affected_regions"; "impact"]
             ["id"; "type"; "description"; "tick"] j;
  tick ← as_int (field l "tick" JNull);
  Ok (Event.mk (field l "id" JNull) (field l "type" JNull)
        (field l "description" JNull) tick
        (field l "affected_regions" (JList [])) (field l "impact" (JObj []))).

(** An entry of [story_log] is kept as the dict it is; the typed model
    follows the entries that [handle_turn] writes. *)
Definition story_entry_from_dict (j : json) : result StoryEntry.t :=
  match j with
  | JObj [("tick", JInt tick); ("user_id", JStr user_id); ("message", JStr message);
          ("text", text); ("timestamp", JFloat timestamp)] =>
      Ok (StoryEntry.mk tick user_id message text timestamp)
  | _ => Untyped
  end.

(** An [Optional] field: [None] is the absent value. *)
Definition optional (j : json) : option json :=
  match j with JNull => None | _ => Some j end.

(** [data.get(k, {}).items()] *)
Definition get_items (l : list (string * json)) (k : string)
  : result (list (string * json)) :=
  match field l k (JObj []) with
  | JObj items => Ok items
  | _ => Raise AttributeError
  end.

(** [{k: Cls( ** v) for k, v in items}] as an insertion-ordered dict *)
Definition alist_from_items {V} (f : json -> result V) (items : list (string * json))
  : result (list (string * V)) :=
  foldM (fun acc kv => v ← f kv.2; Ok (alist_set kv.1 v acc)) [] items.

(** The same comprehension for a dict whose order is not observed *)
Definition gmap_from_items {V} (f : json -> result V) (items : list (string * json))
  : result (gmap string V) :=
  foldM (fun acc kv => v ← f kv.2; Ok (<[kv.1 := v]> acc)) ∅ items.

Definition world_state_from_dict (data : json) : result WorldState.t :=
  l ← match data with JObj l => Ok l | _ => Raise AttributeError end;
  region_items ← get_items l "regions";
  regions ← alist_from_items region_from_dict region_items;
  character_items ← get_items l "characters";
  characters ← gmap_from_items character_from_dict character_items;
  player_items ← get_items l "players";
  players ← alist_from_items player_from_dict player_items;
  quest_items ← get_items l "quests";
  quests ← gmap_from_items quest_from_dict quest_items;
  metrics ← metrics_from_dict (field l "metrics" (JObj []));
  events ← py_iter (field l "last_events" (JList []));
  last_events ← mapM event_from_dict events;
  let last_scene_text := optional (field l "last_scene_text" JNull) in
  let world_size := field l "world_size" (JStr "medium") in
  w ← match assoc "world_id" l with Some j => Ok j | None => Raise KeyError end;
  world_id ← as_str w;
  seed_prompt ← as_str (field l "seed_prompt" (JStr "A mysterious world."));
  chat_log ← as_strs (field l "chat_log" (JList []));
  story_entries ← as_list (field l "story_log" (JList []));
  story_log ← mapM story_entry_from_dict story_entries;
  is_open ← as_bool (field l "is_open" (JBool true));
  tick ← as_int (field l "tick" (JInt 0));
  history_summaries ← as_list (field l "history_summaries" (JList []));
  active_players ← as_obj (field l "active_players" (JObj []));
  Ok (WorldState.mk world_id seed_prompt tick regions characters players quests
        metrics history_summaries last_events
        (foldl (fun m kv => <[kv.1 := kv.2]> m) ∅ active_players)
        last_scene_text world_size chat_log story_log is_open).

(** ** Cleaning an agent's reply ([_call_agent_json])

    What the code does to the text of a reply before it parses it. *)

(** [s.startswith(p)] *)
Definition startswith (p s : string) : bool :=
  is_prefix (list_ascii_of_string p) (list_ascii_of_string s).

(** [s.strip(c)] for a single character [c] *)
Fixpoint lstrip_char (c : ascii) (s : list ascii) : list ascii :=
  match s with
  | d :: s' => if Ascii.eqb d c then lstrip_char c s' else s
  | [] => []
  end.

Definition strip_char (c : ascii) (s : string) : string :=
  string_of_list_ascii
    (rev (lstrip_char c (rev (lstrip_char c (list_ascii_of_string s))))).

(** [s.lower()] *)
Definition lower_char (c : ascii) : ascii :=
  let n := nat_of_ascii c in
  if (65 <=? n)%nat && (n <=? 90)%nat then ascii_of_nat (n + 32) else c.

Definition lower (s : string) : string :=
  string_of_list_ascii (map lower_char (list_ascii_of_string s)).

(** [s[n:]] *)
Definition drop_chars (n : nat) (s : string) : string :=
  string_of_list_ascii (drop n (list_ascii_of_string s)).

Definition clean_reply (out_text : string) : string :=
  let out_text := strip out_text in
  if startswith "```" out_text then
    let out_text := strip_char "`" out_text in
    if startswith "json" (lower out_text)
    then strip (drop_chars 4 out_text)
    else out_text
  else out_text.

(** [json.loads] is a parameter, [None] when it raises; a reply that does
    not parse counts as the empty object. *)
Definition reply_of_text (loads : string -> option json) (out_text : string) : json :=
  match loads (clean_reply out_text) with
  | Some j => j
  | None => JObj []
  end.

(** ** Stand-ins for running the model

    The orchestrator below is parametric in four functions that are not its
    own.  Every statement is proved for all of them; the concrete runs that
    follow the statements use these stand-ins. *)

(** [float(s)] for decimal integer literals; any other string is refused. *)
Definition sample_float_of_str (s : string) : option float :=
  match list_ascii_of_string (strip s) with
  | "-"%char :: ds =>
      (fun z => binary_normalize prec emax (- z) 0 true) <$> digits_value 0 false ds
  | "+"%char :: ds =>
      (fun z => binary_normalize prec emax z 0 false) <$> digits_value 0 false ds
  | ds => (fun z => binary_normalize prec emax z 0 false) <$> digits_value 0 false ds
  end.

(** [str(j)] for [None], booleans, ints and strings; an ellipsis for floats
    and containers. *)
Definition sample_py_str (j : json) : string :=
  match j with
  | JNull => "None"
  | JBool true => "True"
  | JBool false => "False"
  | JInt z => pretty z
  | JStr s => s
  | _ => "..."
  end.

(** A renderer that draws nothing *)
Definition sample_render_turn (ws : WorldState.t) (last_action_type : json)
    (special_event : option json) : result string := Ok "".

(** A story that is the narration alone *)
Definition sample_compose_story (narration suggested_actions : json)
    (extra_notes : string) (history : list json) : result json := Ok narration.

(** Every agent answers with the empty object, which is also what a failed
    call counts as. *)
Definition quiet : Collaborators :=
  {| architect_reply := JObj []; interpreter_reply := JObj [];
     dialogue_reply := fun _ => JObj []; event_reply := JObj [];
     quest_reply := JObj []; story_reply := JObj [] |}.

Definition demo_player (user_id : string) : PlayerState.t :=
  PlayerState.new user_id (user_id +:+ "_char") user_id "wanderer" "glass_whale_bay".

Definition demo_region : Region.t :=
  Region.mk "glass_whale_bay" (JStr "Glass Whale Bay")
    (JStr "A floating city built on the back of a shimmering glass whale.")
    (JStr "plains") (JStr "bay") (JList []) true [] (JList []) (JObj []).

Definition demo_keeper : Character.t :=
  Character.mk "keeper" (JStr "The Keeper") (JStr "npc") (JStr "glass_whale_bay")
    (JStr "neutral") f0_5 (JList []) (JList []).

Definition demo_quest (qid status : string) : Quest.t :=
  Quest.new qid (JStr qid) (JStr status) (JStr "") (JList []) (JList []).

(** A world with two players, of whom only "ana" is present, one NPC and the
    quests [main_1] (completed) and [side_1] (open) *)
Definition demo_world : WorldState.t :=
  WorldState.mk "w1" "A mysterious world." 0
    [("glass_whale_bay", demo_region)]
    (<["keeper" := demo_keeper]> ∅)
    [("ana", demo_player "ana"); ("bob", demo_player "bob")]
    (<["main_1" := demo_quest "main_1" "completed"]>
       (<["side_1" := demo_quest "side_1" "open"]> ∅))
    WorldMetrics.new [] []
    (<["ana" := JFloat (S754_finite false 5277655813324800 (-43))]> ∅)
    None (JStr "medium") [] [] true.

Definition demo_clock (k : nat) : float := S754_finite false 5277655813324800 (-43).

(** Actions and replies for the runs *)
Definition fast_forward_5 : Action.t :=
  Action.mk (JStr "FAST_FORWARD") JNull JNull (JObj [("days", JStr "5")]).

Definition talk_to_bob : Action.t :=
  Action.mk (JStr "TALK") JNull (JStr "bob") (JObj [("utterance", JStr "hello")]).

Definition with_event_reply (j : json) : Collaborators :=
  {| architect_reply := JObj []; interpreter_reply := JObj [];
     dialogue_reply := fun _ => JObj []; event_reply := j;
     quest_reply := JObj []; story_reply := JObj [] |}.

Definition with_quest_reply (j : json) : Collaborators :=
  {| architect_reply := JObj []; interpreter_reply := JObj [];
     dialogue_reply := fun _ => JObj []; event_reply := JObj [];
     quest_reply := j; story_reply := JObj [] |}.

Definition with_architect_reply (j : json) : Collaborators :=
  {| architect_reply := j; interpreter_reply := JObj [];
     dialogue_reply := fun _ => JObj []; event_reply := JObj [];
     quest_reply := JObj []; story_reply := JObj [] |}.

(** Deltas of every sign and size: minus infinity, a large int, NaN *)
Definition stormy_fields : list (string * json) :=
  [("world_health", JFloat (S754_infinity true));
   ("chaos_level", JInt 1000000);
   ("magic_level", JFloat S754_nan)].

Definition stormy : Collaborators :=
  with_event_reply (JObj [("metrics_delta", JObj stormy_fields)]).

(** [{"metrics_delta": {"world_health": "lots"}}] *)
Definition moody : Collaborators :=
  with_event_reply (JObj [("metrics_delta", JObj [("world_health", JStr "lots")])]).

(** [{"player_stats_delta": {"courage": "lots"}}] *)
Definition fickle : Collaborators :=
  with_event_reply (JObj [("player_stats_delta", JObj [("courage", JStr "lots")])]).

(** [{"quests": [{"id": "main_2", "title": "The Second Bell"}]}] *)
Definition planner : Collaborators :=
  with_quest_reply
    (JObj [("quests", JList [JObj [("id", JStr "main_2");
                                   ("title", JStr "The Second Bell")]])]).

(** [{"quests": [{"title": "The Lost Bell"}]}]: a quest without an id *)
Definition careless : Collaborators :=
  with_quest_reply (JObj [("quests", JList [JObj [("title", JStr "The Lost Bell")]])]).

(** An architect that seeds 51 history notes *)
Definition verbose : Collaborators :=
  with_architect_reply (JObj [("history_notes", JList (replicate 51 (JStr "long ago")))]).

Definition demo_store : store := <["w1" := demo_world]> ∅.

Definition demo_resolver : resolver :=
  {| r_world := demo_world; r_num_ticks := 1; r_snippets := []; r_calls := 0 |}.

(** More actions, replies and snapshots for the runs *)
Definition walk_to (region_id : string) : Action.t :=
  Action.mk (JStr "MOVE") (JStr region_id) JNull (JObj []).

Definition talk_to (character_id : string) : Action.t :=
  Action.mk (JStr "TALK") JNull (JStr character_id) (JObj []).

Definition demo_gate : Region.t :=
  Region.mk "moon_gate" (JStr "Moon Gate") (JStr "An arch of pale stone.")
    (JStr "plains") (JStr "gate") (JList []) true [] (JList []) (JObj []).

(** [demo_world] with a second region *)
Definition wide_world : WorldState.t :=
  WorldState.mk "w1" "A mysterious world." 0
    [("glass_whale_bay", demo_region); ("moon_gate", demo_gate)]
    (<["keeper" := demo_keeper]> ∅)
    [("ana", demo_player "ana"); ("bob", demo_player "bob")]
    ∅ WorldMetrics.new [] []
    (<["ana" := JFloat (S754_finite false 5277655813324800 (-43))]> ∅)
    None (JStr "medium") [] [] true.

Definition wide_resolver : resolver :=
  {| r_world := wide_world; r_num_ticks := 1; r_snippets := []; r_calls := 0 |}.

(** A dialogue agent whose every reply cheers the NPC up and emboldens the
    player *)
Definition chatty : Collaborators :=
  {| architect_reply := JObj []; interpreter_reply := JObj [];
     dialogue_reply := fun _ =>
       JObj [("dialogue", JStr "Well met.");
             ("world_effects",
              JObj [("npc_mood", JStr "happy");
                    ("npc_loyalty_delta", JFloat f0_7);
                    ("player_stats_delta", JObj [("courage", JInt 1)])])];
     event_reply := JObj []; quest_reply := JObj []; story_reply := JObj [] |}.

(** An event engine that reports a hatching dragon and a quiet day *)
Definition eventful : Collaborators :=
  with_event_reply
    (JObj [("events",
            JList [JObj [("id", JStr "e1"); ("type", JStr "dragon_hatching")];
                   JObj [("id", JStr "e2")]])]).

(** An interpreter that reads a walk and a chat into the command *)
Definition busy : Collaborators :=
  {| architect_reply := JObj [];
     interpreter_reply :=
       JObj [("actions",
              JList [JObj [("type", JStr "MOVE");
                           ("target_region_id", JStr "glass_whale_bay")];
                     JObj [("type", JStr "TALK");
                           ("target_character_id", JStr "keeper")]])];
     dialogue_reply := fun _ => JObj []; event_reply := JObj [];
     quest_reply := JObj []; story_reply := JObj [] |}.

(** ** The orchestrator ([agents/orchestrator.py]) *)

Section Orchestrator.

Set Default Proof Using "Type".

(** [float(s)] on a [str], [None] for [ValueError] *)
Variable float_of_str : string -> option float.
(** [str(j)], what an f-string interpolates *)
Variable py_str : json -> string.
(** [visual_renderer.render_turn] *)
Variable render_turn : WorldState.t -> json -> option json -> result string.
(** The text assembly of [handle_turn] from the narration, the suggested
    actions, the extra notes and the command history *)
Variable compose_story : json -> json -> string -> list json -> result json.

(** [float(j)] *)
Definition py_float (j : json) : result float :=
  match j with
  | JFloat f => Ok f
  | JInt z => float_of_int z
  | JBool b => Ok (if b then f1 else f0)
  | JStr s =>
      match float_of_str s with Some f => Ok f | None => Raise ValueError end
  | _ => Raise TypeError
  end.

(** [(j or {}).items()] *)
Definition items_or_empty (j : json) : result (list (string * json)) :=
  match py_or j (JObj []) with
  | JObj l => Ok l
  | _ => Raise AttributeError
  end.

(** One round of the loop of [_apply_stat_changes] *)
Definition stat_change (stats : gmap string float) (nd : string * json)
  : result (gmap string float) :=
  let old := default f0_5 (stats !! nd.1) in
  new ← try_except (d ← py_float nd.2; Ok (clamp01 (fadd old d))) (Ok old);
  Ok (<[nd.1 := new]> stats).

Definition _apply_stat_changes (player : PlayerState.t) (deltas : json)
  : result PlayerState.t :=
  l ← items_or_empty deltas;
  stats ← foldM stat_change (PlayerState.stats player) l;
  Ok (PlayerState.set_stats stats player).

(** [_summarize_world] builds text that only collaborators read; what the
    pipeline observes of it is whether one of its two [join]s raises. *)
Definition _summarize_world (ws : WorldState.t) : result unit :=
  match WorldState.players ws with
  | [] => Ok tt
  | _ :: _ =>
      _ ← join_check (map (fun r => Region.name r.2) (take 5 (WorldState.regions ws)));
      join_check (last_n 3 (WorldState.history_summaries ws))
  end.

Definition parse_action (a : json) : result Action.t :=
  ty ← py_get a "type" (JStr "WAIT");
  tr ← py_get a "target_region_id" JNull;
  tc ← py_get a "target_character_id" JNull;
  pa ← py_get a "params" (JObj []);
  Ok (Action.mk ty tr tc (py_or pa (JObj []))).

Definition _parse_actions (ci_result : json) : result (list Action.t) :=
  raw ← py_get ci_result "actions" (JList []);
  items ← py_iter raw;
  actions ← mapM parse_action items;
  Ok (match actions with [] => [Action.wait] | _ => actions end).

(** *** [_update_world], part 1: the loop over the actions *)

(** [player = world_state.players[user_id]] is one object that the whole of
    [_update_world] mutates; the model writes it back under its key. *)
Definition get_player (user_id : string) (ws : WorldState.t) : result PlayerState.t :=
  match assoc user_id (WorldState.players ws) with
  | Some p => Ok p
  | None => Raise KeyError
  end.

Definition put_player (user_id : string) (p : PlayerState.t) (ws : WorldState.t)
  : WorldState.t :=
  WorldState.set_players (alist_set user_id p (WorldState.players ws)) ws.

(** [int(action.params.get("days", 1))], 1 on any exception *)
Definition days_of (params : json) : result Z :=
  try_except (d ← py_get params "days" (JInt 1); py_int d) (Ok 1%Z).

(** [action.target_character_id in (p.character_id, p.name, p.user_id)] *)
Definition names_player (target : json) (p : PlayerState.t) : bool :=
  eq_str target (PlayerState.character_id p) || eq_str target (PlayerState.name p)
  || eq_str target (PlayerState.user_id p).

(** The first player, in the order of the dict, that the target names *)
Definition find_target_player (target : json) (ws : WorldState.t)
  : option PlayerState.t :=
  if truthy target
  then List.find (names_player target) (map snd (WorldState.players ws))
  else None.

Definition notice_active (name : string) : string :=
  "You address " +:+ name +:+ " directly. "
  +:+ "They are here and can respond on their own turn.".

Definition notice_absent (name : string) : string :=
  "You call out for " +:+ name +:+ ", but they don't seem to be around right now. "
  +:+ "Maybe focus on the world and its quests until they return.".

Definition is_active (user_id : string) (ws : WorldState.t) : bool :=
  bool_decide (is_Some (WorldState.active_players ws !! user_id)).

(** TALK at a real player: a notice, the utterance mirrored into the chat
    log, and no dialogue agent. *)
Definition talk_to_player (user_id : string) (action : Action.t)
    (target_player : PlayerState.t) (st : resolver) : result resolver :=
  let ws := r_world st in
  player ← get_player user_id ws;
  let snippet :=
    if is_active (PlayerState.user_id target_player) ws
    then notice_active (PlayerState.name target_player)
    else notice_absent (PlayerState.name target_player) in
  let line :=
    match Action.params action with
    | JObj l => default JNull (assoc "utterance" l)
    | _ => JNull
    end in
  let ws' :=
    if truthy line
    then WorldState.set_chat_log
           (append_capped CHAT_CAP (WorldState.chat_log ws)
              (PlayerState.name player +:+ " → " +:+ PlayerState.name target_player
               +:+ ": " +:+ py_str line)) ws
    else ws in
  Ok {| r_world := ws'; r_num_ticks := r_num_ticks st;
        r_snippets := r_snippets st ++ [snippet]; r_calls := r_calls st |}.

(** ["Conversation:\n" + dialogue_text], with the reaction when there is one *)
Definition conversation_snippet (dialogue_text npc_reaction : json)
  : result (option string) :=
  if truthy dialogue_text then
    match dialogue_text with
    | JStr d =>
        let snippet := "Conversation:" +:+ nl +:+ d in
        if truthy npc_reaction then
          match npc_reaction with
          | JStr r => Ok (Some (snippet +:+ nl +:+ nl +:+ "NPC reaction: " +:+ r))
          | _ => Raise TypeError
          end
        else Ok (Some snippet)
    | _ => Raise TypeError
    end
  else Ok None.

(** The mood and loyalty effects on the NPC that was talked to *)
Definition npc_effects (world_effects : json) (npc : Character.t)
  : result Character.t :=
  has_mood ← py_contains "npc_mood" world_effects;
  npc1 ← (if has_mood : bool
          then m ← py_getitem world_effects "npc_mood"; Ok (Character.set_mood m npc)
          else Ok npc);
  has_delta ← py_contains "npc_loyalty_delta" world_effects;
  if has_delta : bool
  then try_except
         (v ← py_getitem world_effects "npc_loyalty_delta";
          delta ← py_float v;
          Ok (Character.set_loyalty
                (clamp01 (fadd (Character.loyalty npc1) delta)) npc1))
         (Ok npc1)
  else Ok npc1.

(** TALK at anyone else: the dialogue agent is called once. *)
Definition talk_to_npc (C : Collaborators) (user_id : string) (action : Action.t)
    (st : resolver) : result resolver :=
  let ws := r_world st in
  let target := Action.target_character_id action in
  known ← (if truthy target
           then key_in target (fun s => bool_decide (is_Some (WorldState.characters ws !! s)))
           else Ok false);
  let npc : option (string * Character.t) :=
    if known : bool then
      match target with
      | JStr s => pair s <$> (WorldState.characters ws !! s)
      | _ => None
      end
    else None in
  _ ← _summarize_world ws;
  let dw_result := dialogue_reply C (r_calls st) in
  dialogue_text ← py_get dw_result "dialogue" (JStr "");
  npc_reaction ← py_get dw_result "npc_reaction" (JStr "");
  we ← py_get dw_result "world_effects" (JObj []);
  let world_effects := py_or we (JObj []) in
  snippet ← conversation_snippet dialogue_text npc_reaction;
  ws1 ← match npc with
        | Some (s, c) =>
            c' ← npc_effects world_effects c;
            Ok (WorldState.set_characters (<[s := c']> (WorldState.characters ws)) ws)
        | None => Ok ws
        end;
  psd ← py_get world_effects "player_stats_delta" (JObj []);
  player ← get_player user_id ws1;
  player' ← _apply_stat_changes player (py_or psd (JObj []));
  Ok {| r_world := put_player user_id player' ws1;
        r_num_ticks := r_num_ticks st;
        r_snippets := r_snippets st ++ from_option (fun s => [s]) [] snippet;
        r_calls := S (r_calls st) |}.

(** The body of [for action in actions] *)
Definition resolve_action (C : Collaborators) (user_id : string)
    (st : resolver) (action : Action.t) : result resolver :=
  let ws := r_world st in
  if eq_str (Action.type action) "MOVE" && truthy (Action.target_region_id action) then
    known ← key_in (Action.target_region_id action) (has_key (WorldState.regions ws));
    if known : bool then
      match Action.target_region_id action with
      | JStr s =>
          player ← get_player user_id ws;
          Ok (with_world (put_player user_id (PlayerState.set_location s player) ws) st)
      | _ => Ok st
      end
    else Ok st
  else if eq_str (Action.type action) "FAST_FORWARD" then
    days ← days_of (Action.params action);
    Ok {| r_world := ws; r_num_ticks := Z.max 1 days;
          r_snippets := r_snippets st; r_calls := r_calls st |}
  else if eq_str (Action.type action) "TALK" then
    match find_target_player (Action.target_character_id action) ws with
    | Some target_player => talk_to_player user_id action target_player st
    | None => talk_to_npc C user_id action st
    end
  else Ok st.

Definition resolve_actions (C : Collaborators) (user_id : string)
    (ws : WorldState.t) (actions : list Action.t) : result resolver :=
  foldM (resolve_action C user_id)
    {| r_world := ws; r_num_ticks := 1; r_snippets := []; r_calls := 0 |}
    actions.

(** *** [_update_world], part 2: the event engine *)

(** [max(0.0, min(1.0, current + float(delta)))] *)
Definition bump (current : float) (delta : json) : result float :=
  d ← py_float delta;
  Ok (clamp01 (fadd current d)).

Definition apply_metrics_delta (metrics_delta : json) (m : WorldMetrics.t)
  : result WorldMetrics.t :=
  d1 ← py_get metrics_delta "world_health" (JFloat f0);
  world_health ← bump (WorldMetrics.world_health m) d1;
  d2 ← py_get metrics_delta "chaos_level" (JFloat f0);
  chaos_level ← bump (WorldMetrics.chaos_level m) d2;
  d3 ← py_get metrics_delta "magic_level" (JFloat f0);
  magic_level ← bump (WorldMetrics.magic_level m) d3;
  d4 ← py_get metrics_delta "alliance_tension" (JFloat f0);
  alliance_tension ← bump (WorldMetrics.alliance_tension m) d4;
  Ok (WorldMetrics.mk world_health chaos_level magic_level alliance_tension).

Definition make_event (tick : Z) (e : json) : result Event.t :=
  id ← py_getitem e "id";
  ty ← py_get e "type" (JStr "generic");
  description ← py_get e "description" (JStr "");
  affected_regions ← py_get e "affected_regions" (JList []);
  impact ← py_get e "impact" (JObj []);
  Ok (Event.mk id ty description tick affected_regions impact).

(** [ev.type in {"dragon_hatching", "boss_battle"}] hashes [ev.type]. *)
Definition is_special (ty : json) : result bool :=
  if hashable ty
  then Ok (eq_str ty "dragon_hatching" || eq_str ty "boss_battle")
  else Raise TypeError.

Definition event_step (tick : Z) (acc : list Event.t * option json) (e : json)
  : result (list Event.t * option json) :=
  ev ← make_event tick e;
  special ← is_special (Event.type ev);
  Ok (acc.1 ++ [ev], if special : bool then Some (Event.type ev) else acc.2).

Definition advance (C : Collaborators) (user_id : string) (num_ticks : Z)
    (ws : WorldState.t) : result (WorldState.t * option json) :=
  _ ← _summarize_world ws;
  let ee_result := event_reply C in
  metrics_delta ← py_get ee_result "metrics_delta" (JObj []);
  m ← apply_metrics_delta metrics_delta (WorldState.metrics ws);
  let ws1 := WorldState.set_metrics m ws in
  ee_stats_delta ← py_get ee_result "player_stats_delta" (JObj []);
  player ← get_player user_id ws1;
  player' ← _apply_stat_changes player ee_stats_delta;
  let ws2 := put_player user_id player' ws1 in
  events ← py_get ee_result "events" (JList []);
  items ← py_iter events;
  found ← foldM (event_step (WorldState.tick ws + num_ticks)%Z) ([], None) items;
  Ok (WorldState.set_tick (WorldState.tick ws + num_ticks)%Z
        (WorldState.set_last_events found.1 ws2), found.2).

(** *** [_update_world], part 3: the quest master *)

Definition make_quest (q : json) : result (string * Quest.t) :=
  qid ← py_getitem q "id";
  title ← py_get q "title" qid;
  status ← py_get q "status" (JStr "open");
  summary ← py_get q "summary" (JStr "");
  related_regions ← py_get q "related_regions" (JList []);
  related_characters ← py_get q "related_characters" (JList []);
  k ← as_key qid;
  Ok (k, Quest.new k title status summary related_regions related_characters).

(** [try: .. new_quests[qid] = quest_obj / except Exception: continue] *)
Definition quest_step (acc : gmap string Quest.t) (q : json)
  : result (gmap string Quest.t) :=
  try_except (kq ← make_quest q; Ok (<[kq.1 := kq.2]> acc)) (Ok acc).

Definition build_quests (items : list json) : result (gmap string Quest.t) :=
  foldM quest_step ∅ items.

(** [not d] for a dict *)
Definition no_keys {V} (m : gmap string V) : bool := bool_decide (size m = 0).

Definition quest_continuity (C : Collaborators) (user_id : string)
    (ws : WorldState.t) : result (WorldState.t * option string) :=
  _ ← _summarize_world ws;
  let qm_result := quest_reply C in
  quests_out ← py_get qm_result "quests" (JList []);
  n ← py_get qm_result "notifications" (JList []);
  let notifications := py_or n (JList []) in
  ws1 ← (if truthy quests_out then
           items ← py_iter quests_out;
           new_quests ← build_quests items;
           Ok (if no_keys new_quests then ws else WorldState.set_quests new_quests ws)
         else Ok ws);
  note_block ← (if truthy notifications then
                  ns ← py_iter notifications;
                  Ok (Some ("Quest updates:" +:+ nl
                            +:+ join nl (map (fun x => "- " +:+ py_str x) ns)))
                else Ok None);
  qm_stats_delta ← py_get qm_result "player_stats_delta" (JObj []);
  player ← get_player user_id ws1;
  player' ← _apply_stat_changes player qm_stats_delta;
  Ok (put_player user_id player' ws1, note_block).

Definition _update_world (C : Collaborators) (ws : WorldState.t)
    (user_id : string) (actions : list Action.t)
  : result (WorldState.t * json * option json * string) :=
  let last_action_type :=
    match last actions with Some a => Action.type a | None => JStr "WAIT" end in
  _ ← get_player user_id ws;
  st ← resolve_actions C user_id ws actions;
  let talk :=
    match r_snippets st with [] => [] | l => [join (nl +:+ nl) l] end in
  adv ← advance C user_id (r_num_ticks st) (r_world st);
  qc ← quest_continuity C user_id adv.1;
  let extra_notes_parts := talk ++ from_option (fun s => [s]) [] qc.2 in
  Ok (qc.1, last_action_type, adv.2, join (nl +:+ nl) extra_notes_parts).

(** *** Presence *)

(** [now - float(last_ts) > SESSION_TIMEOUT_SECONDS], and [True] when the
    conversion raises *)
Definition timed_out (now : float) (last_ts : json) : bool :=
  match py_float last_ts with
  | Ok ts => flt SESSION_TIMEOUT_SECONDS (fsub now ts)
  | _ => true
  end.

Definition _prune_inactive_players (now : float) (ws : WorldState.t)
  : WorldState.t :=
  let to_remove :=
    map fst (List.filter (fun kv => timed_out now kv.2)
               (map_to_list (WorldState.active_players ws))) in
  let active := foldl (fun m uid => delete uid m) (WorldState.active_players ws) to_remove in
  let ws' := WorldState.set_active_players active ws in
  if no_keys active then WorldState.set_is_open false ws' else ws'.

(** *** Creating a world and a player *)

Definition fallback_region : json :=
  JObj [("id", JStr "glass_whale_bay");
        ("name", JStr "Glass Whale Bay");
        ("type", JStr "bay");
        ("description",
         JStr "A floating city built on the back of a shimmering glass whale.");
        ("neighbors", JList [])].

Definition make_region (r : json) : result (string * Region.t) :=
  neighbors ← py_get r "neighbors" (JList []);
  nbs ← py_iter neighbors;
  let exits := imap (fun i nb => ("path" +:+ pretty (S i), nb)) nbs in
  id ← py_getitem r "id";
  name ← py_get r "name" id;
  description ← py_get r "description" (JStr "");
  ty ← py_get r "type" (JStr "unknown");
  biome ← py_get r "biome" (JStr "plains");
  local_quest_ids ← py_get r "local_quest_ids" (JList []);
  exit_flavor ← py_get r "exit_flavor" (JObj []);
  k ← as_key id;
  Ok (k, Region.mk k name description biome ty neighbors true exits
           local_quest_ids exit_flavor).

Definition region_step (acc : list (string * Region.t)) (r : json)
  : result (list (string * Region.t)) :=
  kr ← make_region r;
  Ok (alist_set kr.1 kr.2 acc).

Definition make_character (first_region_id : json) (c : json)
  : result (string * Character.t) :=
  id ← py_getitem c "id";
  name ← py_get c "name" id;
  role ← py_get c "role" (JStr "npc");
  location ← py_get c "location_region_id" first_region_id;
  mood ← py_get c "mood" (JStr "neutral");
  l ← py_get c "loyalty" (JFloat f0_5);
  loyalty ← py_float l;
  traits ← py_get c "traits" (JList []);
  memories ← py_get c "memories" (JList []);
  k ← as_key id;
  Ok (k, Character.mk k name role location mood loyalty traits memories).

Definition character_step (first_region_id : json)
    (acc : gmap string Character.t) (c : json) : result (gmap string Character.t) :=
  kc ← make_character first_region_id c;
  Ok (<[kc.1 := kc.2]> acc).

(** The [if ws is None] branch of [_load_or_init_world_state] *)
Definition new_world (C : Collaborators) (world_id seed_prompt : string)
  : result WorldState.t :=
  let wa_result := architect_reply C in
  rl ← py_get wa_result "regions" (JList []);
  let regions_list := if truthy rl then rl else JList [fallback_region] in
  rs ← py_iter regions_list;
  regions_dict ← foldM region_step [] rs;
  (* regions_list[0]["id"]: here the list has a first item *)
  first_region_id ← match rs with
                     | r0 :: _ => py_getitem r0 "id"
                     | [] => Raise KeyError
                     end;
  notes ← py_get wa_result "history_notes" (JList []);
  history_summaries ← match notes with JList l => Ok l | _ => Untyped end;
  world_size ← py_get wa_result "world_size" (JStr "medium");
  starter_quests ← py_get wa_result "starter_quests" (JList []);
  qs ← py_iter starter_quests;
  quests ← build_quests qs;
  starter_characters ← py_get wa_result "starter_characters" (JList []);
  cs ← py_iter starter_characters;
  characters ← foldM (character_step first_region_id) ∅ cs;
  Ok (WorldState.mk world_id seed_prompt 0 regions_dict characters [] quests
        WorldMetrics.new history_summaries [] ∅ None world_size [] [] false).

Definition _load_or_init_world_state (C : Collaborators)
    (user_id world_id seed_prompt_if_new : string) (st : store)
  : result WorldState.t :=
  ws ← match load_world world_id st with
       | Some ws => Ok ws
       | None => new_world C world_id seed_prompt_if_new
       end;
  if has_key (WorldState.players ws) user_id then Ok ws
  else
    (* next(iter(ws.regions.keys())); the StopIteration of an empty dict leaves
       the coroutine as a RuntimeError *)
    match WorldState.regions ws with
    | [] => Raise RuntimeError
    | (first_region_id, _) :: _ =>
        let player :=
          PlayerState.new user_id (user_id +:+ "_char") user_id "wanderer"
            first_region_id in
        Ok (WorldState.set_players (WorldState.players ws ++ [(user_id, player)]) ws)
    end.

(** *** The two turn variants *)

(** The command history: [(user_message or "WAIT").strip()], logged when it
    is not empty *)
Definition log_command (user_id user_message : string) (ws : WorldState.t)
  : WorldState.t :=
  let cmd_text := strip (str_or (Some user_message) "WAIT") in
  if String.eqb cmd_text "" then ws
  else WorldState.set_history_summaries
         (append_capped HISTORY_CAP (WorldState.history_summaries ws)
            (JStr (user_id +:+ ": " +:+ cmd_text))) ws.

(** What [handle_turn] and [apply_action_only] share up to the interpreter;
    [clock k] is the k-th reading of [time.time()]. *)
Definition begin_turn (C : Collaborators) (clock : nat -> float)
    (user_id world_id user_message : string) (seed_prompt_if_new : option string)
    (st : store) : result WorldState.t :=
  ws ← _load_or_init_world_state C user_id world_id
         (str_or seed_prompt_if_new (str_or (Some user_message) "Create a new world."))
         st;
  let ws := _prune_inactive_players (clock 0) ws in
  let ws := WorldState.set_active_players
              (<[user_id := JFloat (clock 1)]> (WorldState.active_players ws)) ws in
  let ws := WorldState.set_is_open true ws in
  Ok (log_command user_id user_message ws).

Definition handle_turn (C : Collaborators) (clock : nat -> float)
    (user_id world_id user_message : string) (seed_prompt_if_new : option string)
    (st : store) : result (string * store) :=
  ws ← begin_turn C clock user_id world_id user_message seed_prompt_if_new st;
  _ ← _summarize_world ws;
  actions ← _parse_actions (interpreter_reply C);
  upd ← _update_world C ws user_id actions;
  let '(ws, last_action_type, special_event, extra_notes) := upd in
  _ ← _summarize_world ws;
  narration ← py_get (story_reply C) "narration" (JStr "");
  suggested_actions ← py_get (story_reply C) "suggested_actions" (JList []);
  visual_block ← render_turn ws last_action_type special_event;
  story_text ← compose_story narration suggested_actions extra_notes
                 (WorldState.history_summaries ws);
  let ws := WorldState.set_last_scene_text (Some story_text) ws in
  let entry := StoryEntry.mk (WorldState.tick ws) user_id user_message story_text
                 (clock 2) in
  let ws := WorldState.set_story_log
              (append_capped STORY_CAP (WorldState.story_log ws) entry) ws in
  Ok (visual_block +:+ nl +:+ nl +:+ py_str story_text, save_world ws st).

Definition apply_action_only (C : Collaborators) (clock : nat -> float)
    (user_id world_id user_message : string) (seed_prompt_if_new : option string)
    (st : store) : result store :=
  ws ← begin_turn C clock user_id world_id user_message seed_prompt_if_new st;
  _ ← _summarize_world ws;
  actions ← _parse_actions (interpreter_reply C);
  upd ← _update_world C ws user_id actions;
  Ok (save_world upd.1.1.1 st).

(** *** Reading and leaving *)

Record view : Type := { visual : string; story : json }.

Definition NO_WORLD_STORY : string :=
  "This world does not exist yet. Create it by sending an action.".

Definition get_state_view (now : float) (user_id world_id : string) (st : store)
  : result (view * store) :=
  match load_world world_id st with
  | None => Ok ({| visual := ""; story := JStr NO_WORLD_STORY |}, st)
  | Some ws =>
      let ws := _prune_inactive_players now ws in
      visual_block ← render_turn ws (JStr "LOOK") None;
      let story :=
        match WorldState.last_scene_text ws with
        | Some t => py_or t (JStr "")
        | None => JStr ""
        end in
      Ok ({| visual := visual_block; story := story |}, st)
  end.

Definition leave_world (now : float) (user_id world_id : string) (st : store)
  : store :=
  match load_world world_id st with
  | None => st
  | Some ws =>
      let ws := _prune_inactive_players now ws in
      let active := delete user_id (WorldState.active_players ws) in
      let ws := WorldState.set_active_players active ws in
      let ws := if no_keys active then WorldState.set_is_open false ws else ws in
      save_world ws st
  end.

(** *** The chat endpoint of [flask_app.py] *)

Inductive status : Set := Status200 | Status400 | Status404.

Definition api_chat (user_id world_id message : string) (st : store)
  : status * store :=
  let user_id := strip user_id in
  let world_id := strip world_id in
  let message := strip message in
  if String.eqb user_id "" || String.eqb world_id "" || String.eqb message ""
  then (Status400, st)
  else
    match load_world world_id st with
    | None => (Status404, st)
    | Some ws =>
        let entry := user_id +:+ ": " +:+ message in
        let ws := WorldState.set_chat_log
                    (append_capped CHAT_CAP (WorldState.chat_log ws) entry) ws in
        (Status200, save_world ws st)
    end.

(** *** The entry points

    What the transport layer ([flask_app.py]) calls, and the effect of each
    call on the store. *)

Inductive operation : Type :=
  | FullTurn (C : Collaborators) (clock : nat -> float)
      (user_id world_id message : string) (seed_prompt_if_new : option string)
  | ActionOnly (C : Collaborators) (clock : nat -> float)
      (user_id world_id message : string) (seed_prompt_if_new : option string)
  | ReadState (now : float) (user_id world_id : string)
  | Leave (now : float) (user_id world_id : string)
  | Chat (user_id world_id message : string).

Definition run (op : operation) (st : store) : result store :=
  match op with
  | FullTurn C clock user_id world_id message seed =>
      out ← handle_turn C clock user_id world_id message seed st; Ok out.2
  | ActionOnly C clock user_id world_id message seed =>
      apply_action_only C clock user_id world_id message seed st
  | ReadState now user_id world_id =>
      out ← get_state_view now user_id world_id st; Ok out.2
  | Leave now user_id world_id => Ok (leave_world now user_id world_id st)
  | Chat user_id world_id message => Ok (api_chat user_id world_id message st).2
  end.

(** *** The turn endpoint of [flask_app.py]

    [/api/turn] plays the turn and then reads the state back; [now] is the
    clock reading of the read. *)
Definition api_turn (C : Collaborators) (clock : nat -> float) (now : float)
    (user_id world_id message : string) (seed_prompt_if_new : option string)
    (st : store) : result (status * option view * store) :=
  let user_id := strip user_id in
  let world_id := strip world_id in
  let message := str_or (Some message) "WAIT" in
  if String.eqb user_id "" || String.eqb world_id ""
  then Ok (Status400, None, st)
  else
    out ← handle_turn C clock user_id world_id message seed_prompt_if_new st;
    v ← get_state_view now user_id world_id out.2;
    Ok (Status200, Some v.1, v.2).

(** ** Vocabulary of the statements *)

(** A JSON number that [float(..)] accepts: any float, infinities and NaN
    included, and any int of a magnitude binary64 can hold. *)
Definition number (j : json) : bool :=
  match j with
  | JFloat _ => true
  | JInt z => returns (float_of_int z)
  | _ => false
  end.

Definition metric_names : list string :=
  ["world_health"; "chaos_level"; "magic_level"; "alliance_tension"].

(** Every metric delta that is given is such a number. *)
Definition numeric_fields (fields : list (string * json)) : Prop :=
  forall k v, In k metric_names -> assoc k fields = Some v -> number v = true.

(** The time skip a turn asks for *)
Definition is_fast_forward (a : Action.t) : bool :=
  eq_str (Action.type a) "FAST_FORWARD".

(** [params.days] parsed as an integer, 1 when the key is missing or the
    value does not parse *)
Definition parsed_days (params : json) : Z :=
  match params with
  | JObj l =>
      match assoc "days" l with
      | Some v => match py_int v with Ok d => d | _ => 1%Z end
      | None => 1%Z
      end
  | _ => 1%Z
  end.

Definition last_fast_forward (actions : list Action.t) : option Action.t :=
  last (List.filter is_fast_forward actions).

(** What the loop over the actions never writes: everything but the players,
    the characters and the chat log *)
Definition same_outside_resolver (ws ws' : WorldState.t) : Prop :=
  WorldState.world_id ws' = WorldState.world_id ws /\
  WorldState.tick ws' = WorldState.tick ws /\
  WorldState.regions ws' = WorldState.regions ws /\
  WorldState.quests ws' = WorldState.quests ws /\
  WorldState.metrics ws' = WorldState.metrics ws /\
  WorldState.history_summaries ws' = WorldState.history_summaries ws /\
  WorldState.active_players ws' = WorldState.active_players ws /\
  WorldState.story_log ws' = WorldState.story_log ws /\
  WorldState.is_open ws' = WorldState.is_open ws.

(** A presence entry is stale when its timestamp lies more than
    [SESSION_TIMEOUT_SECONDS] before [now], or is not a number at all. *)
Definition stale (now : float) (last_ts : json) : Prop :=
  (exists ts, py_float last_ts = Ok ts /\
              flt SESSION_TIMEOUT_SECONDS (fsub now ts) = true) \/
  (exists e, py_float last_ts = Raise e).

(** A world with somebody present is open. *)
Definition presence_consistent (ws : WorldState.t) : Prop :=
  WorldState.active_players ws <> ∅ -> WorldState.is_open ws = true.

(** The caps of the three logs *)
Definition caps_ok (ws : WorldState.t) : Prop :=
  length (WorldState.history_summaries ws) <= HISTORY_CAP /\
  length (WorldState.chat_log ws) <= CHAT_CAP /\
  length (WorldState.story_log ws) <= STORY_CAP.

Definition store_caps (st : store) : Prop :=
  forall k ws, st !! k = Some ws -> caps_ok ws.

Definition store_presence (st : store) : Prop :=
  forall k ws, st !! k = Some ws -> presence_consistent ws.

(** The command that a turn logs is blank: nothing is appended. *)
Definition blank_command (message : string) : bool :=
  String.eqb (strip (str_or (Some message) "WAIT")) "".

(** The history notes the architect seeds a new world with *)
Definition seeded_notes (C : Collaborators) : option (list json) :=
  match py_get (architect_reply C) "history_notes" (JList []) with
  | Ok (JList l) => Some l
  | _ => None
  end.

(** A turn that creates a world either logs its command or is seeded with
    at most [HISTORY_CAP] history notes. *)
Definition seeds_within_cap (op : operation) (st : store) : Prop :=
  match op with
  | FullTurn C _ _ world_id message _ | ActionOnly C _ _ world_id message _ =>
      load_world world_id st = None ->
      blank_command message = false \/
      forall notes, seeded_notes C = Some notes -> length notes <= HISTORY_CAP
  | _ => True
  end.

(** The snapshot that [leave_world] writes *)
Definition left_world (now : float) (user_id : string) (ws : WorldState.t)
  : WorldState.t :=
  let ws := _prune_inactive_players now ws in
  let active := delete user_id (WorldState.active_players ws) in
  let ws := WorldState.set_active_players active ws in
  if no_keys active then WorldState.set_is_open false ws else ws.

(** The world a turn starts from: the stored one, or a new one. *)
Definition turn_origin (C : Collaborators) (world_id seed : string) (st : store)
    (ws0 : WorldState.t) : Prop :=
  load_world world_id st = Some ws0 \/
  (load_world world_id st = None /\ new_world C world_id seed = Ok ws0).

(** The region a world gets when the architect offers none *)
Definition fallback_bay : Region.t :=
  Region.mk "glass_whale_bay" (JStr "Glass Whale Bay")
    (JStr "A floating city built on the back of a shimmering glass whale.")
    (JStr "plains") (JStr "bay") (JList []) true [] (JList []) (JObj []).

(** The player record a user gets on first sight *)
Definition first_sight (user_id first_region_id : string) : PlayerState.t :=
  PlayerState.new user_id (user_id +:+ "_char") user_id "wanderer" first_region_id.

(** A returned list entry that makes a quest: it is an object with a string id. *)
Definition accepted_quest (q : json) : option (string * Quest.t) :=
  match make_quest q with Ok kq => Some kq | _ => None end.

(** The dict that successive [d[k] = v] build from nothing *)
Definition dict_of_items {V} (l : list (string * V)) : gmap string V :=
  foldl (fun m kv => <[kv.1 := kv.2]> m) ∅ l.

(** C7 as the specification words it: after a non-empty returned list, every
    quest of the map is one of the returned ones. *)
Definition replaced_wholesale : Prop :=
  forall (C : Collaborators) (user_id : string) (ws ws' : WorldState.t)
         (note : option string) (items : list json),
    py_get (quest_reply C) "quests" (JList []) = Ok (JList items) ->
    items <> [] ->
    quest_continuity C user_id ws = Ok (ws', note) ->
    forall k, is_Some (WorldState.quests ws' !! k) ->
              exists q, In q items /\ py_getitem q "id" = Ok (JStr k).

(** C4 as the specification words it: whatever an entry point writes is
    within the caps. *)
Definition always_within_caps : Prop :=
  forall (op : operation) (st st' : store),
    store_caps st -> run op st = Ok st' -> store_caps st'.

(** *** Further vocabulary: players, characters and well-formed worlds *)

Definition is_obj (j : json) : bool :=
  match j with JObj _ => true | _ => false end.

(** Every stat lies in the unit interval. *)
Definition stats_in_unit (m : gmap string float) : Prop :=
  forall k v, m !! k = Some v -> in_unit v = true.

(** What [_update_world] may change of the acting player: the location, to
    a region of the world, and the stats, which stay in the unit interval
    when they were there. *)
Definition acting_player_step (regions : list (string * Region.t))
    (p p' : PlayerState.t) : Prop :=
  PlayerState.user_id p' = PlayerState.user_id p /\
  PlayerState.character_id p' = PlayerState.character_id p /\
  PlayerState.name p' = PlayerState.name p /\
  PlayerState.char_class p' = PlayerState.char_class p /\
  PlayerState.reputation p' = PlayerState.reputation p /\
  PlayerState.goals p' = PlayerState.goals p /\
  PlayerState.inventory p' = PlayerState.inventory p /\
  (PlayerState.location_region_id p' = PlayerState.location_region_id p \/
   has_key regions (PlayerState.location_region_id p') = true) /\
  (stats_in_unit (PlayerState.stats p) -> stats_in_unit (PlayerState.stats p')).

(** How the players of a world evolve when [user_id] acts *)
Definition players_step (regions : list (string * Region.t)) (user_id : string)
    (l l' : list (string * PlayerState.t)) : Prop :=
  map fst l' = map fst l /\
  (forall k, k <> user_id -> assoc k l' = assoc k l) /\
  exists p p', assoc user_id l = Some p /\ assoc user_id l' = Some p' /\
               acting_player_step regions p p'.

(** What a conversation may change of an NPC: mood and loyalty *)
Definition npc_step (c c' : Character.t) : Prop :=
  Character.id c' = Character.id c /\
  Character.name c' = Character.name c /\
  Character.role c' = Character.role c /\
  Character.location_region_id c' = Character.location_region_id c /\
  Character.traits c' = Character.traits c /\
  Character.memories c' = Character.memories c /\
  (in_unit (Character.loyalty c) = true -> in_unit (Character.loyalty c') = true).

Definition characters_step (m m' : gmap string Character.t) : Prop :=
  forall k, match m !! k, m' !! k with
            | Some c, Some c' => npc_step c c'
            | None, None => True
            | _, _ => False
            end.

(** The part of the world that the loop, the event engine and the quest
    master treat alike *)
Definition cast_step (user_id : string) (ws ws' : WorldState.t) : Prop :=
  WorldState.regions ws' = WorldState.regions ws /\
  players_step (WorldState.regions ws) user_id
    (WorldState.players ws) (WorldState.players ws') /\
  characters_step (WorldState.characters ws) (WorldState.characters ws').

Definition is_talk (a : Action.t) : bool := eq_str (Action.type a) "TALK".

(** [ev.type in {"dragon_hatching", "boss_battle"}] for a hashable type *)
Definition special_type (ty : json) : bool :=
  eq_str ty "dragon_hatching" || eq_str ty "boss_battle".

(** *** Invariants of the stored worlds *)

Definition store_all (P : WorldState.t -> Prop) (st : store) : Prop :=
  forall k ws, st !! k = Some ws -> P ws.

(** [P] survives every write that an entry point makes to a snapshot. *)
Definition kept_by_every_step (P : WorldState.t -> Prop) : Prop :=
  (forall C world_id seed ws, new_world C world_id seed = Ok ws -> P ws) /\
  (forall ws user_id first r rest,
      P ws ->
      has_key (WorldState.players ws) user_id = false ->
      WorldState.regions ws = (first, r) :: rest ->
      P (WorldState.set_players
           (WorldState.players ws ++ [(user_id, first_sight user_id first)]) ws)) /\
  (forall now ws, P ws -> P (_prune_inactive_players now ws)) /\
  (forall ws user_id ts,
      P ws ->
      has_key (WorldState.players ws) user_id = true ->
      P (WorldState.set_is_open true
           (WorldState.set_active_players
              (<[user_id := ts]> (WorldState.active_players ws)) ws))) /\
  (forall user_id message ws, P ws -> P (log_command user_id message ws)) /\
  (forall C ws ws' user_id actions ty special notes,
      P ws ->
      _update_world C ws user_id actions = Ok (ws', ty, special, notes) ->
      P ws') /\
  (forall ws text log,
      P ws -> P (WorldState.set_story_log log (WorldState.set_last_scene_text text ws))) /\
  (forall now user_id ws, P ws -> P (left_world now user_id ws)) /\
  (forall ws log, P ws -> P (WorldState.set_chat_log log ws)).

(** The shape of a snapshot: keys are distinct and are the ids of what they
    hold, every player stands in a region of the world, and whoever is
    present is a player. *)
Definition wf_world (ws : WorldState.t) : Prop :=
  NoDup (map fst (WorldState.regions ws)) /\
  NoDup (map fst (WorldState.players ws)) /\
  (forall k r, assoc k (WorldState.regions ws) = Some r -> Region.id r = k) /\
  (forall k c, WorldState.characters ws !! k = Some c -> Character.id c = k) /\
  (forall k q, WorldState.quests ws !! k = Some q -> Quest.id q = k) /\
  (forall k p, assoc k (WorldState.players ws) = Some p ->
               PlayerState.user_id p = k /\
               has_key (WorldState.regions ws) (PlayerState.location_region_id p) = true) /\
  (forall k, is_Some (WorldState.active_players ws !! k) ->
             has_key (WorldState.players ws) k = true).

(** The numbers of a snapshot that the code clamps *)
Definition numbers_in_unit (ws : WorldState.t) : Prop :=
  WorldMetrics.in_range (WorldState.metrics ws) /\
  forall k p, assoc k (WorldState.players ws) = Some p ->
              stats_in_unit (PlayerState.stats p).

(** Every snapshot is stored under its own id. *)
Definition store_keyed (st : store) : Prop :=
  forall k ws, st !! k = Some ws -> WorldState.world_id ws = k.

(** The world an entry point works on *)
Definition target_world (op : operation) : string :=
  match op with
  | FullTurn _ _ _ world_id _ _ | ActionOnly _ _ _ world_id _ _
  | ReadState _ _ world_id | Leave _ _ world_id => world_id
  | Chat _ world_id _ => strip world_id
  end.

(** The store after an entry point has written the snapshot [u] of the world
    [t], or has written nothing *)
Definition written (t : string) (u : option WorldState.t) (st : store) : store :=
  match u with
  | Some ws => <[t := ws]> st
  | None => st
  end.

(** The fields of [WorldState] and of [Region] by name *)
Definition world_field_names : list string :=
  ["world_id"; "seed_prompt"; "tick"; "regions"; "characters"; "players";
   "quests"; "metrics"; "history_summaries"; "last_events"; "active_players";
   "last_scene_text"; "world_size"; "chat_log"; "story_log"; "is_open"].

Definition region_field_names : list string :=
  ["id"; "name"; "description"; "biome"; "type"; "neighbors";
   "known_to_player"; "exits"; "local_quest_ids"; "exit_flavor"].

(** A text of white space only *)
Definition all_space (s : string) : Prop :=
  Forall (fun c => is_space c = true) (list_ascii_of_string s).

(** A later snapshot of a world: the same regions, and every player still
    there with the same identity *)
Definition world_grows (ws0 ws' : WorldState.t) : Prop :=
  WorldState.regions ws' = WorldState.regions ws0 /\
  forall u p,
    assoc u (WorldState.players ws0) = Some p ->
    exists p', assoc u (WorldState.players ws') = Some p' /\
               acting_player_step (WorldState.regions ws0) p p'.

(** ** Facts *)

(** *** Reasoning about [result] *)

Lemma bind_Ok {A B} (m : result A) (f : A -> result B) (b : B) :
  m ≫= f = Ok b -> exists a, m = Ok a /\ f a = Ok b.
Proof. destruct m as [a| |]; simpl; intros H; try discriminate. eauto. Qed.

(** A property that every round of a loop keeps is kept by the loop. *)
Lemma foldM_invariant {A B} (P : A -> Prop) (f : A -> B -> result A) :
  (forall a b a', P a -> f a b = Ok a' -> P a') ->
  forall l a a', P a -> foldM f a l = Ok a' -> P a'.
Proof.
  intros Hstep l. induction l as [|b l IH]; simpl; intros a a' Ha H.
  - congruence.
  - apply bind_Ok in H as (a1 & H1 & H2). eauto.
Qed.

(** Splits a hypothesis [x ← m; k = Ok b] into its two halves, repeatedly. *)
Ltac inv_bind H :=
  let x := fresh "x" in
  let H1 := fresh "E" in
  apply bind_Ok in H as (x & H1 & H); simpl in H.

Ltac inv_ok :=
  repeat match goal with
         | H : Ok _ = Ok _ |- _ => injection H as H; subst
         | H : Raise _ = Ok _ |- _ => discriminate H
         | H : Untyped = Ok _ |- _ => discriminate H
         end.

(** *** Clamping *)

Lemma flt_fle (a b : float) : flt a b = true -> fle a b = true.
Proof.
  unfold flt, fle, SFltb, SFleb.
  destruct (SFcompare a b) as [[]|]; auto; discriminate.
Qed.

Lemma clamp01_in_unit (x : float) : in_unit (clamp01 x) = true.
Proof.
  unfold clamp01, py_min, py_max, in_unit.
  destruct (flt x f1) eqn:Hx1.
  - destruct (flt f0 x) eqn:H0x.
    + rewrite (flt_fle _ _ Hx1), (flt_fle _ _ H0x). reflexivity.
    + reflexivity.
  - reflexivity.
Qed.

(** A value inside the interval is left as it is. *)
Lemma clamp01_inside (x : float) :
  flt f0 x = true -> flt x f1 = true -> clamp01 x = x.
Proof. unfold clamp01, py_min, py_max. intros H0 H1. rewrite H1, H0. reflexivity. Qed.

Lemma bump_in_unit (current : float) (delta : json) (x : float) :
  bump current delta = Ok x -> in_unit x = true.
Proof.
  unfold bump. intros H. inv_bind H. inv_ok. apply clamp01_in_unit.
Qed.

Lemma apply_metrics_delta_in_range (metrics_delta : json) (m m' : WorldMetrics.t) :
  apply_metrics_delta metrics_delta m = Ok m' -> WorldMetrics.in_range m'.
Proof.
  unfold apply_metrics_delta. intros H.
  do 8 inv_bind H. inv_ok.
  repeat split; simpl; eauto using bump_in_unit.
Qed.

Lemma py_float_number (v : json) :
  number v = true -> exists d, py_float v = Ok d.
Proof.
  destruct v; simpl; try discriminate; eauto.
  destruct (float_of_int z); simpl; try discriminate; eauto.
Qed.

Lemma bump_number (current : float) (fields : list (string * json)) (k : string) :
  numeric_fields fields ->
  In k metric_names ->
  exists x, bump current (default (JFloat f0) (assoc k fields)) = Ok x.
Proof.
  intros Hnum Hk. unfold bump.
  destruct (py_float_number (default (JFloat f0) (assoc k fields))) as [d Hd].
  - destruct (assoc k fields) as [v|] eqn:Hv; simpl; eauto.
  - rewrite Hd. simpl. eauto.
Qed.

(** *** The Advance step and the metrics *)

Lemma apply_metrics_delta_returns (fields : list (string * json)) (m : WorldMetrics.t) :
  numeric_fields fields ->
  exists m', apply_metrics_delta (JObj fields) m = Ok m'.
Proof.
  intros Hnum. unfold apply_metrics_delta. simpl.
  destruct (bump_number (WorldMetrics.world_health m) fields "world_health" Hnum)
    as [x1 ->]; [simpl; auto|].
  simpl.
  destruct (bump_number (WorldMetrics.chaos_level m) fields "chaos_level" Hnum)
    as [x2 ->]; [simpl; auto|].
  simpl.
  destruct (bump_number (WorldMetrics.magic_level m) fields "magic_level" Hnum)
    as [x3 ->]; [simpl; auto|].
  simpl.
  destruct (bump_number (WorldMetrics.alliance_tension m) fields "alliance_tension" Hnum)
    as [x4 ->]; [simpl; auto 6|].
  simpl. eauto.
Qed.

Lemma advance_metrics (C : Collaborators) (user_id : string) (num_ticks : Z)
    (ws ws' : WorldState.t) (special : option json) :
  advance C user_id num_ticks ws = Ok (ws', special) ->
  exists metrics_delta,
    py_get (event_reply C) "metrics_delta" (JObj []) = Ok metrics_delta /\
    apply_metrics_delta metrics_delta (WorldState.metrics ws)
    = Ok (WorldState.metrics ws').
Proof.
  unfold advance. intros H. do 9 inv_bind H. inv_ok.
  exists x0. split; [assumption|]. simpl. assumption.
Qed.

(** Whatever the event engine replies, a completed Advance step leaves the
    four metrics in [0,1]. *)
Lemma advance_metrics_in_range (C : Collaborators) (user_id : string)
    (num_ticks : Z) (ws ws' : WorldState.t) (special : option json) :
  advance C user_id num_ticks ws = Ok (ws', special) ->
  WorldMetrics.in_range (WorldState.metrics ws').
Proof.
  intros H. apply advance_metrics in H as (md & _ & H).
  eapply apply_metrics_delta_in_range; eassumption.
Qed.

(** C2: for every world state and every [metrics_delta] of the event engine
    whose entries for the four metrics are numbers, of any sign and magnitude
    that [float(..)] accepts, the metric update of the Advance step goes
    through and yields four metrics in [0,1], and these are the metrics of
    the world after the Advance step. *)
Theorem advance_keeps_metrics_in_unit_interval (C : Collaborators)
    (user_id : string) (num_ticks : Z) (ws : WorldState.t)
    (fields : list (string * json)) :
  py_get (event_reply C) "metrics_delta" (JObj []) = Ok (JObj fields) ->
  numeric_fields fields ->
  exists m',
    apply_metrics_delta (JObj fields) (WorldState.metrics ws) = Ok m' /\
    WorldMetrics.in_range m' /\
    forall ws' special,
      advance C user_id num_ticks ws = Ok (ws', special) ->
      WorldState.metrics ws' = m'.
Proof.
  intros Hget Hnum.
  destruct (apply_metrics_delta_returns fields (WorldState.metrics ws) Hnum) as [m' Hm'].
  exists m'. split; [assumption|]. split.
  - eapply apply_metrics_delta_in_range; eassumption.
  - intros ws' special H. apply advance_metrics in H as (md & Hmd & H).
    congruence.
Qed.

(** *** Malformed deltas *)

(** A stat delta that [float(..)] refuses leaves the stat at its old value
    (0.5 when the stat was not there). *)
Lemma stat_change_malformed (stats : gmap string float) (name : string)
    (delta : json) (e : exn) :
  py_float delta = Raise e ->
  stat_change stats (name, delta)
  = Ok (<[name := default f0_5 (stats !! name)]> stats).
Proof. unfold stat_change. simpl. intros ->. reflexivity. Qed.

(** A loyalty delta that [float(..)] refuses leaves the NPC's loyalty alone. *)
Lemma npc_effects_malformed_loyalty (fields : list (string * json))
    (npc npc' : Character.t) (delta : json) (e : exn) :
  assoc "npc_loyalty_delta" fields = Some delta ->
  py_float delta = Raise e ->
  npc_effects (JObj fields) npc = Ok npc' ->
  Character.loyalty npc' = Character.loyalty npc.
Proof.
  intros Hd He. unfold npc_effects. simpl. rewrite Hd. simpl. rewrite He. simpl.
  destruct (assoc "npc_mood" fields) as [m|]; simpl; intros H; inv_ok; reflexivity.
Qed.

(** A metric delta that [float(..)] refuses is not caught: the metric update
    raises, and with it the Advance step and the whole of [_update_world]. *)
Lemma bump_malformed (current : float) (delta : json) (e : exn) :
  py_float delta = Raise e -> bump current delta = Raise e.
Proof. unfold bump. intros ->. reflexivity. Qed.

(** C3, the world-metric part: a [world_health] delta that [float(..)]
    refuses makes the Advance step raise, so the turn is aborted and the prior
    value is not kept by an [except] clause the way stats and loyalty are. *)
Theorem malformed_metric_delta_aborts_advance (C : Collaborators)
    (user_id : string) (num_ticks : Z) (ws : WorldState.t)
    (fields : list (string * json)) (delta : json) (e : exn) :
  _summarize_world ws = Ok tt ->
  py_get (event_reply C) "metrics_delta" (JObj []) = Ok (JObj fields) ->
  assoc "world_health" fields = Some delta ->
  py_float delta = Raise e ->
  advance C user_id num_ticks ws = Raise e.
Proof.
  intros Hsum Hget Hd He. unfold advance. rewrite Hsum. simpl. rewrite Hget. simpl.
  unfold apply_metrics_delta. simpl. rewrite Hd. simpl.
  rewrite (bump_malformed _ _ _ He). reflexivity.
Qed.

(** *** The loop over the actions *)

Lemma same_outside_resolver_refl (ws : WorldState.t) : same_outside_resolver ws ws.
Proof. repeat split. Qed.

Lemma same_outside_resolver_trans (a b c : WorldState.t) :
  same_outside_resolver a b -> same_outside_resolver b c -> same_outside_resolver a c.
Proof.
  unfold same_outside_resolver. intros H1 H2.
  destruct H1 as (?&?&?&?&?&?&?&?&?), H2 as (?&?&?&?&?&?&?&?&?).
  repeat split; congruence.
Qed.

Lemma put_player_outside (user_id : string) (p : PlayerState.t) (ws : WorldState.t) :
  same_outside_resolver ws (put_player user_id p ws).
Proof. repeat split. Qed.

Lemma talk_to_player_frame (user_id : string) (a : Action.t) (p : PlayerState.t)
    (st st' : resolver) :
  talk_to_player user_id a p st = Ok st' ->
  same_outside_resolver (r_world st) (r_world st') /\
  r_num_ticks st' = r_num_ticks st.
Proof.
  unfold talk_to_player. intros H. inv_bind H. inv_ok. simpl.
  split; [|reflexivity].
  destruct (truthy _); repeat split.
Qed.

Lemma talk_to_npc_frame (C : Collaborators) (user_id : string) (a : Action.t)
    (st st' : resolver) :
  talk_to_npc C user_id a st = Ok st' ->
  same_outside_resolver (r_world st) (r_world st') /\
  r_num_ticks st' = r_num_ticks st /\
  WorldState.chat_log (r_world st') = WorldState.chat_log (r_world st).
Proof.
  unfold talk_to_npc. intros H. do 10 inv_bind H. inv_ok. simpl.
  assert (Hx : same_outside_resolver (r_world st) x5 /\
               WorldState.chat_log x5 = WorldState.chat_log (r_world st)).
  { destruct (if x then _ else _) as [[s c]|]; [inv_bind E5|]; inv_ok;
      split; repeat split. }
  destruct Hx as [Hx Hc]. split; [|split; [reflexivity|exact Hc]].
  eapply same_outside_resolver_trans; [exact Hx|apply put_player_outside].
Qed.

Lemma days_of_parsed (params : json) : days_of params = Ok (parsed_days params).
Proof.
  unfold days_of, parsed_days. destruct params; try reflexivity. simpl.
  destruct (assoc "days" fields) as [v|]; simpl; [|reflexivity].
  destruct v; simpl; try reflexivity.
  - destruct f; reflexivity.
  - destruct (int_of_str s); reflexivity.
Qed.

Lemma resolve_action_frame (C : Collaborators) (user_id : string)
    (st st' : resolver) (a : Action.t) :
  resolve_action C user_id st a = Ok st' ->
  same_outside_resolver (r_world st) (r_world st') /\
  r_num_ticks st' =
    if is_fast_forward a then Z.max 1 (parsed_days (Action.params a))
    else r_num_ticks st.
Proof.
  unfold resolve_action, is_fast_forward.
  destruct (eq_str (Action.type a) "MOVE" && truthy (Action.target_region_id a)) eqn:Hmove.
  - assert (Hff : eq_str (Action.type a) "FAST_FORWARD" = false).
    { apply andb_true_iff in Hmove as [Hm _]. unfold eq_str in *.
      destruct (Action.type a); try reflexivity.
      apply String.eqb_eq in Hm. subst. reflexivity. }
    rewrite Hff. intros H. inv_bind H.
    destruct x; [|inv_ok; split; [apply same_outside_resolver_refl|reflexivity]].
    destruct (Action.target_region_id a); inv_ok;
      try (split; [apply same_outside_resolver_refl|reflexivity]).
    inv_bind H. inv_ok. simpl. split; [repeat split|reflexivity].
  - destruct (eq_str (Action.type a) "FAST_FORWARD") eqn:Hff.
    + rewrite days_of_parsed. simpl. intros H. inv_ok. simpl.
      split; [apply same_outside_resolver_refl|reflexivity].
    + destruct (eq_str (Action.type a) "TALK").
      * destruct (find_target_player _ _) as [p|]; intros H.
        -- apply talk_to_player_frame in H. tauto.
        -- apply talk_to_npc_frame in H. tauto.
      * intros H. inv_ok. split; [apply same_outside_resolver_refl|reflexivity].
Qed.

Lemma resolve_loop_frame (C : Collaborators) (user_id : string)
    (actions : list Action.t) (st st' : resolver) :
  foldM (resolve_action C user_id) st actions = Ok st' ->
  same_outside_resolver (r_world st) (r_world st') /\
  r_num_ticks st' =
    match last_fast_forward actions with
    | Some a => Z.max 1 (parsed_days (Action.params a))
    | None => r_num_ticks st
    end.
Proof.
  revert st. induction actions as [|a actions IH]; simpl; intros st H.
  - inv_ok. split; [apply same_outside_resolver_refl|reflexivity].
  - inv_bind H. apply resolve_action_frame in E as [Hf Hn].
    apply IH in H as [Hf' Hn'].
    split; [eapply same_outside_resolver_trans; eassumption|].
    rewrite Hn'. unfold last_fast_forward in *. simpl.
    destruct (is_fast_forward a); [|rewrite Hn; reflexivity].
    rewrite last_cons. destruct (last (List.filter is_fast_forward actions)); auto.
Qed.

Lemma quest_continuity_frame (C : Collaborators) (user_id : string)
    (ws ws' : WorldState.t) (note : option string) :
  quest_continuity C user_id ws = Ok (ws', note) ->
  WorldState.world_id ws' = WorldState.world_id ws /\
  WorldState.tick ws' = WorldState.tick ws /\
  WorldState.metrics ws' = WorldState.metrics ws /\
  WorldState.history_summaries ws' = WorldState.history_summaries ws /\
  WorldState.active_players ws' = WorldState.active_players ws /\
  WorldState.chat_log ws' = WorldState.chat_log ws /\
  WorldState.story_log ws' = WorldState.story_log ws /\
  WorldState.is_open ws' = WorldState.is_open ws.
Proof.
  unfold quest_continuity. intros H. do 8 inv_bind H. inv_ok. simpl.
  assert (Hx : x2 = ws \/ exists q, x2 = WorldState.set_quests q ws).
  { destruct (truthy x0); [|inv_ok; auto].
    do 2 inv_bind E2. inv_ok. destruct (no_keys _); eauto. }
  destruct Hx as [->|[q ->]]; repeat split.
Qed.

Lemma advance_frame (C : Collaborators) (user_id : string) (num_ticks : Z)
    (ws ws' : WorldState.t) (special : option json) :
  advance C user_id num_ticks ws = Ok (ws', special) ->
  WorldState.world_id ws' = WorldState.world_id ws /\
  WorldState.tick ws' = (WorldState.tick ws + num_ticks)%Z /\
  WorldState.quests ws' = WorldState.quests ws /\
  WorldState.history_summaries ws' = WorldState.history_summaries ws /\
  WorldState.active_players ws' = WorldState.active_players ws /\
  WorldState.chat_log ws' = WorldState.chat_log ws /\
  WorldState.story_log ws' = WorldState.story_log ws /\
  WorldState.is_open ws' = WorldState.is_open ws.
Proof.
  unfold advance. intros H. do 9 inv_bind H. inv_ok. repeat split.
Qed.

(** [_update_world] is its three stages in a row. *)
Lemma _update_world_stages (C : Collaborators) (ws ws' : WorldState.t)
    (user_id : string) (actions : list Action.t) (ty : json)
    (special : option json) (notes : string) :
  _update_world C ws user_id actions = Ok (ws', ty, special, notes) ->
  exists st ws1 note,
    resolve_actions C user_id ws actions = Ok st /\
    advance C user_id (r_num_ticks st) (r_world st) = Ok (ws1, special) /\
    quest_continuity C user_id ws1 = Ok (ws', note).
Proof.
  unfold _update_world. intros H. do 4 inv_bind H. inv_ok.
  destruct x1 as [ws1 sp], x2 as [ws2 note]. simpl in *.
  exists x0, ws1, note. auto.
Qed.

(** The ticks of a turn and the tick counter after it *)
Lemma _update_world_ticks (C : Collaborators) (ws ws' : WorldState.t)
    (user_id : string) (actions : list Action.t) (ty : json)
    (special : option json) (notes : string) :
  _update_world C ws user_id actions = Ok (ws', ty, special, notes) ->
  exists st,
    resolve_actions C user_id ws actions = Ok st /\
    r_num_ticks st
    = match last_fast_forward actions with
      | Some a => Z.max 1 (parsed_days (Action.params a))
      | None => 1%Z
      end /\
    WorldState.tick ws' = (WorldState.tick ws + r_num_ticks st)%Z.
Proof.
  intros H.
  apply _update_world_stages in H as (st & ws1 & note & Hres & Hadv & Hq).
  exists st. split; [assumption|].
  pose proof Hres as Hloop. unfold resolve_actions in Hloop.
  apply resolve_loop_frame in Hloop as [Hf Hn]. simpl in *.
  split; [assumption|].
  apply advance_frame in Hadv as (_ & Ht & _).
  apply quest_continuity_frame in Hq as (_ & Ht' & _).
  destruct Hf as (_ & Ht0 & _). congruence.
Qed.


(** The two cases the specification singles out: [days = "5"] asks for five
    ticks, a missing or non-numeric [days] for one. *)
Lemma parsed_days_examples :
  (Z.max 1 (parsed_days (JObj [("days", JStr "5")])) = 5)%Z /\
  (Z.max 1 (parsed_days (JObj [])) = 1)%Z /\
  (Z.max 1 (parsed_days (JObj [("days", JStr "a week")])) = 1)%Z /\
  (Z.max 1 (parsed_days (JObj [("days", JNull)])) = 1)%Z /\
  (Z.max 1 (parsed_days (JObj [("days", JInt (-3))])) = 1)%Z.
Proof. vm_compute. repeat split. Qed.

(** Without a FAST_FORWARD the turn lasts one tick. *)
Lemma plain_turn_advances_one_tick (C : Collaborators) (ws ws' : WorldState.t)
    (user_id : string) (actions : list Action.t) (ty : json)
    (special : option json) (notes : string) :
  last_fast_forward actions = None ->
  _update_world C ws user_id actions = Ok (ws', ty, special, notes) ->
  WorldState.tick ws' = (WorldState.tick ws + 1)%Z.
Proof.
  intros Hlast H.
  apply _update_world_ticks in H as (st & Hres & Hn & Ht).
  rewrite Hlast in Hn. congruence.
Qed.

(** *** TALK between players *)

Lemma eq_str_true (j : json) (s : string) : eq_str j s = true -> j = JStr s.
Proof.
  destruct j; simpl; try discriminate. intros H. apply String.eqb_eq in H. congruence.
Qed.

Lemma has_key_get_player (user_id : string) (ws : WorldState.t) :
  has_key (WorldState.players ws) user_id = true ->
  exists p, get_player user_id ws = Ok p.
Proof.
  unfold has_key, get_player. intros H. apply bool_decide_eq_true in H as [p Hp].
  rewrite Hp. eauto.
Qed.

(** The target player is a player of the world whom the target identifier
    names by character id, display name or user id. *)
Lemma find_target_player_names (target : json) (ws : WorldState.t)
    (p : PlayerState.t) :
  find_target_player target ws = Some p ->
  truthy target = true /\ names_player target p = true /\
  exists k, In (k, p) (WorldState.players ws).
Proof.
  unfold find_target_player. destruct (truthy target); [|discriminate].
  intros H. apply find_some in H as [Hin Hn]. repeat split; [assumption|].
  apply in_map_iff in Hin as ([k q] & Hq & Hin). simpl in Hq. subst. eauto.
Qed.

(** When the identifier names one player only, that player is the target. *)
Lemma find_target_player_unambiguous (target : json) (ws : WorldState.t)
    (k : string) (p : PlayerState.t) :
  truthy target = true ->
  In (k, p) (WorldState.players ws) ->
  names_player target p = true ->
  (forall k' q, In (k', q) (WorldState.players ws) ->
                names_player target q = true -> q = p) ->
  find_target_player target ws = Some p.
Proof.
  unfold find_target_player. intros -> Hin Hn Huniq.
  induction (WorldState.players ws) as [|[k0 q0] l IH]; [destruct Hin|].
  simpl. destruct (names_player target q0) eqn:Hq0.
  - f_equal. eapply Huniq; [left; reflexivity|assumption].
  - apply IH.
    + destruct Hin as [Heq|Hin]; [|assumption].
      injection Heq as -> ->. congruence.
    + intros k' q Hq. apply (Huniq k' q). right. assumption.
Qed.


(** The same without the presence test: as soon as the target names a
    player, the dialogue agent is not called and no NPC changes. *)
Lemma talk_to_player_spares_npcs (C : Collaborators) (user_id : string)
    (st st' : resolver) (a : Action.t) (p : PlayerState.t) :
  eq_str (Action.type a) "TALK" = true ->
  find_target_player (Action.target_character_id a) (r_world st) = Some p ->
  resolve_action C user_id st a = Ok st' ->
  r_calls st' = r_calls st /\
  WorldState.characters (r_world st') = WorldState.characters (r_world st).
Proof.
  intros Hty Hfind. apply eq_str_true in Hty.
  unfold resolve_action. rewrite Hty. simpl. rewrite Hfind.
  unfold talk_to_player. intros H. inv_bind H. inv_ok. simpl.
  split; [reflexivity|]. destruct (truthy _); reflexivity.
Qed.

(** The notice reads as the source writes it. *)
Example notice_absent_text :
  notice_absent "mira"
  = "You call out for mira, but they don't seem to be around right now. Maybe focus on the world and its quests until they return.".
Proof. reflexivity. Qed.

(** *** Presence *)

Lemma timed_out_stale (now : float) (last_ts : json) :
  timed_out now last_ts = true <-> stale now last_ts.
Proof.
  unfold timed_out, stale. split.
  - destruct (py_float last_ts) as [ts|e|] eqn:E; intros H; eauto.
    exfalso. destruct last_ts; simpl in E; try discriminate.
    + unfold float_of_int in E. destruct (binary_normalize _ _ _ _ _); discriminate.
    + destruct (float_of_str s); discriminate.
  - intros [(ts & -> & H)|(e & ->)]; auto.
Qed.

Lemma no_keys_empty {V} (m : gmap string V) : no_keys m = true <-> m = ∅.
Proof.
  unfold no_keys. rewrite bool_decide_eq_true. apply map_size_empty_iff.
Qed.

Lemma no_keys_nonempty {V} (m : gmap string V) : no_keys m = false <-> m <> ∅.
Proof.
  rewrite <- no_keys_empty. destruct (no_keys m); split; congruence.
Qed.

Lemma lookup_foldl_delete {V} (l : list string) (m : gmap string V) (k : string) :
  foldl (fun m uid => delete uid m) m l !! k
  = if bool_decide (k ∈ l) then None else m !! k.
Proof.
  revert m. induction l as [|x l IH]; intros m; simpl; [reflexivity|].
  rewrite IH. destruct (decide (k ∈ l)) as [Hin|Hin].
  - rewrite (bool_decide_eq_true_2 _ Hin).
    rewrite bool_decide_eq_true_2 by (right; assumption). reflexivity.
  - rewrite (bool_decide_eq_false_2 _ Hin).
    destruct (decide (x = k)) as [->|Hne].
    + rewrite lookup_delete_eq. rewrite bool_decide_eq_true_2 by left. reflexivity.
    + rewrite lookup_delete_ne by assumption.
      rewrite bool_decide_eq_false_2; [reflexivity|].
      intros H. apply elem_of_cons in H as [->|H]; congruence.
Qed.

Lemma in_to_remove (now : float) (m : gmap string json) (k : string) :
  In k (map fst (List.filter (fun kv => timed_out now kv.2) (map_to_list m)))
  <-> exists ts, m !! k = Some ts /\ timed_out now ts = true.
Proof.
  rewrite in_map_iff. split.
  - intros ([k' ts] & Hk & Hin). simpl in Hk. subst k'.
    apply filter_In in Hin as [Hin Hto]. simpl in Hto.
    apply list_elem_of_In, elem_of_map_to_list in Hin. eauto.
  - intros (ts & Hk & Hto). exists (k, ts). split; [reflexivity|].
    apply filter_In. split; [|assumption].
    apply list_elem_of_In, elem_of_map_to_list. assumption.
Qed.

(** The presence map after pruning, entry by entry *)
Lemma prune_lookup (now : float) (ws : WorldState.t) (k : string) :
  WorldState.active_players (_prune_inactive_players now ws) !! k
  = match WorldState.active_players ws !! k with
    | Some ts => if timed_out now ts then None else Some ts
    | None => None
    end.
Proof.
  unfold _prune_inactive_players.
  set (to_remove := map fst _).
  assert (Hact : forall w, WorldState.active_players
            (if no_keys (foldl (fun m uid => delete uid m) (WorldState.active_players ws) to_remove)
             then WorldState.set_is_open false w else w)
            = WorldState.active_players w).
  { intros w. destruct (no_keys _); reflexivity. }
  rewrite Hact. simpl. rewrite lookup_foldl_delete.
  destruct (bool_decide (k ∈ to_remove)) eqn:Hin.
  - apply bool_decide_eq_true, list_elem_of_In, in_to_remove in Hin as (ts & -> & ->).
    reflexivity.
  - apply bool_decide_eq_false in Hin.
    destruct (WorldState.active_players ws !! k) as [ts|] eqn:Hk; [|reflexivity].
    destruct (timed_out now ts) eqn:Hto; [|reflexivity].
    exfalso. apply Hin, list_elem_of_In, in_to_remove. eauto.
Qed.

Lemma prune_is_open (now : float) (ws : WorldState.t) :
  WorldState.is_open (_prune_inactive_players now ws)
  = if no_keys (WorldState.active_players (_prune_inactive_players now ws))
    then false else WorldState.is_open ws.
Proof.
  unfold _prune_inactive_players.
  destruct (no_keys (foldl _ _ _)) eqn:E; simpl; rewrite E; reflexivity.
Qed.

(** Pruning writes the presence map and the flag, nothing else. *)
Lemma prune_frame (now : float) (ws : WorldState.t) :
  let ws' := _prune_inactive_players now ws in
  WorldState.world_id ws' = WorldState.world_id ws /\
  WorldState.tick ws' = WorldState.tick ws /\
  WorldState.regions ws' = WorldState.regions ws /\
  WorldState.players ws' = WorldState.players ws /\
  WorldState.history_summaries ws' = WorldState.history_summaries ws /\
  WorldState.chat_log ws' = WorldState.chat_log ws /\
  WorldState.story_log ws' = WorldState.story_log ws.
Proof.
  unfold _prune_inactive_players. destruct (no_keys _); repeat split.
Qed.

(** C10: pruning removes from [active_players] exactly the entries whose
    timestamp is older than [SESSION_TIMEOUT_SECONDS] (600 s) at [now] or
    cannot be converted to a number, keeps every other entry as it was, and
    sets [is_open] to false exactly when no entry is left, leaving the flag
    alone otherwise. *)
Theorem prune_removes_exactly_the_stale (now : float) (ws : WorldState.t) :
  let ws' := _prune_inactive_players now ws in
  (forall uid ts,
      WorldState.active_players ws' !! uid = Some ts <->
      WorldState.active_players ws !! uid = Some ts /\ ~ stale now ts) /\
  (WorldState.active_players ws' = ∅ -> WorldState.is_open ws' = false) /\
  (WorldState.active_players ws' <> ∅ ->
   WorldState.is_open ws' = WorldState.is_open ws) /\
  float_of_int 600 = Ok SESSION_TIMEOUT_SECONDS.
Proof.
  intros ws'. split; [|split; [|split]].
  - intros uid ts. unfold ws'. rewrite prune_lookup.
    destruct (WorldState.active_players ws !! uid) as [ts0|];
      [|split; [discriminate|intros [H _]; discriminate H]].
    destruct (timed_out now ts0) eqn:Hto.
    + split; [discriminate|]. intros [Heq Hns]. injection Heq as ->.
      exfalso. apply Hns, timed_out_stale. assumption.
    + split.
      * intros Heq. injection Heq as ->. split; [reflexivity|].
        rewrite <- timed_out_stale. congruence.
      * intros [H _]. exact H.
  - intros Hempty. unfold ws'. rewrite prune_is_open.
    apply no_keys_empty in Hempty. fold ws'. rewrite Hempty. reflexivity.
  - intros Hne. unfold ws'. rewrite prune_is_open.
    apply no_keys_nonempty in Hne. fold ws'. rewrite Hne. reflexivity.
  - reflexivity.
Qed.

(** Pruning never adds an entry. *)
Lemma prune_subset (now : float) (ws : WorldState.t) :
  WorldState.active_players (_prune_inactive_players now ws) <> ∅ ->
  WorldState.active_players ws <> ∅.
Proof.
  intros Hne Hempty. apply Hne. apply map_eq. intros k.
  rewrite prune_lookup, Hempty, !lookup_empty. reflexivity.
Qed.

Lemma prune_presence_consistent (now : float) (ws : WorldState.t) :
  presence_consistent ws -> presence_consistent (_prune_inactive_players now ws).
Proof.
  unfold presence_consistent. intros Hws Hne.
  rewrite prune_is_open. apply no_keys_nonempty in Hne as Hk. rewrite Hk.
  apply Hws. eapply prune_subset. eassumption.
Qed.

Lemma leave_world_saves (now : float) (user_id world_id : string) (st : store)
    (ws : WorldState.t) :
  load_world world_id st = Some ws ->
  leave_world now user_id world_id st = save_world (left_world now user_id ws) st.
Proof. unfold leave_world. intros ->. reflexivity. Qed.

Lemma left_world_fields (now : float) (user_id : string) (ws : WorldState.t) :
  let pruned := _prune_inactive_players now ws in
  let ws' := left_world now user_id ws in
  WorldState.world_id ws' = WorldState.world_id ws /\
  WorldState.active_players ws' = delete user_id (WorldState.active_players pruned) /\
  WorldState.is_open ws'
  = (if no_keys (WorldState.active_players ws') then false
     else WorldState.is_open pruned) /\
  WorldState.history_summaries ws' = WorldState.history_summaries ws /\
  WorldState.chat_log ws' = WorldState.chat_log ws /\
  WorldState.story_log ws' = WorldState.story_log ws.
Proof.
  intros pruned ws'. unfold ws', left_world. fold pruned.
  destruct (prune_frame now ws) as (Hid & _ & _ & _ & Hh & Hc & Hs). fold pruned in Hid, Hh, Hc, Hs.
  destruct (no_keys (delete user_id (WorldState.active_players pruned))) eqn:E;
    simpl; rewrite E; repeat split; assumption.
Qed.

(** C6: [leave_world] on an existing world, stored open whenever somebody is
    present in it (which is how every entry point leaves it), removes the
    leaving user from [active_players] whatever the state of the entry, after
    the prune, and writes the world back with [is_open] re-derived: false when
    nobody is left, true when somebody still is. *)
Theorem leave_world_rederives_is_open (now : float) (user_id world_id : string)
    (st : store) (ws : WorldState.t) :
  load_world world_id st = Some ws ->
  presence_consistent ws ->
  exists ws',
    load_world (WorldState.world_id ws) (leave_world now user_id world_id st) = Some ws' /\
    WorldState.active_players ws'
    = delete user_id (WorldState.active_players (_prune_inactive_players now ws)) /\
    WorldState.active_players ws' !! user_id = None /\
    (WorldState.active_players ws' = ∅ -> WorldState.is_open ws' = false) /\
    (WorldState.active_players ws' <> ∅ -> WorldState.is_open ws' = true).
Proof.
  intros Hload Hpc.
  rewrite (leave_world_saves _ _ _ _ _ Hload).
  destruct (left_world_fields now user_id ws) as (Hid & Hact & Hopen & _).
  exists (left_world now user_id ws).
  split; [|split; [|split; [|split]]].
  - unfold load_world, save_world. rewrite Hid. apply lookup_insert_eq.
  - exact Hact.
  - rewrite Hact. apply lookup_delete_eq.
  - intros Hempty. rewrite Hopen. apply no_keys_empty in Hempty. rewrite Hempty.
    reflexivity.
  - intros Hne. rewrite Hopen. apply no_keys_nonempty in Hne as Hk. rewrite Hk.
    apply (prune_presence_consistent now ws Hpc).
    intros Hempty. apply Hne. rewrite Hact, Hempty. apply delete_empty.
Qed.

(** *** The bounded logs *)

Lemma last_n_length {A} (n : nat) (l : list A) : length (last_n n l) = min n (length l).
Proof. unfold last_n. rewrite length_drop. lia. Qed.

(** [l[-n:]] drops from the front: what is left is the newest end of [l]. *)
Lemma last_n_suffix {A} (n : nat) (l : list A) :
  exists evicted, l = evicted ++ last_n n l /\ length evicted = length l - n.
Proof.
  exists (take (length l - n) l). unfold last_n. split.
  - symmetry. apply take_drop.
  - rewrite length_take. lia.
Qed.

Lemma append_capped_last_n {A} (cap : nat) (l : list A) (x : A) :
  append_capped cap l x = last_n cap (l ++ [x]).
Proof.
  unfold append_capped, last_n. destruct (cap <? length (l ++ [x])) eqn:E.
  - reflexivity.
  - apply Nat.ltb_ge in E. replace (length (l ++ [x]) - cap) with 0 by lia.
    reflexivity.
Qed.

Lemma append_capped_length {A} (cap : nat) (l : list A) (x : A) :
  length (append_capped cap l x) <= cap.
Proof. rewrite append_capped_last_n, last_n_length. lia. Qed.

(** The newest entry is always kept (for a cap of at least one). *)
Lemma append_capped_keeps_newest {A} (cap : nat) (l : list A) (x : A) :
  0 < cap -> last (append_capped cap l x) = Some x.
Proof.
  intros Hcap. rewrite append_capped_last_n. unfold last_n.
  rewrite length_app. simpl.
  rewrite drop_app_le by lia. apply last_snoc.
Qed.

Lemma talk_to_player_chat (user_id : string) (a : Action.t) (p : PlayerState.t)
    (st st' : resolver) :
  talk_to_player user_id a p st = Ok st' ->
  length (WorldState.chat_log (r_world st)) <= CHAT_CAP ->
  length (WorldState.chat_log (r_world st')) <= CHAT_CAP.
Proof.
  unfold talk_to_player. intros H Hcap. inv_bind H. inv_ok. simpl.
  destruct (truthy _); simpl; [apply append_capped_length|assumption].
Qed.

Lemma resolve_action_chat (C : Collaborators) (user_id : string)
    (st st' : resolver) (a : Action.t) :
  resolve_action C user_id st a = Ok st' ->
  length (WorldState.chat_log (r_world st)) <= CHAT_CAP ->
  length (WorldState.chat_log (r_world st')) <= CHAT_CAP.
Proof.
  unfold resolve_action.
  destruct (eq_str (Action.type a) "MOVE" && truthy (Action.target_region_id a)).
  - intros H. inv_bind H. destruct x; [|inv_ok; auto].
    destruct (Action.target_region_id a); inv_ok; auto.
    inv_bind H. inv_ok. simpl. auto.
  - destruct (eq_str (Action.type a) "FAST_FORWARD").
    + intros H. inv_bind H. inv_ok. simpl. auto.
    + destruct (eq_str (Action.type a) "TALK"); [|intros H; inv_ok; auto].
      destruct (find_target_player _ _) as [p|]; intros H.
      * eapply talk_to_player_chat. eassumption.
      * apply talk_to_npc_frame in H as (_ & _ & ->). auto.
Qed.

(** What [_update_world] leaves alone, and the chat cap it respects *)
Lemma _update_world_frame (C : Collaborators) (ws ws' : WorldState.t)
    (user_id : string) (actions : list Action.t) (ty : json)
    (special : option json) (notes : string) :
  _update_world C ws user_id actions = Ok (ws', ty, special, notes) ->
  WorldState.world_id ws' = WorldState.world_id ws /\
  WorldState.history_summaries ws' = WorldState.history_summaries ws /\
  WorldState.active_players ws' = WorldState.active_players ws /\
  WorldState.story_log ws' = WorldState.story_log ws /\
  WorldState.is_open ws' = WorldState.is_open ws /\
  (length (WorldState.chat_log ws) <= CHAT_CAP ->
   length (WorldState.chat_log ws') <= CHAT_CAP).
Proof.
  intros H.
  apply _update_world_stages in H as (st & ws1 & note & Hres & Hadv & Hq).
  unfold resolve_actions in Hres.
  assert (Hchat : length (WorldState.chat_log ws) <= CHAT_CAP ->
                  length (WorldState.chat_log (r_world st)) <= CHAT_CAP).
  { intros Hcap.
    apply (foldM_invariant
             (fun s => length (WorldState.chat_log (r_world s)) <= CHAT_CAP)
             (resolve_action C user_id)) in Hres; [assumption| |assumption].
    intros s b s' Hs Hstep. eapply resolve_action_chat; eassumption. }
  apply resolve_loop_frame in Hres as [(Hid & _ & _ & _ & _ & Hh & Ha & Hs & Ho) _].
  simpl in *.
  apply advance_frame in Hadv as (Hid1 & _ & _ & Hh1 & Ha1 & Hc1 & Hs1 & Ho1).
  apply quest_continuity_frame in Hq as (Hid2 & _ & _ & Hh2 & Ha2 & Hc2 & Hs2 & Ho2).
  repeat split; try congruence.
  intros Hcap. rewrite Hc2, Hc1. auto.
Qed.

(** A new world starts with empty chat and story logs, nobody present, and the
    architect's history notes as its history. *)
Lemma new_world_fields (C : Collaborators) (world_id seed : string)
    (ws : WorldState.t) :
  new_world C world_id seed = Ok ws ->
  WorldState.world_id ws = world_id /\
  WorldState.tick ws = 0%Z /\
  WorldState.players ws = [] /\
  WorldState.chat_log ws = [] /\
  WorldState.story_log ws = [] /\
  WorldState.active_players ws = ∅ /\
  WorldState.is_open ws = false /\
  WorldState.metrics ws = WorldMetrics.new /\
  seeded_notes C = Some (WorldState.history_summaries ws).
Proof.
  unfold new_world, seeded_notes. intros H. do 13 inv_bind H. inv_ok. simpl.
  repeat split. rewrite E3. destruct x3; try discriminate. inv_ok. reflexivity.
Qed.

Lemma _load_or_init_world_state_fields (C : Collaborators)
    (user_id world_id seed : string) (st : store) (ws : WorldState.t) :
  _load_or_init_world_state C user_id world_id seed st = Ok ws ->
  exists ws0,
    turn_origin C world_id seed st ws0 /\
    WorldState.world_id ws = WorldState.world_id ws0 /\
    WorldState.tick ws = WorldState.tick ws0 /\
    WorldState.regions ws = WorldState.regions ws0 /\
    WorldState.history_summaries ws = WorldState.history_summaries ws0 /\
    WorldState.chat_log ws = WorldState.chat_log ws0 /\
    WorldState.story_log ws = WorldState.story_log ws0 /\
    WorldState.active_players ws = WorldState.active_players ws0 /\
    WorldState.is_open ws = WorldState.is_open ws0 /\
    (has_key (WorldState.players ws0) user_id = true /\
     WorldState.players ws = WorldState.players ws0 \/
     has_key (WorldState.players ws0) user_id = false /\
     exists first_region_id r rest,
       WorldState.regions ws0 = (first_region_id, r) :: rest /\
       WorldState.players ws
       = WorldState.players ws0 ++ [(user_id, first_sight user_id first_region_id)]).
Proof.
  unfold _load_or_init_world_state. intros H. inv_bind H.
  exists x. split.
  { unfold turn_origin. destruct (load_world world_id st) as [w|]; inv_ok; auto. }
  destruct (has_key (WorldState.players x) user_id) eqn:Hk.
  - inv_ok. repeat split. left. split; reflexivity.
  - destruct (WorldState.regions x) as [|[rid r] rest] eqn:Hr; inv_ok.
    simpl. repeat split; try assumption. right. split; [reflexivity|]. eauto.
Qed.

(** *** The two turn variants *)

Lemma log_command_fields (user_id message : string) (ws : WorldState.t) :
  let ws' := log_command user_id message ws in
  WorldState.world_id ws' = WorldState.world_id ws /\
  WorldState.tick ws' = WorldState.tick ws /\
  WorldState.players ws' = WorldState.players ws /\
  WorldState.chat_log ws' = WorldState.chat_log ws /\
  WorldState.story_log ws' = WorldState.story_log ws /\
  WorldState.active_players ws' = WorldState.active_players ws /\
  WorldState.is_open ws' = WorldState.is_open ws /\
  WorldState.history_summaries ws'
  = (if blank_command message then WorldState.history_summaries ws
     else append_capped HISTORY_CAP (WorldState.history_summaries ws)
            (JStr (user_id +:+ ": " +:+ strip (str_or (Some message) "WAIT")))).
Proof.
  unfold log_command, blank_command.
  destruct (String.eqb _ ""); repeat split.
Qed.

Lemma begin_turn_fields (C : Collaborators) (clock : nat -> float)
    (user_id world_id message : string) (seed : option string) (st : store)
    (ws : WorldState.t) :
  begin_turn C clock user_id world_id message seed st = Ok ws ->
  exists ws0,
    turn_origin C world_id (str_or seed (str_or (Some message) "Create a new world."))
      st ws0 /\
    WorldState.world_id ws = WorldState.world_id ws0 /\
    WorldState.tick ws = WorldState.tick ws0 /\
    WorldState.chat_log ws = WorldState.chat_log ws0 /\
    WorldState.story_log ws = WorldState.story_log ws0 /\
    WorldState.is_open ws = true /\
    WorldState.active_players ws !! user_id = Some (JFloat (clock 1)) /\
    WorldState.history_summaries ws
    = (if blank_command message then WorldState.history_summaries ws0
       else append_capped HISTORY_CAP (WorldState.history_summaries ws0)
              (JStr (user_id +:+ ": " +:+ strip (str_or (Some message) "WAIT")))).
Proof.
  unfold begin_turn. intros H. inv_bind H. inv_ok.
  apply _load_or_init_world_state_fields in E
    as (ws0 & Ho & Hid & Ht & _ & Hh & Hc & Hs & _).
  exists ws0. split; [assumption|].
  match goal with |- context [log_command ?u ?m ?w] =>
    destruct (log_command_fields u m w) as (Lid & Lt & _ & Lc & Ls & La & Lo & Lh)
  end.
  destruct (prune_frame (clock 0) x) as (Pid & Pt & _ & _ & Ph & Pc & Ps).
  rewrite Lid, Lt, Lc, Ls, La, Lo, Lh. simpl.
  rewrite Pid, Pt, Pc, Ps, Ph, Hid, Ht, Hc, Hs, Hh.
  repeat split. apply lookup_insert_eq.
Qed.

Lemma handle_turn_result (C : Collaborators) (clock : nat -> float)
    (user_id world_id message : string) (seed : option string) (st st' : store)
    (out : string) :
  handle_turn C clock user_id world_id message seed st = Ok (out, st') ->
  exists ws1 ws' actions,
    begin_turn C clock user_id world_id message seed st = Ok ws1 /\
    _parse_actions (interpreter_reply C) = Ok actions /\
    st' = save_world ws' st /\
    WorldState.world_id ws' = WorldState.world_id ws1 /\
    WorldState.history_summaries ws' = WorldState.history_summaries ws1 /\
    WorldState.active_players ws' = WorldState.active_players ws1 /\
    WorldState.is_open ws' = WorldState.is_open ws1 /\
    (length (WorldState.chat_log ws1) <= CHAT_CAP ->
     length (WorldState.chat_log ws') <= CHAT_CAP) /\
    length (WorldState.story_log ws') <= STORY_CAP /\
    exists ws2 ty special notes,
      _update_world C ws1 user_id actions = Ok (ws2, ty, special, notes) /\
      WorldState.tick ws' = WorldState.tick ws2.
Proof.
  unfold handle_turn. intros H. do 4 inv_bind H.
  destruct x2 as [[[ws2 ty] special] notes].
  do 5 inv_bind H. inv_ok.
  apply _update_world_frame in E2 as Hf. destruct Hf as (Hid & Hh & Ha & Hs & Ho & Hc).
  eexists x, _, x1. split; [assumption|]. split; [assumption|].
  split; [reflexivity|]. simpl.
  repeat split; try assumption.
  - apply append_capped_length.
  - eauto 10.
Qed.

Lemma apply_action_only_result (C : Collaborators) (clock : nat -> float)
    (user_id world_id message : string) (seed : option string) (st st' : store) :
  apply_action_only C clock user_id world_id message seed st = Ok st' ->
  exists ws1 ws' actions,
    begin_turn C clock user_id world_id message seed st = Ok ws1 /\
    _parse_actions (interpreter_reply C) = Ok actions /\
    st' = save_world ws' st /\
    WorldState.world_id ws' = WorldState.world_id ws1 /\
    WorldState.history_summaries ws' = WorldState.history_summaries ws1 /\
    WorldState.active_players ws' = WorldState.active_players ws1 /\
    WorldState.is_open ws' = WorldState.is_open ws1 /\
    (length (WorldState.chat_log ws1) <= CHAT_CAP ->
     length (WorldState.chat_log ws') <= CHAT_CAP) /\
    WorldState.story_log ws' = WorldState.story_log ws1 /\
    exists ty special notes,
      _update_world C ws1 user_id actions = Ok (ws', ty, special, notes).
Proof.
  unfold apply_action_only. intros H. do 4 inv_bind H. inv_ok.
  destruct x2 as [[[ws2 ty] special] notes].
  apply _update_world_frame in E2 as Hf. destruct Hf as (Hid & Hh & Ha & Hs & Ho & Hc).
  exists x, ws2, x1. simpl. repeat split; try assumption. eauto.
Qed.

(** A turn starts from logs within their caps when the store holds such
    worlds only and a new world is not seeded beyond the cap unnoticed. *)
Lemma begin_turn_caps (C : Collaborators) (clock : nat -> float)
    (user_id world_id message : string) (seed : option string) (st : store)
    (ws : WorldState.t) :
  store_caps st ->
  (load_world world_id st = None ->
   blank_command message = false \/
   forall notes, seeded_notes C = Some notes -> length notes <= HISTORY_CAP) ->
  begin_turn C clock user_id world_id message seed st = Ok ws ->
  caps_ok ws.
Proof.
  intros Hst Hseed H.
  apply begin_turn_fields in H as (ws0 & Ho & _ & _ & Hc & Hs & _ & _ & Hh).
  unfold caps_ok. rewrite Hc, Hs, Hh.
  destruct Ho as [Hload|[Hnone Hnew]].
  - destruct (Hst _ _ Hload) as (H1 & H2 & H3).
    repeat split; try assumption.
    destruct (blank_command message); [assumption|apply append_capped_length].
  - apply new_world_fields in Hnew as (_ & _ & _ & -> & -> & _ & _ & _ & Hnotes).
    repeat split; simpl; try lia.
    destruct (blank_command message) eqn:Hb; [|apply append_capped_length].
    destruct (Hseed Hnone) as [?|Hn]; [discriminate|]. apply Hn. assumption.
Qed.

Lemma store_caps_save (ws : WorldState.t) (st : store) :
  store_caps st -> caps_ok ws -> store_caps (save_world ws st).
Proof.
  unfold store_caps, save_world. intros Hst Hws k w Hk.
  destruct (decide (WorldState.world_id ws = k)) as [<-|Hne].
  - rewrite lookup_insert_eq in Hk. congruence.
  - rewrite lookup_insert_ne in Hk by assumption. eauto.
Qed.

Lemma store_presence_save (ws : WorldState.t) (st : store) :
  store_presence st -> presence_consistent ws -> store_presence (save_world ws st).
Proof.
  unfold store_presence, save_world. intros Hst Hws k w Hk.
  destruct (decide (WorldState.world_id ws = k)) as [<-|Hne].
  - rewrite lookup_insert_eq in Hk. injection Hk as <-. assumption.
  - rewrite lookup_insert_ne in Hk by assumption. eauto.
Qed.

Lemma left_world_presence (now : float) (user_id : string) (ws : WorldState.t) :
  presence_consistent ws -> presence_consistent (left_world now user_id ws).
Proof.
  intros Hpc Hne.
  destruct (left_world_fields now user_id ws) as (_ & Hact & Hopen & _).
  rewrite Hopen. apply no_keys_nonempty in Hne as Hk. rewrite Hk.
  apply (prune_presence_consistent now ws Hpc).
  intros Hempty. apply Hne. rewrite Hact, Hempty. apply delete_empty.
Qed.

(** Every entry point keeps the store in a state where a world with somebody
    present is open; the empty store is such a state. *)
Lemma run_keeps_presence_consistent (op : operation) (st st' : store) :
  store_presence st -> run op st = Ok st' -> store_presence st'.
Proof.
  intros Hst. destruct op; simpl; intros H.
  - inv_bind H. inv_ok. destruct x as [out s]. simpl.
    apply handle_turn_result in E
      as (ws1 & ws' & acts & Hb & _ & -> & _ & _ & _ & Ho & _).
    apply begin_turn_fields in Hb as (ws0 & _ & _ & _ & _ & _ & Hopen & _).
    apply store_presence_save; [assumption|]. intros _. congruence.
  - apply apply_action_only_result in H
      as (ws1 & ws' & acts & Hb & _ & -> & _ & _ & _ & Ho & _).
    apply begin_turn_fields in Hb as (ws0 & _ & _ & _ & _ & _ & Hopen & _).
    apply store_presence_save; [assumption|]. intros _. congruence.
  - inv_bind H. inv_ok. unfold get_state_view in E.
    destruct (load_world world_id st); [inv_bind E|]; inv_ok; assumption.
  - inv_ok. unfold leave_world. destruct (load_world world_id st) as [ws|] eqn:Hl;
      [|assumption].
    apply store_presence_save; [assumption|].
    apply (left_world_presence now user_id ws). eapply Hst. exact Hl.
  - inv_ok. unfold api_chat.
    destruct (_ || _); [assumption|].
    destruct (load_world (strip world_id) st) as [ws|] eqn:Hl; [|assumption].
    simpl. apply store_presence_save; [assumption|].
    exact (Hst _ _ Hl).
Qed.

Lemma empty_store_presence : store_presence ∅.
Proof. intros k ws H. rewrite lookup_empty in H. discriminate. Qed.


(** *** Reading a world that does not exist *)

(** C9: when the store has no snapshot for the world id, [get_state_view]
    raises nothing, answers with the "does not exist yet" story and an empty
    visual, and leaves the store as it found it. *)
Theorem read_of_unknown_world (now : float) (user_id world_id : string) (st : store) :
  load_world world_id st = None ->
  get_state_view now user_id world_id st
  = Ok ({| visual := "";
           story := JStr "This world does not exist yet. Create it by sending an action." |},
        st).
Proof. unfold get_state_view. intros ->. reflexivity. Qed.

(** Reading never writes, whether the world exists or not. *)
Lemma get_state_view_keeps_store (now : float) (user_id world_id : string)
    (st st' : store) (v : view) :
  get_state_view now user_id world_id st = Ok (v, st') -> st' = st.
Proof.
  unfold get_state_view. destruct (load_world world_id st); intros H.
  - inv_bind H. inv_ok. reflexivity.
  - inv_ok. reflexivity.
Qed.

(** *** Creating a world *)

Lemma new_world_fallback_region (C : Collaborators) (world_id seed : string)
    (ws : WorldState.t) (rl : json) :
  py_get (architect_reply C) "regions" (JList []) = Ok rl ->
  truthy rl = false ->
  new_world C world_id seed = Ok ws ->
  WorldState.regions ws = [("glass_whale_bay", fallback_bay)].
Proof.
  intros Hrl Hfalsy. unfold new_world. rewrite Hrl. simpl. rewrite Hfalsy. simpl.
  intros H. do 9 inv_bind H. inv_ok. reflexivity.
Qed.

(** A collaborator that failed counts as the empty object; the world it
    leads to is this one. *)
Lemma new_world_from_empty_reply (C : Collaborators)
    (user_id world_id seed : string) (st : store) :
  load_world world_id st = None ->
  architect_reply C = JObj [] ->
  _load_or_init_world_state C user_id world_id seed st
  = Ok (WorldState.mk world_id seed 0 [("glass_whale_bay", fallback_bay)] ∅
          [(user_id, first_sight user_id "glass_whale_bay")] ∅ WorldMetrics.new
          [] [] ∅ None (JStr "medium") [] [] false).
Proof.
  intros Hload Hreply. unfold _load_or_init_world_state, new_world.
  rewrite Hload, Hreply. reflexivity.
Qed.

(** C8: in a world created for a new id the first player is the only player,
    stands in the first region of the world and has the default stats
    courage, empathy and cunning at 0.5; when the architect returned no
    regions, the regions of the world are exactly the one fallback region,
    whose type is "bay". *)
Theorem new_world_first_player (C : Collaborators) (user_id world_id seed : string)
    (st : store) (ws : WorldState.t) :
  load_world world_id st = None ->
  _load_or_init_world_state C user_id world_id seed st = Ok ws ->
  (exists first r rest p,
      WorldState.regions ws = (first, r) :: rest /\
      WorldState.players ws = [(user_id, p)] /\
      PlayerState.location_region_id p = first /\
      PlayerState.stats p
      = <["courage" := f0_5]> (<["empathy" := f0_5]> (<["cunning" := f0_5]> ∅))) /\
  (forall rl,
      py_get (architect_reply C) "regions" (JList []) = Ok rl ->
      truthy rl = false ->
      WorldState.regions ws = [("glass_whale_bay", fallback_bay)] /\
      Region.type fallback_bay = JStr "bay").
Proof.
  intros Hload H.
  apply _load_or_init_world_state_fields in H
    as (ws0 & Ho & _ & _ & Hr & _ & _ & _ & _ & _ & Hp).
  destruct Ho as [Hsome|[_ Hnew]]; [congruence|].
  pose proof (new_world_fields _ _ _ _ Hnew) as (_ & _ & Hnone & _).
  split.
  - destruct Hp as [[Hk _]|(_ & first & r & rest & Hregs & Hplayers)].
    + rewrite Hnone in Hk. discriminate.
    + exists first, r, rest, (first_sight user_id first).
      rewrite Hr, Hregs, Hplayers, Hnone. repeat split.
  - intros rl Hrl Hfalsy. split; [|reflexivity].
    rewrite Hr. eapply new_world_fallback_region; eassumption.
Qed.

(** In any world, a user seen for the first time is placed in the first
    region with the default stats. *)
Lemma new_player_in_first_region (C : Collaborators)
    (user_id world_id seed : string) (st : store) (ws0 ws : WorldState.t) :
  load_world world_id st = Some ws0 ->
  has_key (WorldState.players ws0) user_id = false ->
  _load_or_init_world_state C user_id world_id seed st = Ok ws ->
  exists first r rest,
    WorldState.regions ws0 = (first, r) :: rest /\
    WorldState.players ws
    = WorldState.players ws0 ++ [(user_id, first_sight user_id first)].
Proof.
  intros Hload Hk. unfold _load_or_init_world_state. rewrite Hload. simpl.
  rewrite Hk. destruct (WorldState.regions ws0) as [|[first r] rest]; intros H; inv_ok.
  eauto.
Qed.

(** *** Quest continuity *)

Lemma quest_step_cases (acc m : gmap string Quest.t) (q : json) :
  quest_step acc q = Ok m ->
  m = match accepted_quest q with
      | Some kq => <[kq.1 := kq.2]> acc
      | None => acc
      end.
Proof.
  unfold quest_step, accepted_quest.
  destruct (make_quest q) as [kq|e|]; simpl; intros H; inv_ok; reflexivity.
Qed.

Lemma build_quests_from (items : list json) (acc m : gmap string Quest.t) :
  foldM quest_step acc items = Ok m ->
  m = foldl (fun m kv => <[kv.1 := kv.2]> m) acc (omap accepted_quest items).
Proof.
  revert acc. induction items as [|q items IH]; simpl; intros acc H.
  - inv_ok. reflexivity.
  - inv_bind H. apply quest_step_cases in E. subst x.
    apply IH in H. rewrite H.
    destruct (accepted_quest q); reflexivity.
Qed.

Lemma build_quests_accepted (items : list json) (m : gmap string Quest.t) :
  build_quests items = Ok m -> m = dict_of_items (omap accepted_quest items).
Proof. apply build_quests_from. Qed.

(** A dict built from at least one item is not empty. *)
Lemma dict_of_items_no_keys {V} (l : list (string * V)) :
  no_keys (dict_of_items l) = match l with [] => true | _ => false end.
Proof.
  unfold dict_of_items.
  destruct l as [|kv l _] using rev_ind; [reflexivity|].
  rewrite foldl_snoc.
  replace (match l ++ [kv] with [] => true | _ => false end) with false
    by (destruct l; reflexivity).
  apply no_keys_nonempty, insert_non_empty.
Qed.

(** The value under a key is the one of the last item with that key. *)
Lemma dict_of_items_lookup {V} (l : list (string * V)) (k : string) :
  dict_of_items l !! k = assoc k (reverse l).
Proof.
  unfold dict_of_items.
  induction l as [|[k' v] l IH] using rev_ind; [reflexivity|].
  rewrite foldl_snoc, reverse_snoc. simpl.
  destruct (String.eqb k k') eqn:E.
  - apply String.eqb_eq in E. subst. apply lookup_insert_eq.
  - apply String.eqb_neq in E. rewrite lookup_insert_ne by congruence. exact IH.
Qed.

(** C7, as the code has it: when the quest master returns a list of which at
    least one entry makes a quest (an object with a string id), the quest map
    becomes exactly the dict of those entries, every other quest dropped;
    when it returns nothing, or no entry of the list makes a quest, the quest
    map is left as it was. *)
Theorem quest_map_replaced_by_accepted (C : Collaborators) (user_id : string)
    (ws ws' : WorldState.t) (note : option string) :
  quest_continuity C user_id ws = Ok (ws', note) ->
  exists quests_out,
    py_get (quest_reply C) "quests" (JList []) = Ok quests_out /\
    (truthy quests_out = false -> WorldState.quests ws' = WorldState.quests ws) /\
    (truthy quests_out = true ->
     exists items,
       py_iter quests_out = Ok items /\
       WorldState.quests ws'
       = match omap accepted_quest items with
         | [] => WorldState.quests ws
         | accepted => dict_of_items accepted
         end).
Proof.
  unfold quest_continuity. intros H. do 8 inv_bind H. inv_ok.
  exists x0. split; [assumption|]. simpl.
  destruct (truthy x0).
  - split; [discriminate|]. intros _.
    do 2 inv_bind E2. inv_ok.
    match goal with
    | Hi : py_iter x0 = Ok ?items, Hb : build_quests ?items = Ok ?m |- _ =>
        exists items; split; [exact Hi|];
        apply build_quests_accepted in Hb; subst m
    end.
    rewrite dict_of_items_no_keys.
    destruct (omap accepted_quest _); reflexivity.
  - inv_ok. split; [reflexivity|discriminate].
Qed.

(** *** A turn whose collaborators all degrade to the empty object *)

Lemma assoc_alist_set_eq {V} (k : string) (v : V) (l : list (string * V)) :
  assoc k (alist_set k v l) = Some v.
Proof.
  induction l as [|[k' v'] l IH]; simpl.
  - rewrite String.eqb_refl. reflexivity.
  - destruct (String.eqb k k') eqn:E; simpl.
    + rewrite String.eqb_refl. reflexivity.
    + rewrite E. exact IH.
Qed.

Lemma alist_set_not_nil {V} (k : string) (v : V) (l : list (string * V)) :
  alist_set k v l <> [].
Proof. destruct l as [|[k' v'] l]; simpl; [|destruct (String.eqb k k')]; discriminate. Qed.

Lemma get_player_put_player (user_id : string) (p : PlayerState.t) (ws : WorldState.t) :
  get_player user_id (put_player user_id p ws) = Ok p.
Proof. unfold get_player, put_player. simpl. rewrite assoc_alist_set_eq. reflexivity. Qed.

(** The summary raises or not by the regions, the history and whether there
    is a player at all. *)
Lemma _summarize_world_put_player (user_id : string) (p : PlayerState.t)
    (ws ws' : WorldState.t) :
  WorldState.players ws <> [] ->
  WorldState.regions ws' = WorldState.regions ws ->
  WorldState.history_summaries ws' = WorldState.history_summaries ws ->
  WorldState.players ws' = alist_set user_id p (WorldState.players ws) ->
  _summarize_world ws' = _summarize_world ws.
Proof.
  intros Hne Hr Hh Hp. unfold _summarize_world. rewrite Hr, Hh, Hp.
  pose proof (alist_set_not_nil user_id p (WorldState.players ws)) as Hne'.
  destruct (alist_set user_id p (WorldState.players ws)); [congruence|].
  destruct (WorldState.players ws); [congruence|]. reflexivity.
Qed.

Lemma empty_stat_changes (p : PlayerState.t) :
  _apply_stat_changes p (JObj []) = Ok (PlayerState.set_stats (PlayerState.stats p) p).
Proof. reflexivity. Qed.

(** With every collaborator degraded to the empty object, a turn that is one
    FAST_FORWARD completes and advances the tick by [max(1, days)]. *)
Lemma quiet_fast_forward_returns (ws : WorldState.t) (user_id : string)
    (params : json) :
  has_key (WorldState.players ws) user_id = true ->
  _summarize_world ws = Ok tt ->
  exists ws' notes,
    _update_world quiet ws user_id
      [Action.mk (JStr "FAST_FORWARD") JNull JNull params]
    = Ok (ws', JStr "FAST_FORWARD", None, notes) /\
    WorldState.tick ws'
    = (WorldState.tick ws + Z.max 1 (parsed_days params))%Z /\
    WorldState.metrics ws'
    = WorldMetrics.mk
        (clamp01 (fadd (WorldMetrics.world_health (WorldState.metrics ws)) f0))
        (clamp01 (fadd (WorldMetrics.chaos_level (WorldState.metrics ws)) f0))
        (clamp01 (fadd (WorldMetrics.magic_level (WorldState.metrics ws)) f0))
        (clamp01 (fadd (WorldMetrics.alliance_tension (WorldState.metrics ws)) f0)).
Proof.
  intros Hkey Hsum.
  destruct (has_key_get_player _ _ Hkey) as [p Hp].
  assert (Hne : WorldState.players ws <> []).
  { unfold get_player in Hp. destruct (WorldState.players ws); [discriminate|discriminate]. }
  unfold _update_world, resolve_actions. rewrite Hp. simpl.
  unfold resolve_action. simpl. rewrite days_of_parsed. simpl.
  unfold advance. simpl. rewrite Hsum. simpl.
  unfold get_player at 1. simpl. fold (get_player user_id ws). rewrite Hp. simpl.
  set (ws1 := put_player user_id _ (WorldState.set_metrics _ ws)).
  set (ws2 := WorldState.set_tick _ (WorldState.set_last_events [] ws1)).
  assert (Hsum2 : _summarize_world ws2 = Ok tt).
  { rewrite <- Hsum.
    apply (_summarize_world_put_player user_id
             (PlayerState.set_stats (PlayerState.stats p) p)); auto. }
  unfold quest_continuity. simpl. rewrite Hsum2. simpl.
  assert (Hp2 : get_player user_id ws2
                = Ok (PlayerState.set_stats (PlayerState.stats p) p)).
  { unfold ws2, ws1, get_player, put_player. simpl.
    rewrite assoc_alist_set_eq. reflexivity. }
  rewrite Hp2. simpl.
  eexists _, _. split; [reflexivity|]. split; reflexivity.
Qed.

(** The tick of a full turn: the stored (or new) world's tick plus the ticks
    the last FAST_FORWARD asks for, or plus one. *)
Lemma full_turn_tick (C : Collaborators) (clock : nat -> float)
    (user_id world_id message : string) (seed : option string) (st st' : store)
    (out : string) :
  handle_turn C clock user_id world_id message seed st = Ok (out, st') ->
  exists ws0 ws' actions,
    turn_origin C world_id (str_or seed (str_or (Some message) "Create a new world."))
      st ws0 /\
    _parse_actions (interpreter_reply C) = Ok actions /\
    st' = save_world ws' st /\
    WorldState.tick ws'
    = (WorldState.tick ws0
       + match last_fast_forward actions with
         | Some a => Z.max 1 (parsed_days (Action.params a))
         | None => 1
         end)%Z.
Proof.
  intros H.
  apply handle_turn_result in H
    as (ws1 & ws' & actions & Hb & Hp & Hs & _ & _ & _ & _ & _ & _ & Hu).
  destruct Hu as (ws2 & ty & special & notes & Hu & Ht).
  apply begin_turn_fields in Hb as (ws0 & Ho & _ & Ht0 & _).
  exists ws0, ws', actions. repeat split; try assumption.
  rewrite Ht, <- Ht0.
  apply _update_world_ticks in Hu as (s & _ & Hn & Htick). congruence.
Qed.

(** *** Moving *)

Lemma assoc_alist_set_ne {V} (k k' : string) (v : V) (l : list (string * V)) :
  k' <> k -> assoc k' (alist_set k v l) = assoc k' l.
Proof.
  intros Hne. induction l as [|[k0 v0] l IH]; simpl.
  - destruct (String.eqb_spec k' k); [contradiction|reflexivity].
  - destruct (String.eqb_spec k k0) as [->|Hk]; simpl.
    + destruct (String.eqb_spec k' k0); [contradiction|reflexivity].
    + destruct (String.eqb_spec k' k0); [reflexivity|exact IH].
Qed.

Lemma alist_set_keys {V} (k : string) (v : V) (l : list (string * V)) :
  is_Some (assoc k l) -> map fst (alist_set k v l) = map fst l.
Proof.
  induction l as [|[k0 v0] l IH]; simpl; intros H.
  - destruct H; discriminate.
  - destruct (String.eqb_spec k k0) as [->|Hk]; simpl; [reflexivity|].
    f_equal. apply IH, H.
Qed.

(** X1: a MOVE whose target is not the id of a region of the world (an
    unknown name, a number, [None], the empty string) is ignored: the loop
    state after the action is the loop state before it. *)
Theorem move_to_unknown_region_is_ignored (C : Collaborators) (user_id : string)
    (st : resolver) (a : Action.t) :
  eq_str (Action.type a) "MOVE" = true ->
  hashable (Action.target_region_id a) = true ->
  (forall s, Action.target_region_id a = JStr s ->
             has_key (WorldState.regions (r_world st)) s = false) ->
  resolve_action C user_id st a = Ok st.
Proof.
  intros Hty Hh Hun. unfold resolve_action.
  apply eq_str_true in Hty. rewrite Hty.
  destruct (truthy (Action.target_region_id a)) eqn:Ht; simpl; [|reflexivity].
  destruct (Action.target_region_id a) as [| | | |s| |] eqn:E; simpl in *;
    try discriminate; try reflexivity.
  rewrite (Hun s eq_refl). reflexivity.
Qed.

(** X2: a MOVE to a region of the world puts the acting player there and
    changes nothing else: no other player, no character, no log, no counter
    of the loop. *)
Theorem move_to_known_region_relocates (C : Collaborators) (user_id : string)
    (st : resolver) (a : Action.t) (s : string) (p : PlayerState.t) :
  eq_str (Action.type a) "MOVE" = true ->
  Action.target_region_id a = JStr s ->
  s <> "" ->
  has_key (WorldState.regions (r_world st)) s = true ->
  get_player user_id (r_world st) = Ok p ->
  exists st',
    resolve_action C user_id st a = Ok st' /\
    get_player user_id (r_world st') = Ok (PlayerState.set_location s p) /\
    (forall other, other <> user_id ->
       assoc other (WorldState.players (r_world st'))
       = assoc other (WorldState.players (r_world st))) /\
    map fst (WorldState.players (r_world st'))
    = map fst (WorldState.players (r_world st)) /\
    same_outside_resolver (r_world st) (r_world st') /\
    WorldState.characters (r_world st') = WorldState.characters (r_world st) /\
    WorldState.chat_log (r_world st') = WorldState.chat_log (r_world st) /\
    r_num_ticks st' = r_num_ticks st /\
    r_snippets st' = r_snippets st /\
    r_calls st' = r_calls st.
Proof.
  intros Hty Htarget Hs Hknown Hp. unfold resolve_action.
  apply eq_str_true in Hty. rewrite Hty, Htarget. simpl.
  destruct (String.eqb_spec s "") as [->|_]; [contradiction|]. simpl.
  rewrite Hknown, Hp. simpl.
  eexists. split; [reflexivity|]. simpl.
  split; [apply get_player_put_player|].
  split; [intros other Hne; apply assoc_alist_set_ne; exact Hne|].
  split.
  { apply alist_set_keys. unfold get_player in Hp.
    destruct (assoc user_id (WorldState.players (r_world st))); [eauto|discriminate]. }
  split; [apply put_player_outside|].
  repeat split.
Qed.

(** *** What the interpreter's reply becomes *)

Lemma parse_action_obj (a : json) (act : Action.t) :
  parse_action a = Ok act -> is_obj a = true.
Proof. destruct a; simpl; intros H; try discriminate. reflexivity. Qed.

Lemma mapM_parse_action (items : list json) (acts : list Action.t) :
  mapM parse_action items = Ok acts ->
  Forall (fun j => is_obj j = true) items /\ length acts = length items.
Proof.
  revert acts. induction items as [|a items IH]; simpl; intros acts H.
  - inv_ok. split; [constructor|reflexivity].
  - inv_bind H. inv_bind H. inv_ok.
    apply parse_action_obj in E. apply IH in E0 as [HF Hl].
    split; [constructor; assumption|simpl; congruence].
Qed.

(** X3: [_parse_actions] never hands the loop an empty list.  It returns
    only for a reply that is an object whose [actions] (default: none) can be
    iterated and holds objects only; the result has one action per entry, and
    the single action WAIT when there is no entry. *)
Theorem parse_actions_never_empty (ci_result : json) (actions : list Action.t) :
  _parse_actions ci_result = Ok actions ->
  actions <> [] /\
  exists fields items,
    ci_result = JObj fields /\
    py_iter (default (JList []) (assoc "actions" fields)) = Ok items /\
    Forall (fun j => is_obj j = true) items /\
    length actions = max 1 (length items) /\
    (items = [] -> actions = [Action.wait]).
Proof.
  unfold _parse_actions. intros H.
  inv_bind H. inv_bind H. inv_bind H. inv_ok.
  destruct ci_result as [| | | | | |fields]; simpl in E; try discriminate.
  inv_ok. apply mapM_parse_action in E1 as [HF Hl].
  split.
  - destruct x1; discriminate.
  - exists fields, x0. split; [reflexivity|]. split; [exact E0|].
    split; [exact HF|]. split.
    + destruct x1, x0; simpl in *; try discriminate; try reflexivity. lia.
    + intros ->. destruct x1; [reflexivity|discriminate].
Qed.

(** *** What a turn does to the players and the characters *)

Lemma acting_player_step_refl (rs : list (string * Region.t)) (p : PlayerState.t) :
  acting_player_step rs p p.
Proof. unfold acting_player_step. repeat split; auto. Qed.

Lemma acting_player_step_trans (rs : list (string * Region.t))
    (p q r : PlayerState.t) :
  acting_player_step rs p q -> acting_player_step rs q r -> acting_player_step rs p r.
Proof.
  intros (A1 & A2 & A3 & A4 & A5 & A6 & A7 & A8 & A9)
         (B1 & B2 & B3 & B4 & B5 & B6 & B7 & B8 & B9).
  unfold acting_player_step.
  repeat split; try congruence.
  - destruct B8 as [B8|B8]; [|right; exact B8].
    destruct A8 as [A8|A8]; [left; congruence|right; congruence].
  - auto.
Qed.

Lemma players_step_refl (rs : list (string * Region.t)) (user_id : string)
    (l : list (string * PlayerState.t)) :
  is_Some (assoc user_id l) -> players_step rs user_id l l.
Proof.
  intros [p Hp]. split; [reflexivity|]. split; [reflexivity|].
  exists p, p. split; [exact Hp|]. split; [exact Hp|].
  apply acting_player_step_refl.
Qed.

Lemma players_step_trans (rs : list (string * Region.t)) (user_id : string)
    (l1 l2 l3 : list (string * PlayerState.t)) :
  players_step rs user_id l1 l2 -> players_step rs user_id l2 l3 ->
  players_step rs user_id l1 l3.
Proof.
  intros (K1 & O1 & p & q & Hp & Hq & S1) (K2 & O2 & q' & r & Hq' & Hr & S2).
  split; [congruence|]. split.
  - intros k Hk. rewrite O2, O1 by exact Hk. reflexivity.
  - exists p, r. split; [exact Hp|]. split; [exact Hr|].
    assert (q' = q) as -> by congruence.
    eapply acting_player_step_trans; eassumption.
Qed.

Lemma players_step_put (rs : list (string * Region.t)) (user_id : string)
    (p p' : PlayerState.t) (ws : WorldState.t) :
  get_player user_id ws = Ok p ->
  acting_player_step rs p p' ->
  players_step rs user_id (WorldState.players ws)
    (WorldState.players (put_player user_id p' ws)).
Proof.
  unfold get_player. intros Hp Hs.
  destruct (assoc user_id (WorldState.players ws)) as [p0|] eqn:E; [|discriminate].
  inv_ok. simpl. split.
  - apply alist_set_keys. rewrite E. eauto.
  - split; [intros k Hk; apply assoc_alist_set_ne; exact Hk|].
    exists p, p'. split; [exact E|]. split; [apply assoc_alist_set_eq|exact Hs].
Qed.

Lemma stat_change_in_unit (stats stats' : gmap string float) (nd : string * json) :
  stat_change stats nd = Ok stats' -> stats_in_unit stats -> stats_in_unit stats'.
Proof.
  unfold stat_change. intros H Hin.
  inv_bind H. inv_ok.
  intros k v Hk.
  destruct (decide (k = nd.1)) as [->|Hne].
  - rewrite lookup_insert_eq in Hk. inv_ok. injection Hk as <-.
    destruct (py_float nd.2) as [d| |]; simpl in E; inv_ok.
    + apply clamp01_in_unit.
    + destruct (stats !! nd.1) as [old|] eqn:Eo; simpl.
      * exact (Hin _ _ Eo).
      * reflexivity.
  - rewrite lookup_insert_ne in Hk by congruence. exact (Hin _ _ Hk).
Qed.

Lemma _apply_stat_changes_step (rs : list (string * Region.t))
    (p p' : PlayerState.t) (deltas : json) :
  _apply_stat_changes p deltas = Ok p' -> acting_player_step rs p p'.
Proof.
  unfold _apply_stat_changes. intros H.
  inv_bind H. inv_bind H. inv_ok.
  unfold acting_player_step. simpl. repeat split; auto.
  intros Hin. revert E0. apply foldM_invariant; [|exact Hin].
  intros a b a' Ha Hab. exact (stat_change_in_unit _ _ _ Hab Ha).
Qed.

Lemma npc_effects_step (world_effects : json) (c c' : Character.t) :
  npc_effects world_effects c = Ok c' -> npc_step c c'.
Proof.
  unfold npc_effects. intros H.
  inv_bind H. inv_bind H. inv_bind H.
  assert (Hx0 : npc_step c x0).
  { destruct x.
    - inv_bind E0. inv_ok. unfold npc_step. simpl. repeat split; auto.
    - inv_ok. unfold npc_step. repeat split; auto. }
  destruct x1; [|inv_ok; exact Hx0].
  destruct (py_getitem world_effects "npc_loyalty_delta") as [v| |]; simpl in H;
    inv_ok; try exact Hx0.
  destruct (py_float v) as [d| |]; simpl in H; inv_ok; try exact Hx0.
  destruct Hx0 as (A1 & A2 & A3 & A4 & A5 & A6 & A7).
  unfold npc_step. simpl. repeat split; auto.
  intros _. apply clamp01_in_unit.
Qed.

Lemma characters_step_refl (m : gmap string Character.t) : characters_step m m.
Proof.
  intros k. destruct (m !! k); [|exact I].
  unfold npc_step. repeat split; auto.
Qed.

Lemma characters_step_trans (m1 m2 m3 : gmap string Character.t) :
  characters_step m1 m2 -> characters_step m2 m3 -> characters_step m1 m3.
Proof.
  intros H12 H23 k. specialize (H12 k). specialize (H23 k).
  destruct (m1 !! k), (m2 !! k), (m3 !! k); try contradiction; try exact I.
  destruct H12 as (A1 & A2 & A3 & A4 & A5 & A6 & A7).
  destruct H23 as (B1 & B2 & B3 & B4 & B5 & B6 & B7).
  unfold npc_step. repeat split; try congruence. auto.
Qed.

Lemma characters_step_insert (m : gmap string Character.t) (s : string)
    (c c' : Character.t) :
  m !! s = Some c -> npc_step c c' -> characters_step m (<[s := c']> m).
Proof.
  intros Hs Hc k. destruct (decide (k = s)) as [->|Hne].
  - rewrite lookup_insert_eq, Hs. exact Hc.
  - rewrite lookup_insert_ne by congruence.
    destruct (m !! k); [|exact I]. unfold npc_step. repeat split; auto.
Qed.

Lemma cast_step_refl (user_id : string) (ws : WorldState.t) :
  is_Some (assoc user_id (WorldState.players ws)) -> cast_step user_id ws ws.
Proof.
  intros H. split; [reflexivity|].
  split; [apply players_step_refl, H|apply characters_step_refl].
Qed.

Lemma cast_step_trans (user_id : string) (a b c : WorldState.t) :
  cast_step user_id a b -> cast_step user_id b c -> cast_step user_id a c.
Proof.
  intros (R1 & P1 & C1) (R2 & P2 & C2). rewrite R1 in P2.
  split; [congruence|].
  split; [eapply players_step_trans; eassumption
         |eapply characters_step_trans; eassumption].
Qed.

Lemma cast_step_acting (user_id : string) (ws ws' : WorldState.t) :
  cast_step user_id ws ws' -> is_Some (assoc user_id (WorldState.players ws')).
Proof. intros (_ & (_ & _ & p & p' & _ & Hp' & _) & _). eauto. Qed.

Lemma get_player_is_Some (user_id : string) (ws : WorldState.t) (p : PlayerState.t) :
  get_player user_id ws = Ok p -> assoc user_id (WorldState.players ws) = Some p.
Proof.
  unfold get_player. destruct (assoc user_id (WorldState.players ws));
    intros H; inv_ok; reflexivity.
Qed.

Lemma cast_step_put (user_id : string) (p p' : PlayerState.t) (ws : WorldState.t) :
  get_player user_id ws = Ok p ->
  acting_player_step (WorldState.regions ws) p p' ->
  cast_step user_id ws (put_player user_id p' ws).
Proof.
  intros Hp Hs. split; [reflexivity|].
  split; [apply (players_step_put _ _ p); assumption|apply characters_step_refl].
Qed.

Lemma talk_to_npc_cast (C : Collaborators) (user_id : string) (a : Action.t)
    (st st' : resolver) :
  talk_to_npc C user_id a st = Ok st' ->
  cast_step user_id (r_world st) (r_world st') /\
  r_calls st' = S (r_calls st) /\
  forall k, Action.target_character_id a <> JStr k ->
            WorldState.characters (r_world st') !! k
            = WorldState.characters (r_world st) !! k.
Proof.
  unfold talk_to_npc. intros H. do 10 inv_bind H. inv_ok. simpl.
  assert (Hx : WorldState.regions x5 = WorldState.regions (r_world st) /\
               WorldState.players x5 = WorldState.players (r_world st) /\
               characters_step (WorldState.characters (r_world st))
                 (WorldState.characters x5) /\
               forall k, Action.target_character_id a <> JStr k ->
                         WorldState.characters x5 !! k
                         = WorldState.characters (r_world st) !! k).
  { destruct (if x then _ else _) as [[s c]|] eqn:En; [inv_bind E5|]; inv_ok; simpl.
    - destruct x; [|discriminate].
      destruct (Action.target_character_id a) as [| | | |s0| |] eqn:Et;
        try discriminate.
      destruct (WorldState.characters (r_world st) !! s0) as [c0|] eqn:Ec;
        simpl in En; [|discriminate].
      injection En as <- <-.
      split; [reflexivity|]. split; [reflexivity|]. split.
      + eapply characters_step_insert; [exact Ec|].
        match goal with
        | Hn : npc_effects _ _ = Ok _ |- _ => exact (npc_effects_step _ _ _ Hn)
        end.
      + intros k Hk. apply lookup_insert_ne. congruence.
    - split; [reflexivity|]. split; [reflexivity|].
      split; [apply characters_step_refl|reflexivity]. }
  destruct Hx as (Hr & Hp & Hc & Hk).
  split; [|split; [reflexivity|exact Hk]].
  split; [exact Hr|]. split; [|exact Hc].
  rewrite <- Hp, <- Hr.
  apply (players_step_put _ _ x7); [exact E7|].
  eapply _apply_stat_changes_step. exact E8.
Qed.

Lemma not_talk_when_move (a : Action.t) :
  eq_str (Action.type a) "MOVE" = true -> is_talk a = false.
Proof. intros H. apply eq_str_true in H. unfold is_talk. rewrite H. reflexivity. Qed.

Lemma not_talk_when_fast_forward (a : Action.t) :
  eq_str (Action.type a) "FAST_FORWARD" = true -> is_talk a = false.
Proof. intros H. apply eq_str_true in H. unfold is_talk. rewrite H. reflexivity. Qed.

Lemma resolve_action_cast (C : Collaborators) (user_id : string)
    (st st' : resolver) (a : Action.t) :
  resolve_action C user_id st a = Ok st' ->
  is_Some (assoc user_id (WorldState.players (r_world st))) ->
  cast_step user_id (r_world st) (r_world st').
Proof.
  unfold resolve_action. intros H Hsome.
  destruct (eq_str (Action.type a) "MOVE" && truthy (Action.target_region_id a)).
  - inv_bind H.
    destruct x; [|inv_ok; apply cast_step_refl, Hsome].
    destruct (Action.target_region_id a) as [| | | |s| |] eqn:Et; inv_ok;
      try (apply cast_step_refl, Hsome).
    inv_bind H. inv_ok. simpl in E. inv_ok. simpl.
    apply (cast_step_put _ x); [exact E0|].
    unfold acting_player_step. simpl. repeat split; auto.
  - destruct (eq_str (Action.type a) "FAST_FORWARD").
    + inv_bind H. inv_ok. simpl. apply cast_step_refl, Hsome.
    + destruct (eq_str (Action.type a) "TALK").
      * destruct (find_target_player _ _) as [p|].
        -- unfold talk_to_player in H. inv_bind H. inv_ok. simpl.
           destruct (truthy _);
             (split; [reflexivity|];
              split; [apply players_step_refl, Hsome|apply characters_step_refl]).
        -- apply talk_to_npc_cast in H as [H _]. exact H.
      * inv_ok. apply cast_step_refl, Hsome.
Qed.

Lemma resolve_action_calls (C : Collaborators) (user_id : string)
    (st st' : resolver) (a : Action.t) :
  resolve_action C user_id st a = Ok st' ->
  r_calls st <= r_calls st' /\
  r_calls st' <= r_calls st + (if is_talk a then 1 else 0).
Proof.
  unfold resolve_action, is_talk. intros H.
  destruct (eq_str (Action.type a) "MOVE" && truthy (Action.target_region_id a)) eqn:Hm.
  - apply andb_true_iff in Hm as [Hm _]. apply not_talk_when_move in Hm.
    unfold is_talk in Hm. rewrite Hm.
    inv_bind H.
    destruct x; [|inv_ok; lia].
    destruct (Action.target_region_id a); inv_ok; try lia.
    inv_bind H. inv_ok. simpl. lia.
  - destruct (eq_str (Action.type a) "FAST_FORWARD") eqn:Hff.
    + apply not_talk_when_fast_forward in Hff. unfold is_talk in Hff. rewrite Hff.
      inv_bind H. inv_ok. simpl. lia.
    + destruct (eq_str (Action.type a) "TALK").
      * destruct (find_target_player _ _) as [p|].
        -- unfold talk_to_player in H. inv_bind H. inv_ok. simpl. lia.
        -- apply talk_to_npc_cast in H as (_ & H & _). lia.
      * inv_ok. lia.
Qed.

Lemma resolve_loop_cast (C : Collaborators) (user_id : string)
    (actions : list Action.t) (st st' : resolver) :
  foldM (resolve_action C user_id) st actions = Ok st' ->
  is_Some (assoc user_id (WorldState.players (r_world st))) ->
  cast_step user_id (r_world st) (r_world st').
Proof.
  intros H Hsome.
  apply (foldM_invariant (fun s => cast_step user_id (r_world st) (r_world s))
           (resolve_action C user_id)) in H; [exact H| |apply cast_step_refl, Hsome].
  intros s b s' Hs Hstep.
  eapply cast_step_trans; [exact Hs|].
  eapply resolve_action_cast; [exact Hstep|].
  eapply cast_step_acting. exact Hs.
Qed.

Lemma resolve_loop_calls (C : Collaborators) (user_id : string)
    (actions : list Action.t) (st st' : resolver) :
  foldM (resolve_action C user_id) st actions = Ok st' ->
  r_calls st <= r_calls st' /\
  r_calls st' <= r_calls st + length (List.filter is_talk actions).
Proof.
  revert st. induction actions as [|a actions IH]; simpl; intros st H.
  - inv_ok. lia.
  - inv_bind H. apply resolve_action_calls in E. apply IH in H.
    destruct (is_talk a); simpl; lia.
Qed.

Lemma advance_cast (C : Collaborators) (user_id : string) (num_ticks : Z)
    (ws ws' : WorldState.t) (special : option json) :
  advance C user_id num_ticks ws = Ok (ws', special) ->
  cast_step user_id ws ws' /\
  WorldState.characters ws' = WorldState.characters ws.
Proof.
  unfold advance. intros H. do 9 inv_bind H. inv_ok.
  split; [|reflexivity].
  split; [reflexivity|]. split; [|apply characters_step_refl].
  apply (players_step_put _ _ x3 x4 (WorldState.set_metrics x1 ws)); [exact E3|].
  eapply _apply_stat_changes_step. exact E4.
Qed.

Lemma quest_continuity_cast (C : Collaborators) (user_id : string)
    (ws ws' : WorldState.t) (note : option string) :
  quest_continuity C user_id ws = Ok (ws', note) ->
  cast_step user_id ws ws' /\
  WorldState.characters ws' = WorldState.characters ws.
Proof.
  unfold quest_continuity. intros H. do 8 inv_bind H. inv_ok.
  assert (Hx : x2 = ws \/ exists q, x2 = WorldState.set_quests q ws).
  { destruct (truthy x0); [|inv_ok; auto].
    do 2 inv_bind E2. inv_ok. destruct (no_keys _); eauto. }
  assert (Hs : acting_player_step (WorldState.regions ws) x5 x6)
    by (eapply _apply_stat_changes_step; exact E6).
  destruct Hx as [->|[q ->]].
  - split; [|reflexivity]. apply (cast_step_put _ x5); assumption.
  - split; [|reflexivity].
    split; [reflexivity|]. split; [|apply characters_step_refl].
    apply (players_step_put _ _ x5 x6 (WorldState.set_quests q ws)); assumption.
Qed.

Lemma _update_world_cast (C : Collaborators) (ws ws' : WorldState.t)
    (user_id : string) (actions : list Action.t) (ty : json)
    (special : option json) (notes : string) :
  _update_world C ws user_id actions = Ok (ws', ty, special, notes) ->
  cast_step user_id ws ws'.
Proof.
  intros H.
  assert (Hsome : is_Some (assoc user_id (WorldState.players ws))).
  { unfold _update_world in H. inv_bind H.
    apply get_player_is_Some in E. rewrite E. eauto. }
  apply _update_world_stages in H as (st & ws1 & note & Hres & Hadv & Hq).
  apply resolve_loop_cast in Hres; [|exact Hsome]. simpl in Hres.
  apply advance_cast in Hadv as [Hadv _].
  apply quest_continuity_cast in Hq as [Hq _].
  eapply cast_step_trans; [exact Hres|].
  eapply cast_step_trans; eassumption.
Qed.

(** X4: whatever the collaborators reply, a completed [_update_world] leaves
    the regions as they were, keeps the set and the order of the players,
    changes no player but the acting one, and of the acting one only the
    location, to a region of the world, and the stats, which stay in the unit
    interval when they were there. *)
Theorem update_world_changes_only_the_acting_player (C : Collaborators)
    (ws ws' : WorldState.t) (user_id : string) (actions : list Action.t)
    (ty : json) (special : option json) (notes : string) :
  _update_world C ws user_id actions = Ok (ws', ty, special, notes) ->
  WorldState.regions ws' = WorldState.regions ws /\
  map fst (WorldState.players ws') = map fst (WorldState.players ws) /\
  (forall k, k <> user_id ->
     assoc k (WorldState.players ws') = assoc k (WorldState.players ws)) /\
  exists p p',
    assoc user_id (WorldState.players ws) = Some p /\
    assoc user_id (WorldState.players ws') = Some p' /\
    acting_player_step (WorldState.regions ws) p p'.
Proof.
  intros H. apply _update_world_cast in H as (Hr & (Hk & Ho & Hp) & _).
  split; [exact Hr|]. split; [exact Hk|]. split; [exact Ho|exact Hp].
Qed.

(** X5: a completed [_update_world] neither adds nor removes a character;
    of a character it changes mood and loyalty only, and a loyalty in the
    unit interval stays there. *)
Theorem update_world_keeps_the_cast (C : Collaborators)
    (ws ws' : WorldState.t) (user_id : string) (actions : list Action.t)
    (ty : json) (special : option json) (notes : string) :
  _update_world C ws user_id actions = Ok (ws', ty, special, notes) ->
  forall k,
    match WorldState.characters ws !! k, WorldState.characters ws' !! k with
    | Some c, Some c' => npc_step c c'
    | None, None => True
    | _, _ => False
    end.
Proof.
  intros H. apply _update_world_cast in H as (_ & _ & Hc). exact Hc.
Qed.

(** X6: the dialogue agent is called at most once per TALK action of the
    turn, and never for a turn without one. *)
Theorem dialogue_calls_bounded_by_talk_actions (C : Collaborators)
    (user_id : string) (ws : WorldState.t) (actions : list Action.t)
    (st : resolver) :
  resolve_actions C user_id ws actions = Ok st ->
  r_calls st <= length (List.filter is_talk actions).
Proof.
  unfold resolve_actions. intros H.
  apply resolve_loop_calls in H. simpl in H. lia.
Qed.

(** *** Talking to a character *)

(** X7: a TALK that names no player calls the dialogue agent exactly once.
    Only the character whose id is the target can change; when the target is
    not the id of a character, the mood and loyalty effects of the reply are
    dropped and the characters stay as they were.  The chat log is not
    written. *)
Theorem talk_changes_at_most_the_addressed_character (C : Collaborators)
    (user_id : string) (st st' : resolver) (a : Action.t) :
  eq_str (Action.type a) "TALK" = true ->
  find_target_player (Action.target_character_id a) (r_world st) = None ->
  resolve_action C user_id st a = Ok st' ->
  r_calls st' = S (r_calls st) /\
  (forall k, Action.target_character_id a <> JStr k ->
             WorldState.characters (r_world st') !! k
             = WorldState.characters (r_world st) !! k) /\
  ((forall s, Action.target_character_id a = JStr s ->
              WorldState.characters (r_world st) !! s = None) ->
   WorldState.characters (r_world st') = WorldState.characters (r_world st)) /\
  WorldState.chat_log (r_world st') = WorldState.chat_log (r_world st).
Proof.
  intros Hty Hfind H. unfold resolve_action in H.
  apply eq_str_true in Hty. rewrite Hty in H. simpl in H. rewrite Hfind in H.
  apply talk_to_npc_frame in H as Hf. destruct Hf as (_ & _ & Hchat).
  apply talk_to_npc_cast in H as ((_ & _ & Hstep) & Hcalls & Hother).
  split; [exact Hcalls|]. split; [exact Hother|]. split; [|exact Hchat].
  intros Hunknown. apply map_eq. intros k.
  destruct (Action.target_character_id a) as [| | | |s0| |] eqn:Et;
    try (apply Hother; discriminate).
  destruct (decide (s0 = k)) as [->|Hne].
  - specialize (Hstep k). rewrite (Hunknown k eq_refl) in *.
    destruct (WorldState.characters (r_world st') !! k); [contradiction|reflexivity].
  - apply Hother. congruence.
Qed.

(** *** The events of a tick *)

Lemma is_special_type (ty : json) (b : bool) :
  is_special ty = Ok b -> b = special_type ty.
Proof.
  unfold is_special, special_type. destruct (hashable ty); intros H; inv_ok.
  reflexivity.
Qed.

Lemma mapM_Forall2 {A B} (f : A -> result B) (l : list A) (l' : list B) :
  mapM f l = Ok l' -> Forall2 (fun a b => f a = Ok b) l l'.
Proof.
  revert l'. induction l as [|a l IH]; simpl; intros l' H.
  - inv_ok. constructor.
  - inv_bind H. inv_bind H. inv_ok. constructor; auto.
Qed.

Lemma event_loop (tick : Z) (items : list json)
    (acc found : list Event.t * option json) :
  foldM (event_step tick) acc items = Ok found ->
  exists evs,
    mapM (make_event tick) items = Ok evs /\
    found.1 = acc.1 ++ evs /\
    found.2 = match last (List.filter special_type (map Event.type evs)) with
              | Some ty => Some ty
              | None => acc.2
              end.
Proof.
  revert acc. induction items as [|e items IH]; simpl; intros acc H.
  - inv_ok. exists []. split; [reflexivity|].
    split; [symmetry; apply app_nil_r|reflexivity].
  - inv_bind H. unfold event_step in E. inv_bind E. inv_bind E. inv_ok.
    apply IH in H as (evs & Hm & H1 & H2). simpl in *.
    exists (x0 :: evs). rewrite E0, Hm. simpl. split; [reflexivity|].
    split; [rewrite H1, <- app_assoc; reflexivity|].
    apply is_special_type in E1. rewrite H2, <- E1.
    destruct x1; [|reflexivity].
    rewrite last_cons.
    destruct (last (List.filter special_type (map Event.type evs))); reflexivity.
Qed.

Lemma make_event_fields (tick : Z) (e : json) (ev : Event.t) :
  make_event tick e = Ok ev ->
  Event.tick ev = tick /\ py_getitem e "id" = Ok (Event.id ev).
Proof.
  unfold make_event. intros H. do 5 inv_bind H. inv_ok. split; [reflexivity|exact E].
Qed.

Lemma advance_events (C : Collaborators) (user_id : string) (num_ticks : Z)
    (ws ws' : WorldState.t) (special : option json) :
  advance C user_id num_ticks ws = Ok (ws', special) ->
  exists events items,
    py_get (event_reply C) "events" (JList []) = Ok events /\
    py_iter events = Ok items /\
    mapM (make_event (WorldState.tick ws')) items = Ok (WorldState.last_events ws') /\
    special = last (List.filter special_type
                      (map Event.type (WorldState.last_events ws'))).
Proof.
  unfold advance. intros H. do 9 inv_bind H. inv_ok.
  apply event_loop in E7 as (evs & Hm & H1 & H2). simpl in *.
  exists x5, x6. split; [exact E5|]. split; [exact E6|].
  rewrite H1. split; [exact Hm|].
  rewrite H2. destruct (last _); reflexivity.
Qed.

(** X8: after a completed [advance] the world's [last_events] are the events
    of the engine's reply and nothing else: one per entry, in order, however
    many there are, each with the id of its entry and stamped with the tick
    the world ends on. *)
Theorem advance_replaces_last_events (C : Collaborators) (user_id : string)
    (num_ticks : Z) (ws ws' : WorldState.t) (special : option json) :
  advance C user_id num_ticks ws = Ok (ws', special) ->
  WorldState.tick ws' = (WorldState.tick ws + num_ticks)%Z /\
  exists events items,
    py_get (event_reply C) "events" (JList []) = Ok events /\
    py_iter events = Ok items /\
    Forall2 (fun e ev => py_getitem e "id" = Ok (Event.id ev) /\
                         Event.tick ev = WorldState.tick ws')
      items (WorldState.last_events ws').
Proof.
  intros H. apply advance_frame in H as Hf. destruct Hf as (_ & Ht & _).
  split; [exact Ht|].
  apply advance_events in H as (events & items & He & Hi & Hm & _).
  exists events, items. split; [exact He|]. split; [exact Hi|].
  apply mapM_Forall2 in Hm.
  eapply Forall2_impl; [exact Hm|].
  intros e ev Hev. simpl in Hev. apply make_event_fields in Hev as [Htk Hid].
  split; assumption.
Qed.

(** X9: the special event that [advance] reports is the type of the last
    event of the tick whose type is [dragon_hatching] or [boss_battle], and
    none when the tick has no such event. *)
Theorem advance_reports_the_last_special_event (C : Collaborators)
    (user_id : string) (num_ticks : Z) (ws ws' : WorldState.t)
    (special : option json) :
  advance C user_id num_ticks ws = Ok (ws', special) ->
  special = last (List.filter special_type
                    (map Event.type (WorldState.last_events ws'))).
Proof.
  intros H. apply advance_events in H as (events & items & _ & _ & _ & Hs).
  exact Hs.
Qed.

(** *** Pruning twice *)

Lemma filter_none {A} (f : A -> bool) (l : list A) :
  (forall x, In x l -> f x = false) -> List.filter f l = [].
Proof.
  induction l as [|a l IH]; simpl; intros H; [reflexivity|].
  rewrite (H a) by auto. apply IH. intros x Hx. apply H. auto.
Qed.

(** X10: pruning is idempotent: once the stale entries of an instant are
    gone, pruning again at the same instant changes nothing. *)
Theorem prune_twice_is_prune_once (now : float) (ws : WorldState.t) :
  _prune_inactive_players now (_prune_inactive_players now ws)
  = _prune_inactive_players now ws.
Proof.
  pose proof (prune_is_open now ws) as Hopen.
  assert (Hnone : List.filter (fun kv : string * json => timed_out now kv.2)
                    (map_to_list (WorldState.active_players
                                    (_prune_inactive_players now ws))) = []).
  { apply filter_none. intros [k ts] Hin. simpl.
    apply list_elem_of_In, elem_of_map_to_list in Hin.
    rewrite prune_lookup in Hin.
    destruct (WorldState.active_players ws !! k) as [ts0|]; [|discriminate].
    destruct (timed_out now ts0) eqn:Et; [discriminate|]. congruence. }
  remember (_prune_inactive_players now ws) as ws1 eqn:E1.
  unfold _prune_inactive_players. rewrite Hnone. simpl.
  destruct ws1. simpl in *.
  destruct (no_keys active_players); [rewrite Hopen|]; reflexivity.
Qed.

(** *** Invariants that every entry point keeps *)

Lemma store_all_save (P : WorldState.t -> Prop) (ws : WorldState.t) (st : store) :
  store_all P st -> P ws -> store_all P (save_world ws st).
Proof.
  intros Hst Hws k w. unfold save_world.
  destruct (decide (WorldState.world_id ws = k)) as [<-|Hne].
  - rewrite lookup_insert_eq. intros H. injection H as <-. exact Hws.
  - rewrite lookup_insert_ne by exact Hne. apply Hst.
Qed.

Lemma assoc_app {V} (k : string) (l1 l2 : list (string * V)) :
  assoc k (l1 ++ l2) = match assoc k l1 with Some v => Some v | None => assoc k l2 end.
Proof.
  induction l1 as [|[k0 v0] l1 IH]; simpl; [reflexivity|].
  destruct (String.eqb k k0); [reflexivity|exact IH].
Qed.

Lemma assoc_None {V} (k : string) (l : list (string * V)) :
  assoc k l = None <-> ~ In k (map fst l).
Proof.
  induction l as [|[k0 v0] l IH]; simpl.
  - split; [intros _ []|reflexivity].
  - destruct (String.eqb_spec k k0) as [->|Hne].
    + split; [discriminate|]. intros H. exfalso. apply H. left. reflexivity.
    + rewrite IH. split.
      * intros H [Heq|Hin]; [congruence|contradiction].
      * intros H Hin. apply H. right. exact Hin.
Qed.

Lemma has_key_false {V} (k : string) (l : list (string * V)) :
  has_key l k = false <-> assoc k l = None.
Proof.
  unfold has_key. destruct (assoc k l) as [v|].
  - rewrite bool_decide_eq_false. split; [intros H; exfalso; apply H; eauto|discriminate].
  - rewrite bool_decide_eq_false. split; [reflexivity|]. intros _ [v Hv]. discriminate.
Qed.

Lemma has_key_true {V} (k : string) (l : list (string * V)) :
  has_key l k = true <-> is_Some (assoc k l).
Proof. unfold has_key. apply bool_decide_eq_true. Qed.

Lemma has_key_keys {V W} (k : string) (l : list (string * V)) (l' : list (string * W)) :
  map fst l' = map fst l -> has_key l' k = has_key l k.
Proof.
  intros Hk.
  destruct (has_key l k) eqn:E.
  - apply has_key_true. apply has_key_true in E.
    destruct (assoc k l') eqn:E'; [eauto|].
    apply assoc_None in E'. rewrite Hk in E'. apply assoc_None in E'.
    rewrite E' in E. destruct E; discriminate.
  - apply has_key_false. apply has_key_false in E.
    apply assoc_None. rewrite Hk. apply assoc_None. exact E.
Qed.

Lemma _load_or_init_world_state_has_player (C : Collaborators)
    (user_id world_id seed : string) (st : store) (ws : WorldState.t) :
  _load_or_init_world_state C user_id world_id seed st = Ok ws ->
  has_key (WorldState.players ws) user_id = true.
Proof.
  unfold _load_or_init_world_state. intros H. inv_bind H.
  destruct (has_key (WorldState.players x) user_id) eqn:Hk; [inv_ok; exact Hk|].
  destruct (WorldState.regions x) as [|[rid r] rest]; inv_ok. simpl.
  apply has_key_true. rewrite assoc_app.
  destruct (assoc user_id (WorldState.players x)); [eauto|].
  simpl. rewrite String.eqb_refl. eauto.
Qed.

Lemma _load_or_init_world_state_preserves (P : WorldState.t -> Prop)
    (C : Collaborators) (user_id world_id seed : string) (st : store)
    (ws : WorldState.t) :
  kept_by_every_step P ->
  store_all P st ->
  _load_or_init_world_state C user_id world_id seed st = Ok ws ->
  P ws.
Proof.
  intros (Hnew & Hjoin & _) Hst. unfold _load_or_init_world_state. intros H.
  inv_bind H.
  assert (Hx : P x).
  { unfold load_world in E. destruct (st !! world_id) as [ws0|] eqn:El.
    - inv_ok. exact (Hst _ _ El).
    - exact (Hnew _ _ _ _ E). }
  destruct (has_key (WorldState.players x) user_id) eqn:Hk; [inv_ok; exact Hx|].
  destruct (WorldState.regions x) as [|[rid r] rest] eqn:Hr; inv_ok.
  exact (Hjoin x user_id rid r rest Hx Hk Hr).
Qed.

Lemma begin_turn_preserves (P : WorldState.t -> Prop)
    (C : Collaborators) (clock : nat -> float)
    (user_id world_id message : string) (seed : option string) (st : store)
    (ws : WorldState.t) :
  kept_by_every_step P ->
  store_all P st ->
  begin_turn C clock user_id world_id message seed st = Ok ws ->
  P ws.
Proof.
  intros HP Hst. unfold begin_turn. intros H. inv_bind H. inv_ok.
  pose proof (_load_or_init_world_state_preserves P _ _ _ _ _ _ HP Hst E) as Hx.
  apply _load_or_init_world_state_has_player in E.
  destruct HP as (_ & _ & Hprune & Htouch & Hlog & _).
  apply Hlog.
  apply (Htouch (_prune_inactive_players (clock 0) x)); [apply Hprune, Hx|].
  destruct (prune_frame (clock 0) x) as (_ & _ & _ & Hp & _).
  rewrite Hp. exact E.
Qed.

Lemma handle_turn_steps (C : Collaborators) (clock : nat -> float)
    (user_id world_id message : string) (seed : option string) (st st' : store)
    (out : string) :
  handle_turn C clock user_id world_id message seed st = Ok (out, st') ->
  exists ws1 actions ws2 ty special notes visual_block story_text,
    begin_turn C clock user_id world_id message seed st = Ok ws1 /\
    _parse_actions (interpreter_reply C) = Ok actions /\
    _update_world C ws1 user_id actions = Ok (ws2, ty, special, notes) /\
    render_turn ws2 ty special = Ok visual_block /\
    out = visual_block +:+ nl +:+ nl +:+ py_str story_text /\
    st' = save_world
            (WorldState.set_story_log
               (append_capped STORY_CAP (WorldState.story_log ws2)
                  (StoryEntry.mk (WorldState.tick ws2) user_id message story_text
                     (clock 2)))
               (WorldState.set_last_scene_text (Some story_text) ws2)) st.
Proof.
  unfold handle_turn. intros H. do 4 inv_bind H.
  destruct x2 as [[[ws2 ty] special] notes].
  do 5 inv_bind H. inv_ok.
  exists x, x1, ws2, ty, special, notes, x5, x6.
  repeat split; assumption.
Qed.

Lemma apply_action_only_steps (C : Collaborators) (clock : nat -> float)
    (user_id world_id message : string) (seed : option string) (st st' : store) :
  apply_action_only C clock user_id world_id message seed st = Ok st' ->
  exists ws1 actions ws2 ty special notes,
    begin_turn C clock user_id world_id message seed st = Ok ws1 /\
    _parse_actions (interpreter_reply C) = Ok actions /\
    _update_world C ws1 user_id actions = Ok (ws2, ty, special, notes) /\
    st' = save_world ws2 st.
Proof.
  unfold apply_action_only. intros H. do 4 inv_bind H. inv_ok.
  destruct x2 as [[[ws2 ty] special] notes].
  exists x, x1, ws2, ty, special, notes. repeat split; assumption.
Qed.

Lemma run_preserves (P : WorldState.t -> Prop) (op : operation) (st st' : store) :
  kept_by_every_step P ->
  store_all P st -> run op st = Ok st' -> store_all P st'.
Proof.
  intros HP Hst. destruct op; simpl; intros H.
  - inv_bind H. inv_ok. destruct x as [out s]. simpl.
    apply handle_turn_steps in E
      as (ws1 & actions & ws2 & ty & special & notes & vb & text
          & Hb & _ & Hu & _ & _ & ->).
    apply store_all_save; [exact Hst|].
    apply (begin_turn_preserves P) in Hb; [|exact HP|exact Hst].
    destruct HP as (_ & _ & _ & _ & _ & Hupd & Hstory & _).
    apply Hstory. eapply Hupd; [exact Hb|exact Hu].
  - apply apply_action_only_steps in H
      as (ws1 & actions & ws2 & ty & special & notes & Hb & _ & Hu & ->).
    apply store_all_save; [exact Hst|].
    apply (begin_turn_preserves P) in Hb; [|exact HP|exact Hst].
    destruct HP as (_ & _ & _ & _ & _ & Hupd & _).
    eapply Hupd; [exact Hb|exact Hu].
  - inv_bind H. inv_ok. destruct x as [v s].
    apply get_state_view_keeps_store in E. simpl. subst. exact Hst.
  - inv_ok. unfold leave_world.
    destruct (load_world world_id st) as [ws|] eqn:Hl; [|exact Hst].
    apply store_all_save; [exact Hst|].
    destruct HP as (_ & _ & _ & _ & _ & _ & _ & Hleave & _).
    apply (Hleave now user_id ws). exact (Hst _ _ Hl).
  - inv_ok. unfold api_chat.
    destruct (_ || _); [exact Hst|].
    destruct (load_world (strip world_id) st) as [ws|] eqn:Hl; [|exact Hst].
    simpl. apply store_all_save; [exact Hst|].
    destruct HP as (_ & _ & _ & _ & _ & _ & _ & _ & Hchat).
    apply Hchat. exact (Hst _ _ Hl).
Qed.

(** *** The shape of the stored worlds *)

Lemma alist_set_new {V} (k : string) (v : V) (l : list (string * V)) :
  assoc k l = None -> alist_set k v l = l ++ [(k, v)].
Proof.
  induction l as [|[k0 v0] l IH]; simpl; [reflexivity|].
  destruct (String.eqb k k0); [discriminate|].
  intros H. rewrite IH by exact H. reflexivity.
Qed.

Lemma NoDup_keys_snoc {V} (k : string) (v : V) (l : list (string * V)) :
  assoc k l = None -> NoDup (map fst l) -> NoDup (map fst (l ++ [(k, v)])).
Proof.
  intros Hk Hl. rewrite map_app. simpl. apply NoDup_app.
  split; [exact Hl|]. split; [|apply NoDup_singleton].
  intros x Hx Hx'. apply list_elem_of_singleton in Hx'. subst x.
  apply assoc_None in Hk. apply Hk. apply list_elem_of_In. exact Hx.
Qed.

Lemma alist_set_NoDup {V} (k : string) (v : V) (l : list (string * V)) :
  NoDup (map fst l) -> NoDup (map fst (alist_set k v l)).
Proof.
  intros Hl. destruct (assoc k l) as [v0|] eqn:E.
  - rewrite alist_set_keys by (rewrite E; eauto). exact Hl.
  - rewrite alist_set_new by exact E. apply NoDup_keys_snoc; assumption.
Qed.

Lemma assoc_alist_set {V} (k k' : string) (v : V) (l : list (string * V)) :
  assoc k' (alist_set k v l) = if String.eqb k' k then Some v else assoc k' l.
Proof.
  destruct (String.eqb_spec k' k) as [->|Hne].
  - apply assoc_alist_set_eq.
  - apply assoc_alist_set_ne. exact Hne.
Qed.

Lemma make_region_id (r : json) (kr : string * Region.t) :
  make_region r = Ok kr -> Region.id kr.2 = kr.1.
Proof. unfold make_region. intros H. do 10 inv_bind H. inv_ok. reflexivity. Qed.

Lemma make_character_id (first_region_id c : json) (kc : string * Character.t) :
  make_character first_region_id c = Ok kc -> Character.id kc.2 = kc.1.
Proof. unfold make_character. intros H. do 10 inv_bind H. inv_ok. reflexivity. Qed.

Lemma make_quest_id (q : json) (kq : string * Quest.t) :
  make_quest q = Ok kq -> Quest.id kq.2 = kq.1.
Proof. unfold make_quest. intros H. do 7 inv_bind H. inv_ok. reflexivity. Qed.

Lemma regions_built (rs : list json) (regions : list (string * Region.t)) :
  foldM region_step [] rs = Ok regions ->
  NoDup (map fst regions) /\
  forall k r, assoc k regions = Some r -> Region.id r = k.
Proof.
  apply (foldM_invariant
           (fun acc => NoDup (map fst acc) /\
                       forall k r, assoc k acc = Some r -> Region.id r = k)).
  - intros acc r acc' [Hnd Hid] H. unfold region_step in H. inv_bind H. inv_ok.
    split; [apply alist_set_NoDup, Hnd|].
    intros k r0. rewrite assoc_alist_set.
    destruct (String.eqb_spec k x.1) as [->|Hne].
    + intros Hr. injection Hr as <-. apply make_region_id in E. exact E.
    + apply Hid.
  - split; [constructor|]. intros k r. discriminate.
Qed.

Lemma characters_built (first_region_id : json) (cs : list json)
    (characters : gmap string Character.t) :
  foldM (character_step first_region_id) ∅ cs = Ok characters ->
  forall k c, characters !! k = Some c -> Character.id c = k.
Proof.
  apply (foldM_invariant
           (fun acc : gmap string Character.t =>
              forall k c, acc !! k = Some c -> Character.id c = k)).
  - intros acc c acc' Hid H. unfold character_step in H. inv_bind H. inv_ok.
    intros k c0. destruct (decide (k = x.1)) as [->|Hne].
    + rewrite lookup_insert_eq. intros Hc. injection Hc as <-.
      apply make_character_id in E. exact E.
    + rewrite lookup_insert_ne by congruence. apply Hid.
  - intros k c. rewrite lookup_empty. discriminate.
Qed.

Lemma quests_built (items : list json) (quests : gmap string Quest.t) :
  build_quests items = Ok quests ->
  forall k q, quests !! k = Some q -> Quest.id q = k.
Proof.
  unfold build_quests.
  apply (foldM_invariant
           (fun acc : gmap string Quest.t =>
              forall k q, acc !! k = Some q -> Quest.id q = k)).
  - intros acc q acc' Hid H. apply quest_step_cases in H. subst acc'.
    unfold accepted_quest. destruct (make_quest q) as [kq| |] eqn:E; try exact Hid.
    intros k q0. destruct (decide (k = kq.1)) as [->|Hne].
    + rewrite lookup_insert_eq. intros Hq. injection Hq as <-.
      apply make_quest_id in E. exact E.
    + rewrite lookup_insert_ne by congruence. apply Hid.
  - intros k q. rewrite lookup_empty. discriminate.
Qed.

Lemma new_world_wf (C : Collaborators) (world_id seed : string) (ws : WorldState.t) :
  new_world C world_id seed = Ok ws -> wf_world ws.
Proof.
  unfold new_world. intros H. do 13 inv_bind H. inv_ok.
  apply regions_built in E1 as [Hnd Hid].
  unfold wf_world. simpl.
  split; [exact Hnd|]. split; [constructor|]. split; [exact Hid|].
  split; [eapply characters_built; eassumption|].
  split; [eapply quests_built; eassumption|].
  split; [intros k p; discriminate|].
  intros k [v Hv]. rewrite lookup_empty in Hv. discriminate.
Qed.

Lemma quest_continuity_quests (C : Collaborators) (user_id : string)
    (ws ws' : WorldState.t) (note : option string) :
  quest_continuity C user_id ws = Ok (ws', note) ->
  WorldState.quests ws' = WorldState.quests ws \/
  exists items, build_quests items = Ok (WorldState.quests ws').
Proof.
  unfold quest_continuity. intros H. do 8 inv_bind H. inv_ok. simpl.
  destruct (truthy x0); [|inv_ok; left; reflexivity].
  do 2 inv_bind E2. inv_ok.
  destruct (no_keys x7); [left; reflexivity|right; eauto].
Qed.

Lemma _update_world_quests (C : Collaborators) (ws ws' : WorldState.t)
    (user_id : string) (actions : list Action.t) (ty : json)
    (special : option json) (notes : string) :
  _update_world C ws user_id actions = Ok (ws', ty, special, notes) ->
  WorldState.quests ws' = WorldState.quests ws \/
  exists items, build_quests items = Ok (WorldState.quests ws').
Proof.
  intros H.
  apply _update_world_stages in H as (st & ws1 & note & Hres & Hadv & Hq).
  unfold resolve_actions in Hres.
  apply resolve_loop_frame in Hres as [(_ & _ & _ & Hq0 & _) _]. simpl in Hq0.
  apply advance_frame in Hadv as (_ & _ & Hq1 & _).
  apply quest_continuity_quests in Hq as [Hq|Hq]; [left; congruence|right; exact Hq].
Qed.

Lemma wf_world_kept : kept_by_every_step wf_world.
Proof.
  unfold kept_by_every_step.
  split; [intros C world_id seed ws; apply new_world_wf|].
  split.
  { intros ws user_id rid r rest (Hr & Hp & Hrid & Hc & Hq & Hpl & Ha) Hk Hregions.
    apply has_key_false in Hk.
    unfold wf_world. simpl.
    split; [exact Hr|]. split; [apply NoDup_keys_snoc; assumption|].
    split; [exact Hrid|]. split; [exact Hc|]. split; [exact Hq|]. split.
    - intros k p. rewrite assoc_app.
      destruct (assoc k (WorldState.players ws)) as [p0|] eqn:E.
      + intros Hp0. injection Hp0 as <-. exact (Hpl _ _ E).
      + simpl. destruct (String.eqb_spec k user_id) as [->|Hne]; [|discriminate].
        intros Hp0. injection Hp0 as <-. simpl. split; [reflexivity|].
        rewrite Hregions. apply has_key_true. simpl.
        rewrite String.eqb_refl. eauto.
    - intros k Hk'. apply Ha in Hk'. apply has_key_true in Hk'.
      apply has_key_true. rewrite assoc_app.
      destruct (assoc k (WorldState.players ws)); [eauto|].
      destruct Hk'; discriminate. }
  split.
  { intros now ws (Hr & Hp & Hrid & Hc & Hq & Hpl & Ha).
    assert (Hsub : forall k,
               is_Some (WorldState.active_players (_prune_inactive_players now ws) !! k) ->
               is_Some (WorldState.active_players ws !! k)).
    { intros k. rewrite prune_lookup.
      destruct (WorldState.active_players ws !! k); [eauto|intros [v Hv]; discriminate]. }
    revert Hsub. unfold _prune_inactive_players.
    destruct (no_keys _); simpl; intros Hsub;
      (split; [exact Hr|]; split; [exact Hp|]; split; [exact Hrid|];
       split; [exact Hc|]; split; [exact Hq|]; split; [exact Hpl|];
       intros k Hk; apply Ha, Hsub, Hk). }
  split.
  { intros ws user_id ts (Hr & Hp & Hrid & Hc & Hq & Hpl & Ha) Hk.
    unfold wf_world. simpl.
    split; [exact Hr|]. split; [exact Hp|]. split; [exact Hrid|].
    split; [exact Hc|]. split; [exact Hq|]. split; [exact Hpl|].
    intros k. destruct (decide (k = user_id)) as [->|Hne]; [intros _; exact Hk|].
    rewrite lookup_insert_ne by congruence. apply Ha. }
  split.
  { intros user_id message ws Hwf. unfold log_command.
    destruct (String.eqb _ _); exact Hwf. }
  split.
  { intros C ws ws' user_id actions ty special notes
           (Hr & Hp & Hrid & Hc & Hq & Hpl & Ha) H.
    pose proof (_update_world_cast _ _ _ _ _ _ _ _ H)
      as (Hregions & (Hkeys & Hother & p & p' & Hp0 & Hp' & Hstep) & Hchars).
    pose proof (_update_world_quests _ _ _ _ _ _ _ _ H) as Hquests.
    apply _update_world_frame in H as (_ & _ & Hactive & _).
    unfold wf_world. rewrite Hregions, Hkeys, Hactive.
    split; [exact Hr|]. split; [exact Hp|]. split; [exact Hrid|]. split.
    { intros k c' Hc'. specialize (Hchars k). rewrite Hc' in Hchars.
      destruct (WorldState.characters ws !! k) as [c|] eqn:E; [|contradiction].
      destruct Hchars as (Hid & _). rewrite Hid. exact (Hc _ _ E). }
    split.
    { destruct Hquests as [->|[items Hb]]; [exact Hq|].
      eapply quests_built. exact Hb. }
    split.
    { intros k q. destruct (decide (k = user_id)) as [->|Hne].
      - rewrite Hp'. intros Hq'. injection Hq' as <-.
        destruct (Hpl _ _ Hp0) as [Hu Hl].
        destruct Hstep as (S1 & _ & _ & _ & _ & _ & _ & S8 & _).
        split; [congruence|].
        destruct S8 as [S8|S8]; [rewrite S8; exact Hl|exact S8].
      - rewrite Hother by exact Hne. apply Hpl. }
    intros k Hk. rewrite (has_key_keys k _ _ Hkeys). apply Ha, Hk. }
  split; [intros ws text log Hwf; exact Hwf|].
  split.
  { intros now user_id ws (Hr & Hp & Hrid & Hc & Hq & Hpl & Ha).
    assert (Hsub : forall k,
               is_Some (WorldState.active_players (left_world now user_id ws) !! k) ->
               is_Some (WorldState.active_players ws !! k)).
    { intros k. destruct (left_world_fields now user_id ws) as (_ & Hact & _).
      rewrite Hact. intros [v Hv]. apply lookup_delete_Some in Hv as [_ Hv].
      rewrite prune_lookup in Hv.
      destruct (WorldState.active_players ws !! k); [eauto|discriminate]. }
    revert Hsub. unfold left_world, _prune_inactive_players.
    destruct (no_keys (foldl _ _ _)); simpl; destruct (no_keys (delete _ _)); simpl;
      intros Hsub;
      (split; [exact Hr|]; split; [exact Hp|]; split; [exact Hrid|];
       split; [exact Hc|]; split; [exact Hq|]; split; [exact Hpl|];
       intros k Hk; apply Ha, Hsub, Hk). }
  intros ws log Hwf. exact Hwf.
Qed.


(** *** The clamped numbers of the stored worlds *)

Lemma default_stats_in_unit : stats_in_unit PlayerState.default_stats.
Proof.
  intros k v. unfold PlayerState.default_stats.
  rewrite !lookup_insert_Some, lookup_empty.
  intros [[_ <-]|[_ [[_ <-]|[_ [[_ <-]|[_ H]]]]]]; try reflexivity.
  discriminate.
Qed.

Lemma _update_world_metrics (C : Collaborators) (ws ws' : WorldState.t)
    (user_id : string) (actions : list Action.t) (ty : json)
    (special : option json) (notes : string) :
  _update_world C ws user_id actions = Ok (ws', ty, special, notes) ->
  WorldMetrics.in_range (WorldState.metrics ws').
Proof.
  intros H.
  apply _update_world_stages in H as (st & ws1 & note & _ & Hadv & Hq).
  apply advance_metrics_in_range in Hadv.
  apply quest_continuity_frame in Hq as (_ & _ & Hm & _).
  rewrite Hm. exact Hadv.
Qed.

Lemma numbers_in_unit_kept : kept_by_every_step numbers_in_unit.
Proof.
  unfold kept_by_every_step.
  split.
  { intros C world_id seed ws H.
    apply new_world_fields in H as (_ & _ & Hp & _ & _ & _ & _ & Hm & _).
    split; [rewrite Hm; repeat split|].
    rewrite Hp. intros k p. discriminate. }
  split.
  { intros ws user_id rid r rest [Hm Hp] _ _. split; [exact Hm|]. simpl.
    intros k p. rewrite assoc_app.
    destruct (assoc k (WorldState.players ws)) as [p0|] eqn:E.
    - intros Hp0. injection Hp0 as <-. exact (Hp _ _ E).
    - simpl. destruct (String.eqb k user_id); [|discriminate].
      intros Hp0. injection Hp0 as <-. apply default_stats_in_unit. }
  split.
  { intros now ws H. unfold _prune_inactive_players.
    destruct (no_keys _); exact H. }
  split; [intros ws user_id ts H _; exact H|].
  split.
  { intros user_id message ws H. unfold log_command.
    destruct (String.eqb _ _); exact H. }
  split.
  { intros C ws ws' user_id actions ty special notes [Hm Hp] H.
    split; [eapply _update_world_metrics; exact H|].
    apply _update_world_cast in H
      as (_ & (_ & Hother & p & p' & Hp0 & Hp' & Hstep) & _).
    intros k q. destruct (decide (k = user_id)) as [->|Hne].
    - rewrite Hp'. intros Hq. injection Hq as <-.
      destruct Hstep as (_ & _ & _ & _ & _ & _ & _ & _ & S9).
      apply S9. exact (Hp _ _ Hp0).
    - rewrite Hother by exact Hne. apply Hp. }
  split; [intros ws text log H; exact H|].
  split.
  { intros now user_id ws H. unfold left_world, _prune_inactive_players.
    destruct (no_keys (foldl _ _ _)); simpl; destruct (no_keys (delete _ _));
      exact H. }
  intros ws log H. exact H.
Qed.

(** X12: every entry point keeps the four world metrics and every stat of
    every player of every stored world in the unit interval. *)
Theorem run_keeps_numbers_in_unit_interval (op : operation) (st st' : store) :
  store_all numbers_in_unit st -> run op st = Ok st' -> store_all numbers_in_unit st'.
Proof. apply run_preserves. exact numbers_in_unit_kept. Qed.

(** *** One world at a time *)

Lemma begin_turn_local (C : Collaborators) (clock : nat -> float)
    (user_id world_id message : string) (seed : option string) (st st2 : store) :
  st2 !! world_id = st !! world_id ->
  begin_turn C clock user_id world_id message seed st2
  = begin_turn C clock user_id world_id message seed st.
Proof.
  intros H. unfold begin_turn, _load_or_init_world_state, load_world.
  rewrite H. reflexivity.
Qed.

Lemma begin_turn_world_id (C : Collaborators) (clock : nat -> float)
    (user_id world_id message : string) (seed : option string) (st : store)
    (ws : WorldState.t) :
  (forall ws0, st !! world_id = Some ws0 -> WorldState.world_id ws0 = world_id) ->
  begin_turn C clock user_id world_id message seed st = Ok ws ->
  WorldState.world_id ws = world_id.
Proof.
  intros Hkey H. apply begin_turn_fields in H as (ws0 & Ho & Hid & _).
  rewrite Hid. destruct Ho as [Hl|[_ Hn]].
  - apply Hkey. exact Hl.
  - apply new_world_fields in Hn as (Hw & _). exact Hw.
Qed.

Lemma run_local (op : operation) (st st' : store) :
  (forall ws, st !! target_world op = Some ws ->
              WorldState.world_id ws = target_world op) ->
  run op st = Ok st' ->
  exists u,
    st' = written (target_world op) u st /\
    (forall ws, u = Some ws -> WorldState.world_id ws = target_world op) /\
    forall st2, st2 !! target_world op = st !! target_world op ->
                run op st2 = Ok (written (target_world op) u st2).
Proof.
  intros Hkey. destruct op; simpl in *; intros H.
  - inv_bind H. inv_ok. destruct x as [out s]. simpl.
    unfold handle_turn in E. do 4 inv_bind E.
    destruct x2 as [[[ws2 ty] special] notes].
    do 5 inv_bind E. inv_ok.
    pose proof (begin_turn_world_id _ _ _ _ _ _ _ _ Hkey E0) as Hid1.
    apply _update_world_frame in E3 as Hf. destruct Hf as (Hid2 & _).
    eexists (Some _). split; [|split].
    + unfold save_world. simpl. rewrite Hid2, Hid1. reflexivity.
    + intros ws Hws. injection Hws as <-. simpl. congruence.
    + intros st2 H2. unfold handle_turn.
      rewrite (begin_turn_local _ _ _ _ _ _ _ _ H2), E0. simpl.
      rewrite E1. simpl. rewrite E2. simpl. rewrite E3. simpl.
      rewrite E4. simpl. rewrite E5. simpl. rewrite E6. simpl.
      rewrite E7. simpl. rewrite E8. simpl.
      unfold save_world. simpl. rewrite Hid2, Hid1. reflexivity.
  - unfold apply_action_only in H. do 4 inv_bind H. inv_ok.
    pose proof (begin_turn_world_id _ _ _ _ _ _ _ _ Hkey E) as Hid1.
    destruct x2 as [[[ws2 ty] special] notes].
    apply _update_world_frame in E2 as Hf. destruct Hf as (Hid2 & _).
    exists (Some ws2). simpl. split; [|split].
    + unfold save_world. rewrite Hid2, Hid1. reflexivity.
    + intros ws Hws. injection Hws as <-. congruence.
    + intros st2 H2. unfold apply_action_only.
      rewrite (begin_turn_local _ _ _ _ _ _ _ _ H2), E. simpl.
      rewrite E0. simpl. rewrite E1. simpl. rewrite E2. simpl.
      unfold save_world. rewrite Hid2, Hid1. reflexivity.
  - inv_bind H. inv_ok. destruct x as [v s].
    apply get_state_view_keeps_store in E as Hs. simpl. subst s.
    exists None. split; [reflexivity|]. split; [discriminate|].
    intros st2 H2. unfold get_state_view, load_world in *. rewrite H2.
    destruct (st !! world_id) as [ws|]; [|reflexivity].
    inv_bind E. rewrite E0. reflexivity.
  - inv_ok. unfold leave_world, load_world.
    destruct (st !! world_id) as [ws|] eqn:Hl.
    + exists (Some (left_world now user_id ws)).
      destruct (left_world_fields now user_id ws) as (Hid & _).
      split; [|split].
      * unfold save_world. fold (left_world now user_id ws).
        rewrite Hid, (Hkey ws eq_refl). reflexivity.
      * intros w Hw. injection Hw as <-. rewrite Hid. apply Hkey. reflexivity.
      * intros st2 H2. rewrite H2. unfold save_world.
        fold (left_world now user_id ws).
        rewrite Hid, (Hkey ws eq_refl). reflexivity.
    + exists None. split; [reflexivity|]. split; [discriminate|].
      intros st2 H2. rewrite H2. reflexivity.
  - inv_ok. unfold api_chat, load_world.
    destruct (_ || _).
    + exists None. split; [reflexivity|]. split; [discriminate|]. reflexivity.
    + destruct (st !! strip world_id) as [ws|] eqn:Hl.
      * eexists (Some _). simpl. split; [|split].
        -- unfold save_world. simpl. rewrite (Hkey ws eq_refl). reflexivity.
        -- intros w Hw. injection Hw as <-. simpl. apply Hkey. reflexivity.
        -- intros st2 H2. rewrite H2. simpl. unfold save_world. simpl.
           rewrite (Hkey ws eq_refl). reflexivity.
      * exists None. split; [reflexivity|]. split; [discriminate|].
        intros st2 H2. rewrite H2. reflexivity.
Qed.

Lemma written_lookup_ne (t k : string) (u : option WorldState.t) (st : store) :
  k <> t -> written t u st !! k = st !! k.
Proof.
  intros Hne. destruct u; simpl; [|reflexivity].
  apply lookup_insert_ne. congruence.
Qed.

Lemma written_commute (t1 t2 : string) (u1 u2 : option WorldState.t) (st : store) :
  t1 <> t2 ->
  written t1 u1 (written t2 u2 st) = written t2 u2 (written t1 u1 st).
Proof.
  intros Hne. destruct u1, u2; simpl; try reflexivity.
  apply insert_insert_ne. congruence.
Qed.



(** *** What a completed turn leaves behind *)

Lemma begin_turn_active (C : Collaborators) (clock : nat -> float)
    (user_id world_id message : string) (seed : option string) (st : store)
    (ws : WorldState.t) :
  begin_turn C clock user_id world_id message seed st = Ok ws ->
  has_key (WorldState.players ws) user_id = true /\
  forall k ts,
    WorldState.active_players ws !! k = Some ts ->
    k <> user_id ->
    exists ws0, load_world world_id st = Some ws0 /\
                WorldState.active_players ws0 !! k = Some ts /\
                timed_out (clock 0) ts = false.
Proof.
  unfold begin_turn. intros H. inv_bind H. inv_ok.
  destruct (log_command_fields user_id message
              (WorldState.set_is_open true
                 (WorldState.set_active_players
                    (<[user_id := JFloat (clock 1)]>
                       (WorldState.active_players (_prune_inactive_players (clock 0) x)))
                    (_prune_inactive_players (clock 0) x))))
    as (_ & _ & Hp & _ & _ & Ha & _).
  cbv zeta in Hp, Ha. rewrite Hp, Ha. simpl.
  destruct (prune_frame (clock 0) x) as (_ & _ & _ & Hpl & _). cbv zeta in Hpl.
  rewrite Hpl.
  split; [eapply _load_or_init_world_state_has_player; exact E|].
  intros k ts Hk Hne. rewrite lookup_insert_ne in Hk by congruence.
  rewrite prune_lookup in Hk.
  apply _load_or_init_world_state_fields in E
    as (ws0 & Ho & _ & _ & _ & _ & _ & _ & Hact & _).
  rewrite Hact in Hk.
  destruct (WorldState.active_players ws0 !! k) as [ts0|] eqn:Ek; [|discriminate].
  destruct (timed_out (clock 0) ts0) eqn:Et; [discriminate|]. injection Hk as <-.
  destruct Ho as [Hl|[_ Hn]].
  - exists ws0. auto.
  - apply new_world_fields in Hn as (_ & _ & _ & _ & _ & He & _).
    rewrite He, lookup_empty in Ek. discriminate.
Qed.

Lemma turn_presence (C : Collaborators) (clock : nat -> float)
    (user_id world_id message : string) (seed : option string) (st : store)
    (ws1 ws2 : WorldState.t) (actions : list Action.t) (ty : json)
    (special : option json) (notes : string) :
  begin_turn C clock user_id world_id message seed st = Ok ws1 ->
  _update_world C ws1 user_id actions = Ok (ws2, ty, special, notes) ->
  WorldState.is_open ws2 = true /\
  WorldState.active_players ws2 !! user_id = Some (JFloat (clock 1)) /\
  has_key (WorldState.players ws2) user_id = true /\
  (blank_command message = false ->
   last (WorldState.history_summaries ws2)
   = Some (JStr (user_id +:+ ": " +:+ strip (str_or (Some message) "WAIT")))) /\
  (forall k ts,
      WorldState.active_players ws2 !! k = Some ts ->
      k <> user_id ->
      exists ws0, load_world world_id st = Some ws0 /\
                  WorldState.active_players ws0 !! k = Some ts /\
                  timed_out (clock 0) ts = false).
Proof.
  intros Hb Hu.
  apply begin_turn_active in Hb as Ha. destruct Ha as [Hpl Hothers].
  apply begin_turn_fields in Hb as (ws0 & _ & _ & _ & _ & _ & Hopen & Hme & Hh).
  pose proof (_update_world_cast _ _ _ _ _ _ _ _ Hu) as (_ & (Hkeys & _) & _).
  apply _update_world_frame in Hu as (_ & Hh2 & Ha2 & _ & Ho2 & _).
  rewrite Hh2, Ha2, Ho2.
  split; [exact Hopen|]. split; [exact Hme|].
  split; [rewrite (has_key_keys user_id _ _ Hkeys); exact Hpl|].
  split; [|exact Hothers].
  intros Hblank. rewrite Hh, Hblank.
  apply append_capped_keeps_newest. unfold HISTORY_CAP. lia.
Qed.


(** X16: a completed full turn stores its story as the world's last scene
    and as the newest entry of the story log, stamped with the tick the world
    ends on, the acting user and the message as it was sent; the text it
    returns is the rendered block, an empty line, and that story. *)
Theorem handle_turn_records_the_story (C : Collaborators) (clock : nat -> float)
    (user_id world_id message : string) (seed : option string) (st st' : store)
    (out : string) :
  (forall ws0, st !! world_id = Some ws0 -> WorldState.world_id ws0 = world_id) ->
  handle_turn C clock user_id world_id message seed st = Ok (out, st') ->
  exists ws' story_text visual_block,
    st' !! world_id = Some ws' /\
    WorldState.last_scene_text ws' = Some story_text /\
    last (WorldState.story_log ws')
    = Some (StoryEntry.mk (WorldState.tick ws') user_id message story_text (clock 2)) /\
    out = visual_block +:+ nl +:+ nl +:+ py_str story_text.
Proof.
  intros Hkey H.
  apply handle_turn_steps in H
    as (ws1 & actions & ws2 & ty & special & notes & vb & text
        & Hb & _ & Hu & _ & -> & ->).
  pose proof (begin_turn_world_id _ _ _ _ _ _ _ _ Hkey Hb) as Hid1.
  apply _update_world_frame in Hu as (Hid2 & _).
  eexists _, text, vb. split.
  { unfold save_world. simpl. rewrite Hid2, Hid1. apply lookup_insert_eq. }
  simpl. split; [reflexivity|]. split; [|reflexivity].
  apply append_capped_keeps_newest. unfold STORY_CAP. lia.
Qed.

Lemma handle_turn_records_story_aux (C : Collaborators) (clock : nat -> float)
    (user_id world_id message : string) (seed : option string) (st st' : store)
    (out : string) :
  (forall ws0, st !! world_id = Some ws0 -> WorldState.world_id ws0 = world_id) ->
  handle_turn C clock user_id world_id message seed st = Ok (out, st') ->
  exists ws' story_text,
    st' !! world_id = Some ws' /\
    WorldState.last_scene_text ws' = Some story_text.
Proof.
  intros Hkey H.
  apply handle_turn_steps in H
    as (ws1 & actions & ws2 & ty & special & notes & vb & text
        & Hb & _ & Hu & _ & -> & ->).
  pose proof (begin_turn_world_id _ _ _ _ _ _ _ _ Hkey Hb) as Hid1.
  apply _update_world_frame in Hu as (Hid2 & _).
  eexists _, text. split.
  { unfold save_world. simpl. rewrite Hid2, Hid1. apply lookup_insert_eq. }
  reflexivity.
Qed.

Lemma prune_last_scene_text (now : float) (ws : WorldState.t) :
  WorldState.last_scene_text (_prune_inactive_players now ws)
  = WorldState.last_scene_text ws.
Proof. unfold _prune_inactive_players. destruct (no_keys _); reflexivity. Qed.


(** *** Snapshots as JSON and back *)

Lemma kwargs_ok (fields required : list string) (l : list (string * json)) :
  forallb (fun kv => existsb (String.eqb kv.1) fields) l && forallb (has_key l) required
  = true ->
  kwargs fields required (JObj l) = Ok l.
Proof. intros H. unfold kwargs. rewrite H. reflexivity. Qed.

Lemma as_strs_round (l : list string) : as_strs (strs_to_json l) = Ok l.
Proof.
  unfold as_strs, strs_to_json. simpl.
  induction l as [|s l IH]; simpl; [reflexivity|]. rewrite IH. reflexivity.
Qed.

Lemma assoc_elem_of {V} (l : list (string * V)) (k : string) (v : V) :
  NoDup (map fst l) -> assoc k l = Some v <-> (k, v) ∈ l.
Proof.
  induction l as [|[k0 v0] l IH]; simpl; intros Hnd.
  - split; [discriminate|]. intros H. apply elem_of_nil in H. contradiction.
  - apply NoDup_cons in Hnd as [Hk0 Hnd].
    destruct (String.eqb_spec k k0) as [->|Hne].
    + split.
      * intros H. injection H as <-. apply list_elem_of_here.
      * intros H. apply elem_of_cons in H as [H|H]; [congruence|].
        exfalso. apply Hk0. apply list_elem_of_In, in_map_iff.
        exists (k0, v). split; [reflexivity|]. apply list_elem_of_In. exact H.
    + rewrite (IH Hnd). split.
      * intros H. apply list_elem_of_further. exact H.
      * intros H. apply elem_of_cons in H as [H|H]; [congruence|exact H].
Qed.

Lemma dict_of_items_to_list {V} (m : gmap string V) :
  dict_of_items (map_to_list m) = m.
Proof.
  apply map_eq. intros k. rewrite dict_of_items_lookup.
  assert (Hnd : NoDup (map fst (reverse (map_to_list m)))).
  { change (NoDup ((reverse (map_to_list m)).*1)).
    rewrite fmap_reverse, reverse_Permutation. apply NoDup_fst_map_to_list. }
  destruct (m !! k) as [v|] eqn:E.
  - apply (assoc_elem_of _ _ _ Hnd). rewrite elem_of_reverse.
    apply elem_of_map_to_list. exact E.
  - destruct (assoc k (reverse (map_to_list m))) as [v|] eqn:Ea; [|reflexivity].
    apply (assoc_elem_of _ _ _ Hnd) in Ea. rewrite elem_of_reverse in Ea.
    apply elem_of_map_to_list in Ea. congruence.
Qed.

Lemma gmap_from_items_fold {V} (dec : json -> result V) (enc : V -> json)
    (l : list (string * V)) (acc : gmap string V) :
  (forall x, dec (enc x) = Ok x) ->
  foldM (fun acc kv => v ← dec kv.2; Ok (<[kv.1 := v]> acc)) acc
    (map (fun kv => (kv.1, enc kv.2)) l)
  = Ok (foldl (fun m kv => <[kv.1 := kv.2]> m) acc l).
Proof.
  intros Hround. revert acc. induction l as [|[k v] l IH]; simpl; intros acc.
  - reflexivity.
  - rewrite Hround. simpl. apply IH.
Qed.

Lemma gmap_from_items_round {V} (dec : json -> result V) (enc : V -> json)
    (m : gmap string V) :
  (forall x, dec (enc x) = Ok x) ->
  gmap_from_items dec (map (fun kv => (kv.1, enc kv.2)) (map_to_list m)) = Ok m.
Proof.
  intros Hround. unfold gmap_from_items.
  rewrite (gmap_from_items_fold dec enc _ _ Hround).
  f_equal. apply dict_of_items_to_list.
Qed.

Lemma alist_from_items_fold {V} (dec : json -> result V) (enc : V -> json)
    (l acc : list (string * V)) :
  (forall x, dec (enc x) = Ok x) ->
  NoDup (map fst (acc ++ l)) ->
  foldM (fun acc kv => v ← dec kv.2; Ok (alist_set kv.1 v acc)) acc
    (map (fun kv => (kv.1, enc kv.2)) l)
  = Ok (acc ++ l).
Proof.
  intros Hround. revert acc. induction l as [|[k v] l IH]; simpl; intros acc Hnd.
  - rewrite app_nil_r. reflexivity.
  - rewrite Hround. simpl.
    assert (Hk : assoc k acc = None).
    { apply assoc_None. intros Hin. rewrite map_app in Hnd. simpl in Hnd.
      apply NoDup_app in Hnd as (_ & Hdis & _).
      apply (Hdis k); [apply list_elem_of_In; exact Hin|apply list_elem_of_here]. }
    rewrite (alist_set_new _ _ _ Hk).
    rewrite IH; rewrite <- app_assoc; [reflexivity|exact Hnd].
Qed.

Lemma alist_from_items_round {V} (dec : json -> result V) (enc : V -> json)
    (l : list (string * V)) :
  (forall x, dec (enc x) = Ok x) ->
  NoDup (map fst l) ->
  alist_from_items dec (map (fun kv => (kv.1, enc kv.2)) l) = Ok l.
Proof.
  intros Hround Hnd. unfold alist_from_items.
  apply (alist_from_items_fold dec enc l [] Hround Hnd).
Qed.

Lemma mapM_round {A B} (dec : B -> result A) (enc : A -> B) (l : list A) :
  (forall x, dec (enc x) = Ok x) -> mapM dec (map enc l) = Ok l.
Proof.
  intros Hround. induction l as [|a l IH]; simpl; [reflexivity|].
  rewrite Hround. simpl. rewrite IH. reflexivity.
Qed.

Lemma as_floats_round (m : gmap string float) : as_floats (floats_to_json m) = Ok m.
Proof.
  unfold as_floats, floats_to_json. simpl.
  apply (gmap_from_items_round as_float JFloat). reflexivity.
Qed.

Lemma region_round (r : Region.t) : region_from_dict (region_to_dict r) = Ok r.
Proof. destruct r. reflexivity. Qed.

Lemma character_round (c : Character.t) :
  character_from_dict (character_to_dict c) = Ok c.
Proof. destruct c. reflexivity. Qed.

Lemma metrics_round (m : WorldMetrics.t) : metrics_from_dict (metrics_to_dict m) = Ok m.
Proof. destruct m. reflexivity. Qed.

Lemma event_round (e : Event.t) : event_from_dict (event_to_dict e) = Ok e.
Proof. destruct e. reflexivity. Qed.

Lemma story_entry_round (e : StoryEntry.t) :
  story_entry_from_dict (story_entry_to_dict e) = Ok e.
Proof. destruct e. reflexivity. Qed.

Lemma player_from_fields (user_id character_id name char_class location : string)
    (sj rj gj ij : json) (stats reputation : gmap string float)
    (goals inventory : list string) :
  as_floats sj = Ok stats -> as_floats rj = Ok reputation ->
  as_strs gj = Ok goals -> as_strs ij = Ok inventory ->
  player_from_dict
    (JObj [("user_id", JStr user_id); ("character_id", JStr character_id);
           ("name", JStr name); ("char_class", JStr char_class);
           ("location_region_id", JStr location); ("stats", sj);
           ("reputation", rj); ("goals", gj); ("inventory", ij)])
  = Ok (PlayerState.mk user_id character_id name char_class location stats
          reputation goals inventory).
Proof.
  intros H1 H2 H3 H4. unfold player_from_dict.
  rewrite kwargs_ok by reflexivity. simpl.
  rewrite H1. simpl. unfold field. simpl. rewrite H2. simpl.
  rewrite H3. simpl. rewrite H4. reflexivity.
Qed.

Lemma player_round (p : PlayerState.t) : player_from_dict (player_to_dict p) = Ok p.
Proof.
  destruct p. apply player_from_fields;
    first [apply as_floats_round|apply as_strs_round].
Qed.

Lemma quest_from_fields (id answer_type : string)
    (title status summary related_regions related_characters cj kj : json)
    (correct_answers keywords : list string) :
  as_strs cj = Ok correct_answers -> as_strs kj = Ok keywords ->
  quest_from_dict
    (JObj [("id", JStr id); ("title", title); ("status", status);
           ("summary", summary); ("related_regions", related_regions);
           ("related_characters", related_characters);
           ("answer_type", JStr answer_type); ("correct_answers", cj);
           ("keywords", kj)])
  = Ok (Quest.mk id title status summary related_regions related_characters
          answer_type correct_answers keywords).
Proof.
  intros H1 H2. unfold quest_from_dict.
  rewrite kwargs_ok by reflexivity. simpl. unfold field. simpl.
  rewrite H1. simpl. rewrite H2. reflexivity.
Qed.

Lemma quest_round (q : Quest.t) : quest_from_dict (quest_to_dict q) = Ok q.
Proof. destruct q. apply quest_from_fields; apply as_strs_round. Qed.

Lemma world_from_fields (world_id seed_prompt : string) (tick : Z)
    (ri ci pi qi ai : list (string * json)) (mj lj world_size cj : json)
    (history ej sj : list json) (is_open : bool)
    (regions : list (string * Region.t)) (characters : gmap string Character.t)
    (players : list (string * PlayerState.t)) (quests : gmap string Quest.t)
    (metrics : WorldMetrics.t) (events : list Event.t) (chat : list string)
    (story : list StoryEntry.t) :
  alist_from_items region_from_dict ri = Ok regions ->
  gmap_from_items character_from_dict ci = Ok characters ->
  alist_from_items player_from_dict pi = Ok players ->
  gmap_from_items quest_from_dict qi = Ok quests ->
  metrics_from_dict mj = Ok metrics ->
  mapM event_from_dict ej = Ok events ->
  as_strs cj = Ok chat ->
  mapM story_entry_from_dict sj = Ok story ->
  world_state_from_dict
    (JObj [("world_id", JStr world_id); ("seed_prompt", JStr seed_prompt);
           ("tick", JInt tick); ("regions", JObj ri); ("characters", JObj ci);
           ("players", JObj pi); ("quests", JObj qi); ("metrics", mj);
           ("history_summaries", JList history); ("last_events", JList ej);
           ("active_players", JObj ai); ("last_scene_text", lj);
           ("world_size", world_size); ("chat_log", cj);
           ("story_log", JList sj); ("is_open", JBool is_open)])
  = Ok (WorldState.mk world_id seed_prompt tick regions characters players quests
          metrics history events (dict_of_items ai)
          (optional lj) world_size chat story is_open).
Proof.
  intros H1 H2 H3 H4 H5 H6 H7 H8. unfold world_state_from_dict, get_items, field.
  simpl. rewrite H1. simpl. rewrite H2. simpl. rewrite H3. simpl.
  rewrite H4. simpl. rewrite H5. simpl. rewrite H6. simpl.
  rewrite H7. simpl. rewrite H8. reflexivity.
Qed.

(** X19: a snapshot survives the trip through its JSON form: for a world
    whose regions and players have distinct keys, and whose last scene, when
    there is one, is not [None], [world_state_from_dict] gives back exactly
    the world that [world_state_to_dict] was given. *)
Theorem world_state_round_trip (ws : WorldState.t) :
  NoDup (map fst (WorldState.regions ws)) ->
  NoDup (map fst (WorldState.players ws)) ->
  WorldState.last_scene_text ws <> Some JNull ->
  world_state_from_dict (world_state_to_dict ws) = Ok ws.
Proof.
  intros Hr Hp Hs. destruct ws. simpl in *. unfold world_state_to_dict. simpl.
  unfold items_to_json.
  rewrite (world_from_fields world_id seed_prompt tick _ _ _ _ _ _ _ _ _ _ _ _ _
             regions characters players quests metrics last_events chat_log
             story_log).
  - rewrite dict_of_items_to_list.
    destruct last_scene_text as [[]|]; try reflexivity. contradiction.
  - apply alist_from_items_round; [exact region_round|exact Hr].
  - apply gmap_from_items_round. exact character_round.
  - apply alist_from_items_round; [exact player_round|exact Hp].
  - apply gmap_from_items_round. exact quest_round.
  - apply metrics_round.
  - apply mapM_round. exact event_round.
  - apply as_strs_round.
  - apply mapM_round. exact story_entry_round.
Qed.

(** X20: what [world_state_from_dict] makes of a snapshot that lacks fields,
    as older snapshots do.  A world is only ever returned for a snapshot with
    a [world_id], which becomes the world's id; every other field that is
    missing takes a default, and the default of [is_open] is [True]. *)
Theorem world_state_from_dict_defaults (fields : list (string * json))
    (ws : WorldState.t) :
  world_state_from_dict (JObj fields) = Ok ws ->
  assoc "world_id" fields = Some (JStr (WorldState.world_id ws)) /\
  (assoc "seed_prompt" fields = None ->
   WorldState.seed_prompt ws = "A mysterious world.") /\
  (assoc "tick" fields = None -> WorldState.tick ws = 0%Z) /\
  (assoc "regions" fields = None -> WorldState.regions ws = []) /\
  (assoc "characters" fields = None -> WorldState.characters ws = ∅) /\
  (assoc "players" fields = None -> WorldState.players ws = []) /\
  (assoc "quests" fields = None -> WorldState.quests ws = ∅) /\
  (assoc "metrics" fields = None -> WorldState.metrics ws = WorldMetrics.new) /\
  (assoc "history_summaries" fields = None -> WorldState.history_summaries ws = []) /\
  (assoc "last_events" fields = None -> WorldState.last_events ws = []) /\
  (assoc "active_players" fields = None -> WorldState.active_players ws = ∅) /\
  (assoc "last_scene_text" fields = None -> WorldState.last_scene_text ws = None) /\
  (assoc "world_size" fields = None -> WorldState.world_size ws = JStr "medium") /\
  (assoc "chat_log" fields = None -> WorldState.chat_log ws = []) /\
  (assoc "story_log" fields = None -> WorldState.story_log ws = []) /\
  (assoc "is_open" fields = None -> WorldState.is_open ws = true).
Proof.
  unfold world_state_from_dict. simpl. intros H.
  unfold get_items, field in H. do 21 inv_bind H. inv_ok. simpl.
  split.
  { destruct (assoc "world_id" fields) as [w|]; [|discriminate].
    inv_ok.
    match goal with
    | Hw : as_str ?j = Ok _ |- _ =>
        is_var j; destruct j; simpl in Hw; try discriminate Hw; injection Hw as <-
    end.
    reflexivity. }
  assert (Hm : metrics_from_dict (JObj []) = Ok WorldMetrics.new) by reflexivity.
  repeat split; intros Hn; rewrite Hn in *;
    unfold as_strs, alist_from_items, gmap_from_items in *;
    simpl in *; inv_ok; simpl in *; inv_ok; try reflexivity.
  congruence.
Qed.

Lemma assoc_snoc_ne {V} (k k' : string) (v : V) (l : list (string * V)) :
  k' <> k -> assoc k' (l ++ [(k, v)]) = assoc k' l.
Proof.
  intros Hne. rewrite assoc_app. destruct (assoc k' l); [reflexivity|].
  simpl. destruct (String.eqb_spec k' k); [contradiction|reflexivity].
Qed.

Lemma kwargs_unknown_key (fields required : list string)
    (l : list (string * json)) (k : string) :
  has_key l k = true -> ~ In k fields ->
  kwargs fields required (JObj l) = Raise TypeError.
Proof.
  intros Hk Hun. unfold kwargs.
  assert (Hf : forallb (fun kv : string * json => existsb (String.eqb kv.1) fields) l
               = false).
  { apply has_key_true in Hk. destruct Hk as [v Hv].
    induction l as [|[k0 v0] l IH]; simpl in *; [discriminate|].
    destruct (String.eqb_spec k k0) as [->|Hne].
    - assert (He : existsb (String.eqb k0) fields = false).
      { apply not_true_is_false. intros He. apply existsb_exists in He as (x & Hx & Hxe).
        apply String.eqb_eq in Hxe. subst x. contradiction. }
      rewrite He. reflexivity.
    - rewrite (IH Hv). apply andb_false_r. }
  rewrite Hf. reflexivity.
Qed.

(** X21: keys that the loader does not know.  At the top level of a
    snapshot an unknown key is ignored: the snapshot loads as it does without
    it.  Inside a region it is fatal: a region that carries a key that is not
    a field of [Region] makes the whole load raise [TypeError]. *)
Theorem unknown_keys_ignored_outside_fatal_inside (fields : list (string * json))
    (k : string) (v : json) :
  (~ In k world_field_names ->
   world_state_from_dict (JObj (fields ++ [(k, v)]))
   = world_state_from_dict (JObj fields)) /\
  (forall rid region rest,
      assoc "regions" fields = Some (JObj ((rid, JObj region) :: rest)) ->
      has_key region k = true ->
      ~ In k region_field_names ->
      world_state_from_dict (JObj fields) = Raise TypeError).
Proof.
  split.
  - intros Hk. unfold world_state_from_dict, get_items, field. simpl.
    rewrite !assoc_snoc_ne; [reflexivity|..];
      intros <-; apply Hk; simpl; auto 20.
  - intros rid region rest Hr Hreg Hun.
    assert (Hbad : region_from_dict (JObj region) = Raise TypeError).
    { unfold region_from_dict. unfold region_field_names in Hun.
      rewrite (kwargs_unknown_key _ _ _ _ Hreg Hun). reflexivity. }
    assert (Hitems : alist_from_items region_from_dict ((rid, JObj region) :: rest)
                     = Raise TypeError).
    { unfold alist_from_items. cbn [foldM snd]. rewrite Hbad. reflexivity. }
    assert (Hg : get_items fields "regions" = Ok ((rid, JObj region) :: rest))
      by (unfold get_items, field; rewrite Hr; reflexivity).
    unfold world_state_from_dict. cbn [mbind result_bind].
    rewrite Hg. cbn [mbind result_bind]. rewrite Hitems. reflexivity.
Qed.

(** *** Cleaning a reply *)

Lemma list_ascii_of_string_app (a b : string) :
  list_ascii_of_string (a +:+ b) = list_ascii_of_string a ++ list_ascii_of_string b.
Proof. induction a as [|c a IH]; simpl; [reflexivity|]. rewrite IH. reflexivity. Qed.

Lemma lstrip_spaces (ws : list ascii) :
  Forall (fun c => is_space c = true) ws -> lstrip ws = [].
Proof. induction 1 as [|c ws Hc _ IH]; simpl; [reflexivity|]. rewrite Hc. exact IH. Qed.

Lemma lstrip_app (l m : list ascii) :
  lstrip (l ++ m) = match lstrip l with [] => lstrip m | r => r ++ m end.
Proof.
  induction l as [|c l IH]; simpl.
  - destruct (lstrip m); reflexivity.
  - destruct (is_space c); [exact IH|reflexivity].
Qed.

Lemma lstrip_spaces_app (ws l : list ascii) :
  Forall (fun c => is_space c = true) ws -> lstrip (ws ++ l) = lstrip l.
Proof. intros H. rewrite lstrip_app, (lstrip_spaces _ H). destruct (lstrip l); reflexivity. Qed.

(** White space around a text does not survive [strip]. *)
Lemma strip_padding (pre l post : list ascii) :
  Forall (fun c => is_space c = true) pre ->
  Forall (fun c => is_space c = true) post ->
  rev (lstrip (rev (lstrip (pre ++ l ++ post)))) = rev (lstrip (rev (lstrip l))).
Proof.
  intros Hpre Hpost. rewrite (lstrip_spaces_app _ _ Hpre), lstrip_app.
  destruct (lstrip l) as [|c r] eqn:E.
  - rewrite (lstrip_spaces _ Hpost). reflexivity.
  - rewrite rev_app_distr, lstrip_spaces_app; [reflexivity|].
    apply Forall_forall. intros x Hx.
    rewrite Forall_forall in Hpost. apply Hpost.
    apply list_elem_of_In, (proj2 (in_rev post x)), list_elem_of_In. exact Hx.
Qed.

Lemma strip_list (s : string) :
  list_ascii_of_string (strip s)
  = rev (lstrip (rev (lstrip (list_ascii_of_string s)))).
Proof. unfold strip. apply list_ascii_of_string_of_list_ascii. Qed.

Lemma strip_fixed (l m : list ascii) (c d : ascii) :
  l = c :: m -> last l = Some d -> is_space c = false -> is_space d = false ->
  rev (lstrip (rev (lstrip l))) = l.
Proof.
  intros -> Hl Hc Hd. simpl lstrip. rewrite Hc.
  apply last_Some in Hl as [l' Hl']. rewrite Hl'.
  rewrite rev_app_distr. simpl. rewrite Hd.
  change (d :: rev l') with (rev [d] ++ rev l').
  rewrite <- rev_app_distr. apply rev_involutive.
Qed.

Lemma lstrip_char_all (c : ascii) (pre l : list ascii) :
  Forall (fun d => d = c) pre -> lstrip_char c (pre ++ l) = lstrip_char c l.
Proof.
  induction 1 as [|d pre Hd _ IH]; simpl; [reflexivity|].
  subst d. rewrite Ascii.eqb_refl. exact IH.
Qed.

Lemma strip_char_fence (c x y : ascii) (pre l m post : list ascii) :
  Forall (fun d => d = c) pre -> Forall (fun d => d = c) post ->
  l = x :: m -> last l = Some y -> x <> c -> y <> c ->
  rev (lstrip_char c (rev (lstrip_char c (pre ++ l ++ post)))) = l.
Proof.
  intros Hpre Hpost Hl Hlast Hx Hy.
  rewrite (lstrip_char_all _ _ _ Hpre).
  assert (H1 : lstrip_char c (l ++ post) = l ++ post).
  { rewrite Hl. simpl. destruct (Ascii.eqb_spec x c); [contradiction|reflexivity]. }
  rewrite H1, rev_app_distr, lstrip_char_all.
  - apply last_Some in Hlast as [l' Hl']. rewrite Hl'.
    rewrite rev_app_distr. simpl.
    destruct (Ascii.eqb_spec y c); [contradiction|].
    change (y :: rev l') with (rev [y] ++ rev l').
    rewrite <- rev_app_distr. apply rev_involutive.
  - apply Forall_forall. intros z Hz.
    rewrite Forall_forall in Hpost. apply Hpost.
    apply list_elem_of_In, (proj2 (in_rev post z)), list_elem_of_In. exact Hz.
Qed.


(** *** The chat endpoint *)


(** *** Worlds only grow *)

Lemma world_grows_same (ws0 ws' : WorldState.t) :
  WorldState.regions ws' = WorldState.regions ws0 ->
  WorldState.players ws' = WorldState.players ws0 ->
  world_grows ws0 ws'.
Proof.
  intros Hr Hp. split; [exact Hr|]. intros u p Hu. exists p.
  split; [rewrite Hp; exact Hu|apply acting_player_step_refl].
Qed.

Lemma world_grows_trans (a b c : WorldState.t) :
  world_grows a b -> world_grows b c -> world_grows a c.
Proof.
  intros [R1 P1] [R2 P2]. split; [congruence|].
  intros u p Hu. destruct (P1 u p Hu) as (q & Hq & S1).
  destruct (P2 u q Hq) as (r & Hr & S2). rewrite R1 in S2.
  exists r. split; [exact Hr|]. eapply acting_player_step_trans; eassumption.
Qed.

Lemma cast_step_grows (user_id : string) (ws ws' : WorldState.t) :
  cast_step user_id ws ws' -> world_grows ws ws'.
Proof.
  intros (Hr & (_ & Hother & p & p' & Hp & Hp' & Hstep) & _).
  split; [exact Hr|]. intros u q Hu.
  destruct (decide (u = user_id)) as [->|Hne].
  - exists p'. split; [exact Hp'|]. congruence.
  - exists q. split; [rewrite Hother by exact Hne; exact Hu|].
    apply acting_player_step_refl.
Qed.

Lemma log_command_cast (user_id message : string) (ws : WorldState.t) :
  WorldState.regions (log_command user_id message ws) = WorldState.regions ws /\
  WorldState.players (log_command user_id message ws) = WorldState.players ws.
Proof. unfold log_command. destruct (String.eqb _ _); split; reflexivity. Qed.

Lemma begin_turn_grows (C : Collaborators) (clock : nat -> float)
    (user_id world_id message : string) (seed : option string) (st : store)
    (ws0 ws : WorldState.t) :
  load_world world_id st = Some ws0 ->
  begin_turn C clock user_id world_id message seed st = Ok ws ->
  world_grows ws0 ws.
Proof.
  intros Hl. unfold begin_turn. intros H. inv_bind H. inv_ok.
  apply _load_or_init_world_state_fields in E
    as (w & Ho & _ & _ & Hr & _ & _ & _ & _ & _ & Hp).
  assert (w = ws0) as ->.
  { destruct Ho as [Ho|[Ho _]]; congruence. }
  match goal with |- context [log_command ?u ?m ?w] =>
    destruct (log_command_cast u m w) as [Lr Lp]
  end.
  destruct (prune_frame (clock 0) x) as (_ & _ & Pr & Pp & _).
  split.
  - rewrite Lr. simpl. rewrite Pr. exact Hr.
  - intros u p Hu. rewrite Lp. simpl. rewrite Pp.
    exists p. split; [|apply acting_player_step_refl].
    destruct Hp as [[_ ->]|(_ & rid & r & rest & _ & ->)]; [exact Hu|].
    rewrite assoc_app, Hu. reflexivity.
Qed.

Lemma left_world_cast (now : float) (user_id : string) (ws : WorldState.t) :
  WorldState.regions (left_world now user_id ws) = WorldState.regions ws /\
  WorldState.players (left_world now user_id ws) = WorldState.players ws.
Proof.
  unfold left_world, _prune_inactive_players.
  destruct (no_keys (foldl _ _ _)); simpl; destruct (no_keys (delete _ _));
    split; reflexivity.
Qed.


(** *** Leaving twice *)

Lemma prune_fixed (now : float) (ws : WorldState.t) :
  (forall k ts, WorldState.active_players ws !! k = Some ts ->
                timed_out now ts = false) ->
  (WorldState.active_players ws = ∅ -> WorldState.is_open ws = false) ->
  _prune_inactive_players now ws = ws.
Proof.
  intros Hfresh Hopen.
  assert (Hnone : List.filter (fun kv : string * json => timed_out now kv.2)
                    (map_to_list (WorldState.active_players ws)) = []).
  { apply filter_none. intros [k ts] Hin. simpl.
    apply list_elem_of_In, elem_of_map_to_list in Hin. eapply Hfresh. exact Hin. }
  unfold _prune_inactive_players. rewrite Hnone. simpl.
  destruct ws. simpl in *.
  destruct (no_keys active_players) eqn:En; [|reflexivity].
  apply no_keys_empty in En. rewrite (Hopen En). reflexivity.
Qed.

(** X24: leaving is idempotent: in a store that files every snapshot under
    its own id, a second [leave_world] of the same user at the same instant
    changes nothing. *)
Theorem leave_twice_is_leave_once (now : float) (user_id world_id : string)
    (st : store) :
  store_keyed st ->
  leave_world now user_id world_id (leave_world now user_id world_id st)
  = leave_world now user_id world_id st.
Proof.
  intros Hkey.
  destruct (load_world world_id st) as [ws|] eqn:Hl.
  2:{ unfold leave_world at 2. rewrite Hl. unfold leave_world. rewrite Hl.
      reflexivity. }
  rewrite (leave_world_saves _ _ _ _ _ Hl).
  destruct (left_world_fields now user_id ws) as (Hid & Hact & Hopen & _).
  cbv zeta in Hact, Hopen.
  assert (Hl' : load_world world_id (save_world (left_world now user_id ws) st)
                = Some (left_world now user_id ws)).
  { unfold load_world, save_world. rewrite Hid, (Hkey _ _ Hl).
    apply lookup_insert_eq. }
  rewrite (leave_world_saves _ _ _ _ _ Hl').
  assert (Hfix : left_world now user_id (left_world now user_id ws)
                 = left_world now user_id ws).
  { assert (Hp : _prune_inactive_players now (left_world now user_id ws)
                 = left_world now user_id ws).
    { apply prune_fixed.
      - intros k ts. rewrite Hact. intros Hk.
        apply lookup_delete_Some in Hk as [_ Hk]. rewrite prune_lookup in Hk.
        destruct (WorldState.active_players ws !! k) as [ts0|]; [|discriminate].
        destruct (timed_out now ts0) eqn:Et; [discriminate|]. congruence.
      - intros He. rewrite Hopen.
        apply no_keys_empty in He. rewrite He. reflexivity. }
    unfold left_world at 1. rewrite Hp.
    assert (Hd : delete user_id (WorldState.active_players (left_world now user_id ws))
                 = WorldState.active_players (left_world now user_id ws)).
    { rewrite Hact. apply delete_delete_eq. }
    rewrite Hd.
    destruct (left_world now user_id ws) eqn:Ew. simpl in *.
    destruct (no_keys active_players); [rewrite Hopen|]; reflexivity. }
  rewrite Hfix. unfold save_world. apply insert_insert_eq.
Qed.

End Orchestrator.

(** ** Concrete runs *)

(** Goals about closed terms are settled by evaluation. *)
Ltac by_running := vm_compute; reflexivity.

Lemma store_caps_empty : store_caps ∅.
Proof. intros k ws H. rewrite lookup_empty in H. discriminate. Qed.

(** [int(..)] on a few strings *)
Example int_of_str_5 : int_of_str "5" = Some 5%Z.
Proof. reflexivity. Qed.
Example int_of_str_spaces : int_of_str "  -1_000 " = Some (-1000)%Z.
Proof. reflexivity. Qed.
Example int_of_str_bad : int_of_str "five" = None /\ int_of_str "5.0" = None /\ int_of_str "" = None /\ int_of_str "1__0" = None.
Proof. vm_compute. repeat split. Qed.


Lemma stormy_fields_numeric : numeric_fields stormy_fields.
Proof.
  intros k v _ H. unfold stormy_fields in H. simpl in H.
  repeat match type of H with
         | (if ?b then _ else _) = _ =>
             destruct b; [injection H as <-; reflexivity|]
         end.
  discriminate.
Defined.

(** Deltas of minus infinity, a million and NaN leave the metrics in [0,1]. *)
Lemma advance_keeps_metrics_in_unit_interval_witness :
  exists m',
    apply_metrics_delta sample_float_of_str (JObj stormy_fields) WorldMetrics.new
    = Ok m' /\
    WorldMetrics.in_range m'.
Proof.
  destruct (advance_keeps_metrics_in_unit_interval sample_float_of_str stormy "ana" 1
              demo_world stormy_fields eq_refl stormy_fields_numeric)
    as (m' & H1 & H2 & _).
  exists m'. split; assumption.
Defined.

Example stormy_metrics :
  apply_metrics_delta sample_float_of_str (JObj stormy_fields) WorldMetrics.new
  = Ok (WorldMetrics.mk f0 f1 f1 f0_2).
Proof. reflexivity. Qed.

(** The failing input of C3: the event engine answers
    [{"metrics_delta": {"world_health": "lots"}}]. *)
Lemma malformed_metric_delta_aborts_advance_witness :
  advance sample_float_of_str moody "ana" 1 demo_world = Raise ValueError.
Proof.
  apply (malformed_metric_delta_aborts_advance sample_float_of_str moody "ana" 1
           demo_world [("world_health", JStr "lots")] (JStr "lots") ValueError);
    reflexivity.
Defined.

(** With that reply the full turn raises and nothing is written. *)
Example malformed_metric_delta_aborts_turn :
  handle_turn sample_float_of_str sample_py_str sample_render_turn
    sample_compose_story moody demo_clock "ana" "w1" "look around" None demo_store
  = Raise ValueError.
Proof. vm_compute. reflexivity. Qed.

(** The same malformed value as a stat delta is ignored: the turn completes
    and courage is still 0.5. *)
Example malformed_stat_delta_is_ignored :
  exists out st' ws' p,
    handle_turn sample_float_of_str sample_py_str sample_render_turn
      sample_compose_story fickle demo_clock "ana" "w1" "look around" None demo_store
    = Ok (out, st') /\
    st' !! "w1" = Some ws' /\
    assoc "ana" (WorldState.players ws') = Some p /\
    PlayerState.stats p !! "courage" = Some f0_5.
Proof. do 4 eexists. split; [by_running|]. split; [by_running|]. split; by_running. Qed.




(** "ana", the only one present, leaves: the world is stored closed. *)
Lemma leave_world_rederives_is_open_witness :
  exists ws',
    load_world "w1" (leave_world sample_float_of_str (demo_clock 0) "ana" "w1" demo_store)
    = Some ws' /\
    WorldState.active_players ws' !! "ana" = None /\
    WorldState.is_open ws' = false.
Proof.
  destruct (leave_world_rederives_is_open sample_float_of_str (demo_clock 0) "ana" "w1"
              demo_store demo_world eq_refl (fun _ => eq_refl))
    as (ws' & Hload & Hact & Hgone & Hclosed & _).
  exists ws'. split; [exact Hload|]. split; [exact Hgone|].
  apply Hclosed. rewrite Hact. vm_compute. reflexivity.
Defined.

(** When somebody else is still present the world stays open. *)
Example leave_with_company :
  let st := <["w1" := WorldState.set_active_players
                        (<["bob" := JFloat (demo_clock 0)]>
                           (WorldState.active_players demo_world)) demo_world]> ∅ in
  exists ws',
    load_world "w1" (leave_world sample_float_of_str (demo_clock 0) "ana" "w1" st)
    = Some ws' /\
    WorldState.active_players ws' !! "ana" = None /\
    is_Some (WorldState.active_players ws' !! "bob") /\
    WorldState.is_open ws' = true.
Proof.
  eexists. split; [by_running|]. split; [by_running|]. split; [|by_running].
  eexists. by_running.
Qed.

(** The scenario of the specification: [main_2] alone is returned while
    [main_1] and [side_1] exist. *)
Lemma quest_map_replaced_by_accepted_witness :
  exists ws' note,
    quest_continuity sample_float_of_str sample_py_str planner "ana" demo_world
    = Ok (ws', note) /\
    WorldState.quests ws'
    = dict_of_items
        [("main_2", Quest.new "main_2" (JStr "The Second Bell") (JStr "open")
                      (JStr "") (JList []) (JList []))].
Proof.
  assert (Hrun : exists r,
             quest_continuity sample_float_of_str sample_py_str planner "ana"
               demo_world = Ok r) by (eexists; by_running).
  destruct Hrun as [[ws' note] Hrun].
  exists ws', note. split; [exact Hrun|].
  destruct (quest_map_replaced_by_accepted sample_float_of_str sample_py_str planner
              "ana" demo_world ws' note Hrun) as (quests_out & Hget & _ & Hrep).
  simpl in Hget. injection Hget as <-.
  destruct (Hrep eq_refl) as (items & Hiter & Hq).
  simpl in Hiter. injection Hiter as <-. exact Hq.
Defined.

Example main_2_replaces_main_1_and_side_1 :
  exists ws' note,
    quest_continuity sample_float_of_str sample_py_str planner "ana" demo_world
    = Ok (ws', note) /\
    is_Some (WorldState.quests ws' !! "main_2") /\
    WorldState.quests ws' !! "main_1" = None /\
    WorldState.quests ws' !! "side_1" = None /\
    size (WorldState.quests ws') = 1.
Proof.
  do 2 eexists. split; [by_running|]. split; [eexists; by_running|].
  split; [by_running|]. split; by_running.
Qed.

(** The counterexample to C7 as worded: the returned list is not empty, its
    one entry has no id, and the quest map is what it was, [main_1] and
    [side_1] included. *)
Lemma quest_replace_counterexample :
  (exists ws' note,
      py_get (quest_reply careless) "quests" (JList [])
      = Ok (JList [JObj [("title", JStr "The Lost Bell")]]) /\
      quest_continuity sample_float_of_str sample_py_str careless "ana" demo_world
      = Ok (ws', note) /\
      WorldState.quests ws' = WorldState.quests demo_world /\
      is_Some (WorldState.quests ws' !! "main_1") /\
      is_Some (WorldState.quests ws' !! "side_1")) /\
  ~ replaced_wholesale sample_float_of_str sample_py_str.
Proof.
  assert (Hrun : exists ws' note,
             quest_continuity sample_float_of_str sample_py_str careless "ana"
               demo_world = Ok (ws', note) /\
             WorldState.quests ws' = WorldState.quests demo_world).
  { do 2 eexists. split; by_running. }
  destruct Hrun as (ws' & note & Hrun & Hsame).
  assert (Hmain : is_Some (WorldState.quests ws' !! "main_1"))
    by (rewrite Hsame; eexists; by_running).
  assert (Hside : is_Some (WorldState.quests ws' !! "side_1"))
    by (rewrite Hsame; eexists; by_running).
  split.
  - exists ws', note. repeat split; assumption.
  - intros H.
    destruct (H careless "ana" demo_world ws' note
                [JObj [("title", JStr "The Lost Bell")]] eq_refl
                ltac:(discriminate) Hrun "main_1" Hmain) as (q & Hin & Hid).
    destruct Hin as [<-|[]]. discriminate Hid.
Qed.

(** A new world from an architect that returned nothing *)
Lemma new_world_first_player_witness :
  exists ws,
    _load_or_init_world_state sample_float_of_str quiet "ana" "w2" "a quiet sea" ∅
    = Ok ws /\
    WorldState.regions ws = [("glass_whale_bay", fallback_bay)] /\
    exists p,
      WorldState.players ws = [("ana", p)] /\
      PlayerState.location_region_id p = "glass_whale_bay" /\
      PlayerState.stats p
      = <["courage" := f0_5]> (<["empathy" := f0_5]> (<["cunning" := f0_5]> ∅)).
Proof.
  assert (Hrun : exists ws,
             _load_or_init_world_state sample_float_of_str quiet "ana" "w2"
               "a quiet sea" ∅ = Ok ws) by (eexists; by_running).
  destruct Hrun as [ws Hrun].
  destruct (new_world_first_player sample_float_of_str quiet "ana" "w2" "a quiet sea"
              ∅ ws (lookup_empty "w2") Hrun) as [Hfirst Hbay].
  destruct (Hbay (JList []) eq_refl eq_refl) as [Hregions _].
  destruct Hfirst as (first & r & rest & p & Hr & Hp & Hloc & Hstats).
  exists ws. split; [exact Hrun|]. split; [exact Hregions|].
  exists p. split; [exact Hp|]. split; [|exact Hstats].
  rewrite Hloc. congruence.
Defined.

Lemma read_of_unknown_world_witness :
  get_state_view sample_float_of_str sample_render_turn (demo_clock 0) "ana" "nowhere" ∅
  = Ok ({| visual := "";
           story := JStr "This world does not exist yet. Create it by sending an action." |},
        ∅).
Proof.
  apply (read_of_unknown_world sample_float_of_str sample_render_turn (demo_clock 0)
           "ana" "nowhere" ∅ (lookup_empty "nowhere")).
Defined.

(** Pruning at 1300 s: an entry stamped 600 s is removed, one stamped 1000 s
    and one stamped NaN stay, a string that is no number goes. *)
Example prune_run :
  let stamp z := JFloat (binary_normalize prec emax z 0 false) in
  let ws := WorldState.set_active_players
              (<["old" := stamp 600%Z]> (<["new" := stamp 1000%Z]>
                 (<["nan" := JFloat S754_nan]> (<["odd" := JStr "yesterday"]> ∅))))
              demo_world in
  let ws' := _prune_inactive_players sample_float_of_str
               (binary_normalize prec emax 1300 0 false) ws in
  WorldState.active_players ws' !! "old" = None /\
  WorldState.active_players ws' !! "new" = Some (stamp 1000%Z) /\
  WorldState.active_players ws' !! "nan" = Some (JFloat S754_nan) /\
  WorldState.active_players ws' !! "odd" = None /\
  WorldState.is_open ws' = true.
Proof. vm_compute. repeat split. Qed.
(** *** Runs of the further statements *)

Lemma demo_store_keyed : store_keyed demo_store.
Proof.
  intros k ws. unfold demo_store. rewrite lookup_insert_Some, lookup_empty.
  intros [[<- <-]|[_ H]]; [reflexivity|discriminate].
Qed.

Lemma empty_store_all (P : WorldState.t -> Prop) : store_all P ∅.
Proof. intros k ws H. rewrite lookup_empty in H. discriminate. Qed.

Lemma move_to_unknown_region_is_ignored_witness :
  resolve_action sample_float_of_str sample_py_str quiet "ana" demo_resolver
    (walk_to "atlantis") = Ok demo_resolver.
Proof.
  apply (move_to_unknown_region_is_ignored sample_float_of_str sample_py_str quiet
           "ana" demo_resolver (walk_to "atlantis")).
  - reflexivity.
  - reflexivity.
  - intros s H. injection H as <-. by_running.
Defined.

Lemma move_to_known_region_relocates_witness :
  exists st',
    resolve_action sample_float_of_str sample_py_str quiet "ana" wide_resolver
      (walk_to "moon_gate") = Ok st' /\
    get_player "ana" (r_world st')
    = Ok (PlayerState.set_location "moon_gate" (demo_player "ana")) /\
    assoc "bob" (WorldState.players (r_world st')) = Some (demo_player "bob").
Proof.
  destruct (move_to_known_region_relocates sample_float_of_str sample_py_str quiet
              "ana" wide_resolver (walk_to "moon_gate") "moon_gate"
              (demo_player "ana"))
    as (st' & Hrun & Hme & Hother & _).
  - reflexivity.
  - reflexivity.
  - discriminate.
  - by_running.
  - reflexivity.
  - exists st'. split; [exact Hrun|]. split; [exact Hme|].
    rewrite (Hother "bob") by discriminate. reflexivity.
Defined.

Lemma parse_actions_never_empty_witness :
  exists actions,
    _parse_actions (interpreter_reply busy) = Ok actions /\
    actions <> [] /\ length actions = 2.
Proof.
  assert (Hrun : exists r, _parse_actions (interpreter_reply busy) = Ok r)
    by (eexists; by_running).
  destruct Hrun as [actions Hrun]. exists actions. split; [exact Hrun|].
  destruct (parse_actions_never_empty (interpreter_reply busy) actions Hrun)
    as (Hne & fields & items & Hci & Hiter & _ & Hlen & _).
  split; [exact Hne|].
  injection Hci as <-. simpl in Hiter. injection Hiter as <-. exact Hlen.
Defined.

Lemma update_world_changes_only_the_acting_player_witness :
  exists ws' ty special notes,
    _update_world sample_float_of_str sample_py_str chatty wide_world "ana"
      [walk_to "moon_gate"; talk_to "keeper"] = Ok (ws', ty, special, notes) /\
    WorldState.regions ws' = WorldState.regions wide_world /\
    assoc "bob" (WorldState.players ws') = Some (demo_player "bob").
Proof.
  assert (Hrun : exists r,
             _update_world sample_float_of_str sample_py_str chatty wide_world "ana"
               [walk_to "moon_gate"; talk_to "keeper"] = Ok r)
    by (eexists; by_running).
  destruct Hrun as [[[[ws' ty] special] notes] Hrun].
  exists ws', ty, special, notes. split; [exact Hrun|].
  destruct (update_world_changes_only_the_acting_player sample_float_of_str
              sample_py_str chatty wide_world ws' "ana"
              [walk_to "moon_gate"; talk_to "keeper"] ty special notes Hrun)
    as (Hr & _ & Hother & _).
  split; [exact Hr|]. rewrite (Hother "bob") by discriminate. reflexivity.
Defined.

Lemma update_world_keeps_the_cast_witness :
  exists ws' ty special notes c',
    _update_world sample_float_of_str sample_py_str chatty wide_world "ana"
      [walk_to "moon_gate"; talk_to "keeper"] = Ok (ws', ty, special, notes) /\
    WorldState.characters ws' !! "keeper" = Some c' /\
    npc_step demo_keeper c' /\
    WorldState.characters ws' !! "stranger" = None.
Proof.
  assert (Hrun : exists r,
             _update_world sample_float_of_str sample_py_str chatty wide_world "ana"
               [walk_to "moon_gate"; talk_to "keeper"] = Ok r)
    by (eexists; by_running).
  destruct Hrun as [[[[ws' ty] special] notes] Hrun].
  pose proof (update_world_keeps_the_cast sample_float_of_str sample_py_str chatty
                wide_world ws' "ana" [walk_to "moon_gate"; talk_to "keeper"]
                ty special notes Hrun) as Hcast.
  pose proof (Hcast "keeper") as Hk. pose proof (Hcast "stranger") as Hs.
  change (WorldState.characters wide_world !! "keeper") with (Some demo_keeper) in Hk.
  change (WorldState.characters wide_world !! "stranger")
    with (@None Character.t) in Hs.
  destruct (WorldState.characters ws' !! "keeper") as [c'|] eqn:Ek; [|contradiction].
  destruct (WorldState.characters ws' !! "stranger") eqn:Es; [contradiction|].
  exists ws', ty, special, notes, c'.
  split; [exact Hrun|]. split; [exact Ek|]. split; [exact Hk|exact Es].
Defined.

Lemma dialogue_calls_bounded_by_talk_actions_witness :
  exists st,
    resolve_actions sample_float_of_str sample_py_str chatty "ana" wide_world
      [walk_to "moon_gate"; talk_to "keeper"; fast_forward_5] = Ok st /\
    r_calls st <= 1.
Proof.
  assert (Hrun : exists r,
             resolve_actions sample_float_of_str sample_py_str chatty "ana" wide_world
               [walk_to "moon_gate"; talk_to "keeper"; fast_forward_5] = Ok r)
    by (eexists; by_running).
  destruct Hrun as [st Hrun]. exists st. split; [exact Hrun|].
  apply (dialogue_calls_bounded_by_talk_actions sample_float_of_str sample_py_str
           chatty "ana" wide_world
           [walk_to "moon_gate"; talk_to "keeper"; fast_forward_5] st Hrun).
Defined.

Lemma talk_changes_at_most_the_addressed_character_witness :
  exists st',
    resolve_action sample_float_of_str sample_py_str chatty "ana" wide_resolver
      (talk_to "stranger") = Ok st' /\
    r_calls st' = 1 /\
    WorldState.characters (r_world st') = WorldState.characters wide_world.
Proof.
  assert (Hrun : exists r,
             resolve_action sample_float_of_str sample_py_str chatty "ana"
               wide_resolver (talk_to "stranger") = Ok r)
    by (eexists; by_running).
  destruct Hrun as [st' Hrun]. exists st'. split; [exact Hrun|].
  destruct (talk_changes_at_most_the_addressed_character sample_float_of_str
              sample_py_str chatty "ana" wide_resolver st' (talk_to "stranger")
              eq_refl eq_refl Hrun) as (Hcalls & _ & Hsame & _).
  split; [exact Hcalls|]. apply Hsame.
  intros s H. injection H as <-. reflexivity.
Defined.

Lemma advance_replaces_last_events_witness :
  exists ws' special,
    advance sample_float_of_str eventful "ana" 3 demo_world = Ok (ws', special) /\
    WorldState.tick ws' = 3%Z /\
    map Event.tick (WorldState.last_events ws') = [3%Z; 3%Z].
Proof.
  assert (Hrun : exists r,
             advance sample_float_of_str eventful "ana" 3 demo_world = Ok r)
    by (eexists; by_running).
  destruct Hrun as [[ws' special] Hrun]. exists ws', special.
  split; [exact Hrun|].
  destruct (advance_replaces_last_events sample_float_of_str eventful "ana" 3
              demo_world ws' special Hrun)
    as (Ht & events & items & Hget & Hiter & Hall).
  split; [exact Ht|].
  simpl in Hget. injection Hget as <-. simpl in Hiter. injection Hiter as <-.
  rewrite Ht in Hall.
  apply Forall2_cons_inv_l in Hall as (e1 & l1 & [_ H1] & Hall & ->).
  apply Forall2_cons_inv_l in Hall as (e2 & l2 & [_ H2] & Hall & ->).
  apply Forall2_nil_inv_l in Hall as ->.
  simpl. rewrite H1, H2. reflexivity.
Defined.

Lemma advance_reports_the_last_special_event_witness :
  exists ws',
    advance sample_float_of_str eventful "ana" 1 demo_world
    = Ok (ws', Some (JStr "dragon_hatching")) /\
    last (List.filter special_type (map Event.type (WorldState.last_events ws')))
    = Some (JStr "dragon_hatching").
Proof.
  assert (Hrun : exists ws',
             advance sample_float_of_str eventful "ana" 1 demo_world
             = Ok (ws', Some (JStr "dragon_hatching")))
    by (eexists; by_running).
  destruct Hrun as [ws' Hrun]. exists ws'. split; [exact Hrun|].
  symmetry.
  apply (advance_reports_the_last_special_event sample_float_of_str eventful "ana"
           1 demo_world ws' (Some (JStr "dragon_hatching")) Hrun).
Defined.

Lemma run_keeps_numbers_in_unit_interval_witness :
  exists st1 st2,
    run sample_float_of_str sample_py_str sample_render_turn sample_compose_story
      (ActionOnly stormy demo_clock "ana" "w2" "look around" None) ∅ = Ok st1 /\
    run sample_float_of_str sample_py_str sample_render_turn sample_compose_story
      (FullTurn chatty demo_clock "bob" "w2" "hello" None) st1 = Ok st2 /\
    is_Some (st2 !! "w2") /\
    store_all numbers_in_unit st2.
Proof.
  assert (Hrun : exists st1 st2,
             run sample_float_of_str sample_py_str sample_render_turn
               sample_compose_story
               (ActionOnly stormy demo_clock "ana" "w2" "look around" None) ∅ = Ok st1 /\
             run sample_float_of_str sample_py_str sample_render_turn
               sample_compose_story
               (FullTurn chatty demo_clock "bob" "w2" "hello" None) st1 = Ok st2 /\
             is_Some (st2 !! "w2")).
  { eexists _, _. split; [by_running|]. split; [by_running|].
    eexists. by_running. }
  destruct Hrun as (st1 & st2 & H1 & H2 & Hs). exists st1, st2.
  split; [exact H1|]. split; [exact H2|]. split; [exact Hs|].
  apply (run_keeps_numbers_in_unit_interval sample_float_of_str sample_py_str
           sample_render_turn sample_compose_story
           (FullTurn chatty demo_clock "bob" "w2" "hello" None) st1 st2); [|exact H2].
  apply (run_keeps_numbers_in_unit_interval sample_float_of_str sample_py_str
           sample_render_turn sample_compose_story
           (ActionOnly stormy demo_clock "ana" "w2" "look around" None) ∅ st1);
    [apply empty_store_all|exact H1].
Defined.



Lemma demo_store_keyed_at (k : string) (ws0 : WorldState.t) :
  demo_store !! k = Some ws0 -> WorldState.world_id ws0 = k.
Proof. apply demo_store_keyed. Qed.


Lemma handle_turn_records_the_story_witness :
  exists out st' ws' story_text,
    handle_turn sample_float_of_str sample_py_str sample_render_turn
      sample_compose_story quiet demo_clock "ana" "w1" "look around" None demo_store
    = Ok (out, st') /\
    st' !! "w1" = Some ws' /\
    WorldState.last_scene_text ws' = Some story_text /\
    last (WorldState.story_log ws')
    = Some (StoryEntry.mk (WorldState.tick ws') "ana" "look around" story_text
              (demo_clock 2)).
Proof.
  assert (Hrun : exists r,
             handle_turn sample_float_of_str sample_py_str sample_render_turn
               sample_compose_story quiet demo_clock "ana" "w1" "look around" None
               demo_store = Ok r) by (eexists; by_running).
  destruct Hrun as [[out st'] Hrun].
  destruct (handle_turn_records_the_story sample_float_of_str sample_py_str
              sample_render_turn sample_compose_story quiet demo_clock "ana" "w1"
              "look around" None demo_store st' out (demo_store_keyed_at "w1") Hrun)
    as (ws' & text & vb & Hl & Hs & Hlog & _).
  exists out, st', ws', text. auto.
Defined.


Lemma world_state_round_trip_witness :
  world_state_from_dict (world_state_to_dict wide_world) = Ok wide_world.
Proof.
  apply (world_state_round_trip wide_world).
  - exact (bool_decide_unpack (NoDup ["glass_whale_bay"; "moon_gate"]) I).
  - exact (bool_decide_unpack (NoDup ["ana"; "bob"]) I).
  - discriminate.
Defined.

Lemma world_state_from_dict_defaults_witness :
  exists ws,
    world_state_from_dict (JObj [("world_id", JStr "w9"); ("tick", JInt 4)]) = Ok ws /\
    WorldState.world_id ws = "w9" /\
    WorldState.is_open ws = true /\
    WorldState.seed_prompt ws = "A mysterious world.".
Proof.
  assert (Hrun : exists ws,
             world_state_from_dict (JObj [("world_id", JStr "w9"); ("tick", JInt 4)])
             = Ok ws) by (eexists; by_running).
  destruct Hrun as [ws Hrun]. exists ws. split; [exact Hrun|].
  destruct (world_state_from_dict_defaults
              [("world_id", JStr "w9"); ("tick", JInt 4)] ws Hrun)
    as (Hid & Hseed & _ & _ & _ & _ & _ & _ & _ & _ & _ & _ & _ & _ & _ & Hopen).
  simpl in Hid. injection Hid as Hid.
  split; [symmetry; exact Hid|]. split; [apply Hopen; reflexivity|].
  apply Hseed. reflexivity.
Defined.



Lemma leave_twice_is_leave_once_witness :
  leave_world sample_float_of_str (demo_clock 0) "ana" "w1"
    (leave_world sample_float_of_str (demo_clock 0) "ana" "w1" demo_store)
  = leave_world sample_float_of_str (demo_clock 0) "ana" "w1" demo_store.
Proof.
  apply (leave_twice_is_leave_once sample_float_of_str (demo_clock 0) "ana" "w1"
           demo_store demo_store_keyed).
Defined.
